(** * Scraptopedia: the site crawler, its filter pass and the typed scraper

    A shallow embedding of the three JavaScript programs of the repository:

    - the site crawler ([crawlSite], [filterData], [scrapperFunc], [main]),
      module [Crawler];
    - the typed scraper ([getRelevantLinks], [scrapePage]) and its HTTP
      route ([app.post('/scrape')]), module [Typed]; its extractors, module
      [Extractors]; and the crawler's prompt, module [Prompt].

    The browser, the clock and the file system are the environment.  The
    browser and the clock are an abstract [World] with the operations the
    code calls on them; every call threads the world, so that a page may
    answer differently each time and time may pass at every step. *)

From stdpp Require Import gmap strings list pretty.
From Stdlib Require Import ZArith Lia Ascii.

Local Open Scope string_scope.
Local Open Scope list_scope.

#[local] Set Warnings "-clear-no-such-hyp".

(** ** JavaScript values *)

Module Js.

(** A JavaScript string holding page text is a sequence of UTF-16 code
    units.  URLs ([a.href], [img.src]) are serialised in ASCII and are kept
    as [string]. *)
Definition text := list N.

(** [s.startsWith(p)] *)
Definition startsWith (s p : string) : bool := String.prefix p s.

(** The numbers the programs handle come from [parseInt] or are array
    lengths: [NaN], an integer, or an infinity.  The two zeros are one:
    no operation of the programs tells them apart. *)
Inductive num := NaN | Int (z : Z) | Inf (negative : bool).

(** The double nearest to an integer, ties to the even significand, and an
    infinity from [2^1024 - 2^970] on: the Number value of an integer.  An
    integer below [2^53] in magnitude is a double. *)
Definition toDouble (z : Z) : num :=
  let a := Z.abs z in
  if (a <? 2 ^ 53)%Z then Int z
  else
    let e := (Z.log2 a - 52)%Z in
    let q := Z.shiftr a e in
    let r := (a - Z.shiftl q e)%Z in
    let half := Z.shiftl 1 (e - 1) in
    let q' := if (half <? r)%Z || ((r =? half)%Z && Z.odd q)
              then (q + 1)%Z else q in
    let m := Z.shiftl q' e in
    if (2 ^ 1024 <=? m)%Z then Inf (z <? 0)%Z
    else Int (if (z <? 0)%Z then - m else m).

(** The code units matched by [\s] in a regular expression, which are also
    the ones [String.prototype.trim] strips: WhiteSpace and LineTerminator
    of ECMAScript. *)
Definition isWhiteSpace (c : N) : bool :=
  ((9 <=? c) && (c <=? 13) || (c =? 32) || (c =? 160) || (c =? 5760)
   || (8192 <=? c) && (c <=? 8202) || (c =? 8232) || (c =? 8233)
   || (c =? 8239) || (c =? 8287) || (c =? 12288) || (c =? 65279))%N.

(** The code unit of [' ']. *)
Definition SPACE : N := 32%N.

(** [Array.from(new Set(xs))]: a Set keeps its elements in insertion order,
    and adding an element that is already present changes nothing. *)
Definition setAdd {A} `{EqDecision A} (acc : list A) (x : A) : list A :=
  if bool_decide (x ∈ acc) then acc else acc ++ [x].

Definition uniq {A} `{EqDecision A} (xs : list A) : list A :=
  foldl setAdd [] xs.

(** The elements of a list in the order of their first occurrence: the head,
    then the first occurrences of the rest without the head. *)
Fixpoint keepFirst {A} `{EqDecision A} (xs : list A) : list A :=
  match xs with
  | [] => []
  | x :: rest => x :: filter (λ y, y ≠ x) (keepFirst rest)
  end.

(** The decimal digits of an integer, after a [-] when it is negative:
    [String(n)] for an integer [n] below [10^21] in magnitude. *)
Definition decimal (z : Z) : string := pretty z.

End Js.

(** ** The site crawler *)

Module Crawler.
Import Js.

(** What [scrapePageData] extracts from a loaded page. *)
Record PageData := mkPageData {
  links : list string;
  images : list string;
  textContent : text;
  htmlContent : text
}.

(** An element of [allData]: [{ url, ...pageData }]. *)
Record PageRecord := mkPageRecord {
  url : string;
  page : PageData
}.

Global Instance PageData_eq_dec : EqDecision PageData.
Proof. solve_decision. Defined.

Global Instance PageRecord_eq_dec : EqDecision PageRecord.
Proof. solve_decision. Defined.

(** The operations of one crawl on its three collaborators, in the order the
    code performs them: the visited set, the clock and the browser page. *)
Inductive Event :=
| VisitedHas (u : string) (seen : bool)   (* visited.has(u), first statement of crawl(u) *)
| DeadlineCheck (expired : bool)          (* elapsedTime >= timeLimit *)
| VisitedAdd (u : string)                 (* visited.add(u) *)
| Scrape (u : string) (ok : bool).        (* await scrapePageData(page, u); ok = it resolved *)

Global Instance Event_eq_dec : EqDecision Event.
Proof. solve_decision. Defined.

Section Crawl.
Context {World : Type}.

(** [Date.now()], in milliseconds. *)
Variable dateNow : World → Z * World.

(** [await scrapePageData(page, url)]: [None] when the promise rejects
    (navigation error, time-out of [goto] or [waitForSelector]). *)
Variable scrapePageData : string → World → option PageData * World.

(** The variables [crawl] closes over, with the world and the log of the
    operations performed so far (oldest first). *)
Record Store := mkStore {
  visited : gset string;
  allData : list PageRecord;
  world : World;
  trace : list Event
}.

Definition log (e : Event) (s : Store) : Store :=
  mkStore (visited s) (allData s) (world s) (trace s ++ [e]).

Definition setWorld (w : World) (s : Store) : Store :=
  mkStore (visited s) (allData s) w (trace s).

(** An awaited call either resolves, rejects, or is still pending when the
    model's recursion budget is spent. *)
Inductive Outcome (A : Type) :=
| Resolved (a : A) (s : Store)
| Rejected (s : Store)
| Pending (s : Store).
Global Arguments Resolved {A} a s.
Global Arguments Rejected {A} s.
Global Arguments Pending {A} s.

Definition Async (A : Type) : Type := Store → Outcome A.

Global Instance Async_ret : MRet Async := λ A a s, Resolved a s.

Global Instance Async_bind : MBind Async := λ A B f m s,
  match m s with
  | Resolved a s' => f a s'
  | Rejected s' => Rejected s'
  | Pending s' => Pending s'
  end.

Definition stateOf {A} (o : Outcome A) : Store :=
  match o with Resolved _ s | Rejected s | Pending s => s end.

(** [crawlSite]'s [startTime] and [timeLimit] (seconds). *)
Variable startTime : Z.
Variable timeLimit : Z.

(** [(now - startTime) / 1000 >= timeLimit].  The division is a floating
    point one; for integer milliseconds and an integer limit it compares as
    the exact quotient does. *)
Definition limitReached (now : Z) : bool :=
  bool_decide (1000 * timeLimit ≤ now - startTime)%Z.

Definition visitedHas (u : string) : Async bool := λ s,
  let seen := bool_decide (u ∈ visited s) in
  Resolved seen (log (VisitedHas u seen) s).

Definition deadlineCheck : Async bool := λ s,
  let '(now, w) := dateNow (world s) in
  Resolved (limitReached now) (log (DeadlineCheck (limitReached now)) (setWorld w s)).

Definition visitedAdd (u : string) : Async unit := λ s,
  Resolved () (log (VisitedAdd u)
    (mkStore ({[u]} ∪ visited s) (allData s) (world s) (trace s))).

Definition scrape (u : string) : Async PageData := λ s,
  match scrapePageData u (world s) with
  | (Some d, w) => Resolved d (log (Scrape u true) (setWorld w s))
  | (None, w) => Rejected (log (Scrape u false) (setWorld w s))
  end.

Definition push (r : PageRecord) : Async unit := λ s,
  Resolved () (mkStore (visited s) (allData s ++ [r]) (world s) (trace s)).

(** The [for (const link of pageData.links)] loop of [crawl(url)]; [recur]
    is [crawl] itself.  Note that [url] is the parameter of the enclosing
    [crawl], the page being processed. *)
Fixpoint forLinks (recur : string → Async unit) (url : string)
    (ls : list string) : Async unit :=
  match ls with
  | [] => mret ()
  | link :: rest =>
      expired ← deadlineCheck;
      if expired : bool then mret ()
      else if startsWith link url then recur link ;; forLinks recur url rest
      else forLinks recur url rest
  end.

(** [crawl(url)]; [fuel] bounds the depth of the recursion. *)
Fixpoint crawl (fuel : nat) (url : string) : Async unit :=
  match fuel with
  | O => Pending
  | S n =>
      seen ← visitedHas url;
      if seen : bool then mret ()
      else
        expired ← deadlineCheck;
        if expired : bool then mret ()
        else
          visitedAdd url ;;
          pageData ← scrape url;
          push (mkPageRecord url pageData) ;;
          forLinks (crawl n) url (links pageData)
  end.

(** The store after each step of [crawl(u)]: after [visited.has(u)], after
    a comparison of the clock with the limit, and after [visited.add(u)],
    [await scrapePageData(page, u)] and, when it resolved, [allData.push]. *)
Definition afterHas (u : string) (s : Store) : Store :=
  log (VisitedHas u (bool_decide (u ∈ visited s))) s.

Definition afterCheck (now : Z) (w : World) (s : Store) : Store :=
  log (DeadlineCheck (limitReached now)) (setWorld w s).

Definition afterVisit (u : string) (r : option PageData) (w : World)
    (s : Store) : Store :=
  match r with
  | Some d =>
      mkStore ({[u]} ∪ visited s) (allData s ++ [mkPageRecord u d]) w
        (trace s ++ [VisitedAdd u; Scrape u true])
  | None =>
      mkStore ({[u]} ∪ visited s) (allData s) w
        (trace s ++ [VisitedAdd u; Scrape u false])
  end.

End Crawl.

Global Arguments Store : clear implicits.
Global Arguments Outcome : clear implicits.
Global Arguments Async : clear implicits.

Section CrawlSite.
Context {World : Type}.
Variable dateNow : World → Z * World.
Variable scrapePageData : string → World → option PageData * World.

(** [crawlSite(url, browser, timeLimit)].  [browser.newPage()] and
    [page.close()] are taken to succeed. *)
Definition crawlSite (fuel : nat) (seed : string) (timeLimit : Z) (w : World)
    : Outcome World (list PageRecord) :=
  let '(startTime, w1) := dateNow w in
  match crawl dateNow scrapePageData startTime timeLimit fuel seed
          (mkStore ∅ [] w1 []) with
  | Resolved _ s => Resolved (allData s) s
  | Rejected s => Rejected s
  | Pending s => Pending s
  end.

(** [scrapperFunc(url, timeLimit)]: the [catch] logs the error and throws it
    again, the [finally] closes the browser.  [puppeteer.launch] is taken to
    succeed. *)
Definition scrapperFunc (fuel : nat) (seed : string) (timeLimit : Z)
    (w : World) : Outcome World (list PageRecord) :=
  match crawlSite fuel seed timeLimit w with
  | Resolved data s => Resolved data s
  | Rejected s => Rejected s
  | Pending s => Pending s
  end.

End CrawlSite.

(** *** The filter pass *)

(** [t.replace(/\s+/g, ' ')]: every maximal run of whitespace becomes one
    space.  [inRun] tells that the code unit before was whitespace, so that
    the run it belongs to has been replaced already. *)
Fixpoint replaceRuns (inRun : bool) (t : text) : text :=
  match t with
  | [] => []
  | c :: r =>
      if isWhiteSpace c
      then (if inRun then replaceRuns true r else SPACE :: replaceRuns true r)
      else c :: replaceRuns false r
  end.

Fixpoint trimStart (t : text) : text :=
  match t with
  | [] => []
  | c :: r => if isWhiteSpace c then trimStart r else t
  end.

Definition trimEnd (t : text) : text := reverse (trimStart (reverse t)).

(** [t.trim()] *)
Definition trim (t : text) : text := trimEnd (trimStart t).

(** [filterData(data)].  The object it returns has the four keys below and
    no [url]. *)
Definition filterData (data : PageData) : PageData :=
  {| links := uniq (links data);
     images := uniq (images data);
     textContent := trim (replaceRuns false (textContent data));
     htmlContent := htmlContent data |}.

(** The words of a text, the maximal runs of code units that are not
    whitespace; [cur] is the word being read. *)
Fixpoint splitWords (t : text) (cur : text) : list text :=
  match t with
  | [] => match cur with [] => [] | _ => [cur] end
  | c :: r =>
      if isWhiteSpace c
      then match cur with [] => splitWords r [] | _ => cur :: splitWords r [] end
      else splitWords r (cur ++ [c])
  end.

Definition words (t : text) : list text := splitWords t [].

(** Words joined by single spaces. *)
Definition joinWords (ws : list text) : text :=
  match ws with
  | [] => []
  | w :: rest => w ++ concat ((λ w', SPACE :: w') <$> rest)
  end.

(** A word is not empty and holds no whitespace. *)
Definition isWord (w : text) : Prop :=
  w ≠ [] ∧ Forall (λ c, isWhiteSpace c = false) w.

(** *** The command line program *)

(** The file name [main] derives from the URL:
    [url.replace(/^https?:\/\//, '').replace(/\//g, '_') + '.json']. *)
Definition dropChars (n : nat) (s : string) : string :=
  String.substring n (String.length s - n) s.

Definition stripScheme (u : string) : string :=
  if String.prefix "https://" u then dropChars 8 u
  else if String.prefix "http://" u then dropChars 7 u
  else u.

Fixpoint replaceChar (c d : ascii) (s : string) : string :=
  match s with
  | EmptyString => EmptyString
  | String a r => String (if Ascii.eqb a c then d else a) (replaceChar c d r)
  end.

Definition fileNameOf (u : string) : string :=
  replaceChar "/" "_" (stripScheme u) +:+ ".json".

(** What [fs.writeFileSync] is given: the JSON of the crawl result, or of
    one filtered page. *)
Inductive FileContent :=
| ResultJson (data : list PageRecord)
| FilteredJson (data : PageData).

Inductive Ending :=
| Exit1                 (* process.exit(1) after a validation message *)
| Completed             (* the try block ran to its end *)
| CaughtScrapeError     (* scrapperFunc rejected; logged by the catch *)
| CaughtTypeError       (* filterData(undefined): reading textContent of undefined *)
| StillCrawling.        (* the recursion budget of the model is spent *)

Record Run := mkRun {
  written : list (string * FileContent);
  ending : Ending
}.

Section Main.
Context {World : Type}.
Variable dateNow : World → Z * World.
Variable scrapePageData : string → World → option PageData * World.

(** The [try] block of [main()] once [scrapperFunc] has settled. *)
Definition saveResult (seed : string) (o : Outcome World (list PageRecord))
    : Run :=
  match o with
  | Resolved data _ =>
      let fileName := fileNameOf seed in
      let files := [(fileName, ResultJson data)] in
      match head data with
      | Some r =>
          mkRun (files ++ [("filtered_" +:+ fileName,
                            FilteredJson (filterData (page r)))])
                Completed
      | None => mkRun files CaughtTypeError
      end
  | Rejected _ => mkRun [] CaughtScrapeError
  | Pending _ => mkRun [] StillCrawling
  end.

(** [elapsedTime >= Infinity] is false whatever the clock reads: a crawl
    with the limit [Infinity] is a crawl with a limit of one second under a
    clock that stands still. *)
Definition unlimited (w : World) : Z * World := (0%Z, (dateNow w).2).

(** [main()], after [promptForInput] answered [url] and
    [parseInt(timeLimit, 10)]. *)
Definition main (fuel : nat) (seed : string) (timeLimit : num) (w : World)
    : Run :=
  if bool_decide (seed = EmptyString) then mkRun [] Exit1
  else
    match timeLimit with
    | NaN => mkRun [] Exit1
    | Int t =>
        if bool_decide (t ≤ 0)%Z then mkRun [] Exit1
        else saveResult seed (scrapperFunc dateNow scrapePageData fuel seed t w)
    | Inf true => mkRun [] Exit1
    | Inf false =>
        saveResult seed (scrapperFunc unlimited scrapePageData fuel seed 1 w)
    end.

End Main.

(** *** Reading a trace *)

(** The URLs whose fetch was started, and those whose fetch resolved. *)
Definition scraped (tr : list Event) : list string :=
  omap (λ e, match e with Scrape u _ => Some u | _ => None end) tr.

Definition recorded (tr : list Event) : list string :=
  omap (λ e, match e with Scrape u true => Some u | _ => None end) tr.

(** The URLs [crawl] was invoked on. *)
Definition entered (tr : list Event) : list string :=
  omap (λ e, match e with VisitedHas u _ => Some u | _ => None end) tr.

(** [P pre e] holds at every event [e] of the trace, where [pre] is the
    trace before it. *)
Definition atEach (P : list Event → Event → Prop) (tr : list Event) : Prop :=
  ∀ pre e post, tr = pre ++ e :: post → P pre e.

(** Every fetch comes right after the three steps that guard it. *)
Definition guarded (pre : list Event) (e : Event) : Prop :=
  ∀ u ok, e = Scrape u ok →
    ∃ pre', pre = pre' ++ [VisitedHas u false; DeadlineCheck false; VisitedAdd u].

(** [visited.has(u)] answers whether [u] was added before. *)
Definition answered (pre : list Event) (e : Event) : Prop :=
  ∀ u seen, e = VisitedHas u seen → (seen = true ↔ VisitedAdd u ∈ pre).

(** What the store and the trace of a crawl say of each other. *)
Definition consistent {World} (s : Store World) : Prop :=
  NoDup (scraped (trace s))
  ∧ (∀ u, u ∈ scraped (trace s) → u ∈ visited s)
  ∧ (∀ u, u ∈ visited s ↔ VisitedAdd u ∈ trace s)
  ∧ url <$> allData s = recorded (trace s)
  ∧ atEach guarded (trace s)
  ∧ atEach answered (trace s).

(** Once a comparison found the limit reached, no page is marked or fetched
    and no later comparison finds otherwise. *)
Definition afterExpiry (pre : list Event) (e : Event) : Prop :=
  DeadlineCheck true ∈ pre →
  match e with
  | VisitedHas _ _ | DeadlineCheck true => True
  | _ => False
  end.

(** A crawl only adds to the visited set, to [allData] and to the trace. *)
Definition extends {World} (s s' : Store World) : Prop :=
  visited s ⊆ visited s'
  ∧ allData s `prefix_of` allData s'
  ∧ trace s `prefix_of` trace s'.

(** C1 as the specification states it: a link found on a page reached by
    the crawl is followed exactly when the seed is a prefix of it. *)
Definition followsSeedPrefix {World} (dateNow : World → Z * World)
    (scrapePageData : string → World → option PageData * World)
    (fuel : nat) (seed : string) (timeLimit : Z) (w : World) : Prop :=
  let s := stateOf (crawlSite dateNow scrapePageData fuel seed timeLimit w) in
  ∀ r link, r ∈ allData s → link ∈ links (page r) →
    (link ∈ entered (trace s) ↔ startsWith link seed = true).

(** The call came to an end within the recursion budget. *)
Definition finished {World A} (o : Outcome World A) : Prop :=
  match o with
  | Pending _ => False
  | _ => True
  end.

(** No fetch of the trace was rejected. *)
Definition noFailure (tr : list Event) : Prop :=
  ∀ u, Scrape u false ∉ tr.

(** How a call ended, given that no fetch had failed before it: a call that
    did not reject saw no fetch fail, and one that rejected did so at the
    fetch that failed, the last event of its trace. *)
Definition failsLast {World A} (o : Outcome World A) : Prop :=
  match o with
  | Rejected s => ∃ pre u, trace s = pre ++ [Scrape u false] ∧ noFailure pre
  | _ => noFailure (trace (stateOf o))
  end.

(** The step that follows a comparison that found the limit reached is
    another comparison. *)
Definition expiryThenCheck (tr : list Event) : Prop :=
  ∀ pre e post, tr = pre ++ DeadlineCheck true :: e :: post →
    ∃ expired, e = DeadlineCheck expired.

(** A URL the crawl has come to know: the seed, or a link of a page already
    recorded whose own URL is a literal prefix of it. *)
Definition discovered {World} (seed : string) (s : Store World) (v : string)
    : Prop :=
  v = seed
  ∨ ∃ r, r ∈ allData s ∧ v ∈ links (page r) ∧ startsWith v (url r) = true.

(** Time pays for the fetches.  [clockFloor w] is a time that every reading
    of the clock from [w] on has reached, and [cost] the least time a fetch
    takes: the time spent covers the fetches made so far; the last fetch
    began within the limit; and so does the next one, when the last step was
    a comparison that found the limit not reached. *)
Definition withinBudget {World} (clockFloor : World → Z)
    (cost startTime timeLimit : Z) (s : Store World) : Prop :=
  let fetches := Z.of_nat (length (scraped (trace s))) in
  (startTime + cost * fetches ≤ clockFloor (world s))%Z
  ∧ (scraped (trace s) = [] ∨ (cost * (fetches - 1) < 1000 * timeLimit)%Z)
  ∧ (last (trace s) = Some (DeadlineCheck false) →
     (cost * fetches < 1000 * timeLimit)%Z).

(** *** Depth-first pre-order, with a work stack *)

(** The order in which a depth-first walk first visits the nodes of a graph,
    given by the successors of each node in discovery order: the walk pops
    the top of the stack, skips it when it was visited before, and otherwise
    outputs it and pushes its successors. *)
Inductive preorder (children : string → list string)
    : list string → gset string → list string → Prop :=
| preorder_done seen :
    preorder children [] seen []
| preorder_skip u stack seen out :
    u ∈ seen →
    preorder children stack seen out →
    preorder children (u :: stack) seen out
| preorder_visit u stack seen out :
    u ∉ seen →
    preorder children (children u ++ stack) ({[u]} ∪ seen) out →
    preorder children (u :: stack) seen (u :: out).

(** The links of a page that [crawl] follows, for a web whose pages never
    change: those that start with the URL of the page itself. *)
Definition followed (web : string → option PageData) (u : string)
    : list string :=
  match web u with
  | Some d => filter (λ link, startsWith link u) (links d)
  | None => []
  end.

(** C4 as the specification states it: the graph the crawl walks has, as
    the successors of a page, the links of the page that have the seed as a
    literal prefix. *)
Definition inScope (seed : string) (web : string → option PageData)
    (u : string) : list string :=
  match web u with
  | Some d => filter (λ link, startsWith link seed) (links d)
  | None => []
  end.

(** *** A web that never changes *)

(** The world is the clock; loading a page takes [cost] milliseconds. *)
Definition clockNow (t : Z) : Z * Z := (t, t).

Definition staticScrape (web : string → option PageData) (cost : Z)
    (u : string) (t : Z) : option PageData * Z :=
  (web u, (t + cost)%Z).

(** A clock that advances by [step] milliseconds each time it is read. *)
Definition steppingNow (step : Z) (t : Z) : Z * Z := (t, (t + step)%Z).

(** A page with the given links and nothing else. *)
Definition linksOnly (ls : list string) : PageData :=
  mkPageData ls [] [] [].

Fixpoint webOf (pages : list (string * list string)) (u : string)
    : option PageData :=
  match pages with
  | [] => None
  | (v, ls) :: rest => if bool_decide (u = v) then Some (linksOnly ls)
                       else webOf rest u
  end.

(** *** Four small sites *)

(** A links to B and C, and B to D. *)
Definition treeWeb : string → option PageData :=
  webOf [("https://x.com/a", ["https://x.com/a/b"; "https://x.com/a/c"]);
         ("https://x.com/a/b", ["https://x.com/a/b/d"]);
         ("https://x.com/a/c", []);
         ("https://x.com/a/b/d", [])].

(** The seed links inside and outside its prefix; the page below it links
    to a page that is under the seed and not under itself. *)
Definition scopeWeb : string → option PageData :=
  webOf [("https://x.com/a",
          ["https://x.com/a/b"; "https://x.com/other"; "https://y.com/a"]);
         ("https://x.com/a/b", ["https://x.com/a/c"]);
         ("https://x.com/a/c", []);
         ("https://x.com/other", []);
         ("https://y.com/a", [])].

(** A links to B and C, and B to D; B, C and D are all below A, and D is
    not below B. *)
Definition siblingWeb : string → option PageData :=
  webOf [("https://x.com/a", ["https://x.com/a/b"; "https://x.com/a/c"]);
         ("https://x.com/a/b", ["https://x.com/a/d"]);
         ("https://x.com/a/c", []);
         ("https://x.com/a/d", [])].

(** The first link of the seed cannot be loaded. *)
Definition brokenWeb : string → option PageData :=
  webOf [("https://x.com/a", ["https://x.com/a/b"; "https://x.com/a/c"]);
         ("https://x.com/a/c", [])].

(** Code units of an ASCII string. *)
Fixpoint utf16 (s : string) : text :=
  match s with
  | EmptyString => []
  | String c r => N_of_ascii c :: utf16 r
  end.

End Crawler.

(** ** The typed scraper and its HTTP route *)

Module Typed.
Import Js.

Definition DEFAULT_LIMIT : Z := 100.

(** [Object.values(WEBSITE_TYPES)] *)
Definition WEBSITE_TYPES : list string := ["news"; "ecommerce"; "weather"].

(** *** Strings *)

(** [s.includes(sub)] *)
Fixpoint includes (s sub : string) : bool :=
  String.prefix sub s ||
  match s with
  | EmptyString => false
  | String _ r => includes r sub
  end.

Definition isDigit (c : ascii) : bool :=
  let n := N_of_ascii c in ((48 <=? n) && (n <=? 57))%N.

Definition isUpperOrDigit (c : ascii) : bool :=
  let n := N_of_ascii c in isDigit c || ((65 <=? n) && (n <=? 90))%N.

(** A regular expression that is a sequence of character classes, matched
    at the start of [s] and then anywhere in it ([s.match(re)] is truthy). *)
Fixpoint matchHere (re : list (ascii → bool)) (s : string) : bool :=
  match re, s with
  | [], _ => true
  | _ :: _, EmptyString => false
  | p :: re', String c r => p c && matchHere re' r
  end.

Fixpoint matches (re : list (ascii → bool)) (s : string) : bool :=
  matchHere re s ||
  match s with
  | EmptyString => false
  | String _ r => matches re r
  end.

(** [/\d{4}\/\d{2}\/\d{2}/] *)
Definition datePath : list (ascii → bool) :=
  [isDigit; isDigit; isDigit; isDigit; Ascii.eqb "/"; isDigit; isDigit;
   Ascii.eqb "/"; isDigit; isDigit].

(** [/\/dp\/[A-Z0-9]+/]: one character of the class is enough for a match. *)
Definition dpPath : list (ascii → bool) :=
  [Ascii.eqb "/"; Ascii.eqb "d"; Ascii.eqb "p"; Ascii.eqb "/"; isUpperOrDigit].

(** The filter of [getRelevantLinks] for each website type. *)
Definition relevant (type href : string) : bool :=
  if bool_decide (type = "news") then
    includes href "/article/" || includes href "/story/"
    || includes href "/news/" || matches datePath href
  else if bool_decide (type = "ecommerce") then
    includes href "/product/" || includes href "/item/"
    || includes href "/p/" || includes href "product-detail"
    || matches dpPath href
  else if bool_decide (type = "weather") then
    includes href "/weather/" || includes href "/forecast/"
    || includes href "current-weather"
  else false.

(** [getRelevantLinks(page, websiteType)], given the [href] of every anchor
    of the page.  For another type [links] stays undefined and the Set is
    empty. *)
Definition getRelevantLinks (type : string) (hrefs : list string)
    : list string :=
  if bool_decide (type ∈ WEBSITE_TYPES)
  then uniq (filter (λ h, relevant type h) hrefs)
  else [].

(** [sub] occurs in [s]. *)
Definition contains (s sub : string) : Prop :=
  ∃ before after, s = before +:+ sub +:+ after.

(** Some run of consecutive characters of [s] has one character in each
    class of [re], in order. *)
Definition containsMatch (re : list (ascii → bool)) (s : string) : Prop :=
  ∃ before found after,
    s = before +:+ found +:+ after
    ∧ Forall2 (λ class c, class c = true) re (String.list_ascii_of_string found).

Definition toLowerChar (c : ascii) : ascii :=
  let n := N_of_ascii c in
  if ((65 <=? n) && (n <=? 90))%N then ascii_of_N (n + 32) else c.

(** [s.toLowerCase()], on ASCII. *)
Fixpoint toLowerCase (s : string) : string :=
  match s with
  | EmptyString => EmptyString
  | String c r => String (toLowerChar c) (toLowerCase r)
  end.

(** *** Numbers and arrays *)

(** [a + b], for the indices of [slice].  The sum of two integers is taken
    exactly, where the program rounds a sum of [2^53] or more to a double:
    [slice] clamps an index to the length of the array, which is below
    [2^32], and a sum and its double are on the same side of every such
    length. *)
Definition add (a b : num) : num :=
  match a, b with
  | Int x, Int y => Int (x + y)
  | Inf s, Int _ | Int _, Inf s => Inf s
  | Inf s, Inf s' => if Bool.eqb s s' then Inf s else NaN
  | _, _ => NaN
  end.

(** [a * k] for an integer [k] *)
Definition times (a : num) (k : Z) : num :=
  match a with
  | Int x => toDouble (x * k)
  | Inf s => if (k =? 0)%Z then NaN else Inf (xorb s (k <? 0)%Z)
  | NaN => NaN
  end.

Definition isNaN (a : num) : bool :=
  match a with
  | NaN => true
  | _ => false
  end.

(** [a <= b] on numbers: false when either is [NaN]. *)
Definition leq (a b : num) : bool :=
  match a, b with
  | NaN, _ | _, NaN => false
  | Int x, Int y => bool_decide (x ≤ y)%Z
  | Inf true, _ | _, Inf false => true
  | _, _ => false
  end.

(** A relative index of [Array.prototype.slice]: [NaN] counts as 0; the
    index is counted from the end when negative, and clamped to the
    array. *)
Definition relativeIndex (len : Z) (i : num) : Z :=
  match i with
  | NaN => 0
  | Int z => if (z <? 0)%Z then Z.max (len + z) 0 else Z.min z len
  | Inf true => 0
  | Inf false => len
  end.

(** [xs.slice(start, stop)] *)
Definition slice {A} (xs : list A) (start stop : num) : list A :=
  let len := Z.of_nat (length xs) in
  let k := relativeIndex len start in
  let final := relativeIndex len stop in
  take (Z.to_nat (final - k)) (drop (Z.to_nat k) xs).

(** *** [parseInt] of a string *)

(** A [string] holds code units below 256.  Of these, the white space and
    the line terminators that [parseInt] skips are the tab, the line feed,
    the vertical tab, the form feed, the carriage return, the space and the
    no-break space. *)
Definition isStrWhiteSpace (c : ascii) : bool :=
  let n := N_of_ascii c in
  ((9 <=? n) && (n <=? 13) || (n =? 32) || (n =? 160))%N.

Fixpoint skipSpaces (s : string) : string :=
  match s with
  | String c r => if isStrWhiteSpace c then skipSpaces r else s
  | EmptyString => s
  end.

Definition digitOf (radix : N) (c : ascii) : option N :=
  let n := N_of_ascii c in
  let d := if ((48 <=? n) && (n <=? 57))%N then Some (n - 48)%N
           else if ((97 <=? n) && (n <=? 122))%N then Some (n - 87)%N
           else if ((65 <=? n) && (n <=? 90))%N then Some (n - 55)%N
           else None in
  match d with
  | Some k => if (k <? radix)%N then Some k else None
  | None => None
  end.

(** The integer written by the longest prefix of digits, [None] when there
    is none. *)
Fixpoint digitsOf (radix : N) (s : string) (acc : option N) : option N :=
  match s with
  | EmptyString => acc
  | String c r =>
      match digitOf radix c with
      | Some k => digitsOf radix r (Some (default 0%N acc * radix + k)%N)
      | None => acc
      end
  end.

(** [parseInt(s)].  The result is the Number value of the integer the
    digits write: the nearest double, an infinity when the digits are too
    many. *)
Definition parseIntString (s : string) : num :=
  let s1 := skipSpaces s in
  let '(negative, s2) :=
    match s1 with
    | String "-" r => (true, r)
    | String "+" r => (false, r)
    | _ => (false, s1)
    end in
  let '(radix, s3) :=
    if String.prefix "0x" s2 || String.prefix "0X" s2
    then (16%N, String.substring 2 (String.length s2 - 2) s2)
    else (10%N, s2) in
  match digitsOf radix s3 None with
  | Some n => toDouble (if negative : bool then - Z.of_N n else Z.of_N n)
  | None => NaN
  end.

(** [parseInt(s, 10)]: with the radix given, a leading [0x] is not a prefix
    but the digit [0] and a letter. *)
Definition parseIntRadix10 (s : string) : num :=
  let s1 := skipSpaces s in
  let '(negative, s2) :=
    match s1 with
    | String "-" r => (true, r)
    | String "+" r => (false, r)
    | _ => (false, s1)
    end in
  match digitsOf 10 s2 None with
  | Some n => toDouble (if negative : bool then - Z.of_N n else Z.of_N n)
  | None => NaN
  end.

(** The string does not begin with a decimal digit. *)
Definition noLeadingDigit (s : string) : Prop :=
  match s with
  | EmptyString => True
  | String c _ => digitOf 10 c = None
  end.

(** *** [scrapePage] *)

Record Pagination := mkPagination {
  limit : num;
  offset : num;
  count : nat;
  total : nat
}.

Record Output (Item : Type) := mkOutput {
  websiteType : string;
  pagination : Pagination;
  data : list Item
}.
Global Arguments mkOutput {Item}.
Global Arguments websiteType {Item}.
Global Arguments pagination {Item}.
Global Arguments data {Item}.

(** One call of [scrapePage]: what it returns ([None] when the [try] block
    threw), the URLs given to [page.goto] in order, and for each link of the
    page its item when it was scraped. *)
Record Session (World Item : Type) := mkSession {
  result : option (Output Item);
  navigations : list string;
  attempts : list (string * option Item);
  final : World
}.
Global Arguments mkSession {World Item}.
Global Arguments result {World Item}.
Global Arguments navigations {World Item}.
Global Arguments attempts {World Item}.
Global Arguments final {World Item}.

Section ScrapePage.
Context {World Item : Type}.

(** [await page.goto(url, { timeout })]: [true] when it resolved. *)
Variable goto : string → num → World → bool * World.

(** The [href] of the anchors of the loaded page; [None] when
    [page.evaluate] rejects. *)
Variable anchorHrefs : World → option (list string).

(** The three extractors; [None] when they reject. *)
Variable extractArticleData : World → option Item * World.
Variable extractProductData : World → option Item * World.
Variable extractWeatherData : World → option Item * World.

Definition extractFor (type : string) : World → option Item * World :=
  if bool_decide (type = "news") then extractArticleData
  else if bool_decide (type = "ecommerce") then extractProductData
  else extractWeatherData.

(** The [for (const link of paginatedLinks)] loop, with its [try]/[catch]
    around each link. *)
Fixpoint scrapeLinks (type : string) (ls : list string) (w : World)
    : list Item * list (string * option Item) * World :=
  match ls with
  | [] => ([], [], w)
  | link :: rest =>
      let '(loaded, w1) := goto link (Int 30000) w in
      if loaded : bool then
        let '(r, w2) := extractFor type w1 in
        let '(items, tried, w3) := scrapeLinks type rest w2 in
        match r with
        | Some item => (item :: items, (link, Some item) :: tried, w3)
        | None => (items, (link, None) :: tried, w3)
        end
      else
        let '(items, tried, w3) := scrapeLinks type rest w1 in
        (items, (link, None) :: tried, w3)
  end.

(** The [try] block of [scrapePage] in the command line program, up to the
    [output] it builds.  [puppeteer.launch] and [browser.newPage], before
    the block, are taken to succeed. *)
Definition scrapePageTry (url type : string) (timeLimit lim off : num)
    (w : World) : Session World Item :=
  let '(loaded, w1) := goto url (times timeLimit 1000) w in
  if loaded : bool then
    match anchorHrefs w1 with
    | Some hrefs =>
        let uniqueLinks := getRelevantLinks type hrefs in
        let paginatedLinks := slice uniqueLinks off (add off lim) in
        let '(items, tried, w2) := scrapeLinks type paginatedLinks w1 in
        mkSession
          (Some (mkOutput type
                   (mkPagination lim off (length items) (length uniqueLinks))
                   items))
          (url :: tried.*1) tried w2
    | None => mkSession None [url] [] w1
    end
  else mkSession None [url] [] w1.

End ScrapePage.

(** The command line program: [scrapePage] writes its output to a file
    inside the [try] block, and answers [undefined] after an error. *)
Module Cli.

(** [scrapePage].  [writeFileSync type offset limit output] saves the
    output in the file the three name,
    [scraped_${websiteType}_${offset}_${limit}.json]; it answers [false]
    when it throws, and the [catch] of [scrapePage] then swallows the error
    as it does any other. *)
Definition scrapePage {World Item} goto anchorHrefs article product weather
    (writeFileSync : string → num → num → Output Item → World → bool * World)
    (url type : string) (timeLimit lim off : num) (w : World)
    : Session World Item :=
  let ses := scrapePageTry goto anchorHrefs article product weather
               url type timeLimit lim off w in
  match result ses with
  | Some output =>
      let '(saved, w1) := writeFileSync type off lim output (final ses) in
      mkSession (if saved : bool then Some output else None)
        (navigations ses) (attempts ses) w1
  | None => ses
  end.

(** [parseInt(s) || d]: [NaN] and [0] are falsy. *)
Definition parseIntOr (s : string) (d : Z) : num :=
  match parseIntString s with
  | NaN => Int d
  | Int z => if (z =? 0)%Z then Int d else Int z
  | Inf neg => Inf neg
  end.

(** [main()], given the five answers to [getUserInput]; [None] when the
    input is refused and nothing is scraped. *)
Definition main {World Item} goto anchorHrefs article product weather
    writeFileSync (type url timeLimit lim off : string) (w : World)
    : option (Session World Item) :=
  if bool_decide (toLowerCase type ∈ WEBSITE_TYPES) then
    let t := parseIntString timeLimit in
    if bool_decide (url = EmptyString) || isNaN t || leq t (Int 0) then None
    else Some (scrapePage goto anchorHrefs article product weather
                 writeFileSync url (toLowerCase type) t
                 (parseIntOr lim DEFAULT_LIMIT) (parseIntOr off 0) w)
  else None.

End Cli.

(** The HTTP server. *)
Module Api.

(** [scrapePage] of [routing_api.js].  The file neither defines nor imports
    [getRelevantLinks]: once [page.goto] has resolved, the next line throws
    a ReferenceError, which the [catch] throws again, as it does the error
    of a [page.goto] that rejected.  The function never returns an output,
    and [limit] and [offset] are never looked at.  [puppeteer.launch] and
    [browser.newPage], before the [try] block, are taken to succeed. *)
Definition scrapePage {World Item}
    (goto : string → num → World → bool * World)
    (url type : string) (timeLimit lim off : num) (w : World)
    : Session World Item :=
  let '(_, w1) := goto url (times timeLimit 1000) w in
  mkSession None [url] [] w1.

(** A value of the JSON body of a request; a missing key reads as
    [Undefined].  A number is held as the text [String] gives for it, which
    is what [parseInt] reads: [-5] as ["-5"], [1.5] as ["1.5"], [1e21] as
    ["1e+21"].  Objects and arrays are left out. *)
Inductive value :=
| Undefined
| Null
| Bool (b : bool)
| Number (shown : string)
| Str (s : string).

(** [!v] is [negb (truthy v)].  The numbers that are falsy are [0] and
    [-0], both shown as ["0"], and [NaN]. *)
Definition truthy (v : value) : bool :=
  match v with
  | Undefined | Null => false
  | Bool b => b
  | Number shown =>
      negb (bool_decide (shown = "0") || bool_decide (shown = "NaN"))
  | Str s => negb (bool_decide (s = EmptyString))
  end.

(** [parseInt(v)]: [v] is turned into a string first, and no digit begins
    ["true"], ["false"], ["null"] or ["undefined"]. *)
Definition parseInt (v : value) : num :=
  match v with
  | Number shown => parseIntString shown
  | Str s => parseIntString s
  | Undefined | Null | Bool _ => NaN
  end.

Record Body := mkBody {
  req_url : value;
  req_websiteType : value;
  req_timeLimit : value;
  req_limit : value;
  req_offset : value
}.

(** A default of the destructuring pattern applies to [undefined] only. *)
Definition orDefault (v : value) (d : Z) : value :=
  match v with
  | Undefined => Number (decimal d)
  | _ => v
  end.

Inductive Reply (Item : Type) :=
| Json (status : Z) (body : option (Output Item))   (* res.status(..).json(..); an error body is [None] *)
| NoReply.                                          (* the handler threw outside its try block *)
Global Arguments Json {Item}.
Global Arguments NoReply {Item}.

(** What a request did: the reply, and the call of [scrapePage] when there
    was one. *)
Record Handled (World Item : Type) := mkHandled {
  reply : Reply Item;
  session : option (Session World Item)
}.
Global Arguments mkHandled {World Item}.
Global Arguments reply {World Item}.
Global Arguments session {World Item}.

Section Route.
Context {World Item : Type}.
Variable goto : string → num → World → bool * World.

(** [app.post('/scrape', ...)].  A [url] that is not a string makes
    [page.goto] reject without navigating. *)
Definition postScrape (body : Body) (w : World) : Handled World Item :=
  let lim := orDefault (req_limit body) DEFAULT_LIMIT in
  let off := orDefault (req_offset body) 0 in
  if negb (truthy (req_url body)) || negb (truthy (req_websiteType body))
     || negb (truthy (req_timeLimit body))
  then mkHandled (Json 400 None) None
  else
    match req_websiteType body with
    | Str type =>
        if bool_decide (toLowerCase type ∈ WEBSITE_TYPES) then
          match req_url body with
          | Str url =>
              let ses :=
                scrapePage goto
                  url (toLowerCase type) (parseInt (req_timeLimit body))
                  (parseInt lim) (parseInt off) w in
              match result ses with
              | Some out => mkHandled (Json 200 (Some out)) (Some ses)
              | None => mkHandled (Json 500 None) (Some ses)
              end
          | _ => mkHandled (Json 500 None) (Some (mkSession None [] [] w))
          end
        else mkHandled (Json 400 None) None
    | _ => mkHandled NoReply None
    end.

End Route.

End Api.

(** *** C10 as stated, and a site to try it on *)

Section Scraped.
Context {World Item : Type}.
Variable goto : string → num → World → bool * World.
Variable extract : World → option Item * World.

(** C10's successfully scraped pages of a list of links, in the order of
    the links: [scrapedPages links w items w'] holds when, the browser being
    in [w], going to each link in turn with the time-out of 30 seconds and
    extracting from each page that loaded gives the items [items], one for
    each link whose page loaded and whose extraction resolved, and leaves
    the browser in [w']. *)
Inductive scrapedPages : list string → World → list Item → World → Prop :=
| scraped_none w :
    scrapedPages [] w [] w
| scraped_page link rest w w1 item w2 items w3 :
    goto link (Int 30000) w = (true, w1) →
    extract w1 = (Some item, w2) →
    scrapedPages rest w2 items w3 →
    scrapedPages (link :: rest) w (item :: items) w3
| scraped_no_item link rest w w1 w2 items w3 :
    goto link (Int 30000) w = (true, w1) →
    extract w1 = (None, w2) →
    scrapedPages rest w2 items w3 →
    scrapedPages (link :: rest) w items w3
| scraped_not_loaded link rest w w1 items w3 :
    goto link (Int 30000) w = (false, w1) →
    scrapedPages rest w1 items w3 →
    scrapedPages (link :: rest) w items w3.

End Scraped.

(** The bounds C10 states on the pagination of an output. *)
Definition paginationBounds {Item} (out : Output Item) : Prop :=
  count (pagination out) = length (data out)
  ∧ leq (Int (Z.of_nat (count (pagination out)))) (limit (pagination out)) = true
  ∧ (count (pagination out) ≤ total (pagination out))%nat.

(** A site whose pages never change and load at once, whatever the
    time-out.  The world is the URL of the loaded page; the URLs of [down]
    cannot be loaded; the item of a page is its URL. *)
Definition siteGoto (down : list string) (url : string) (timeout : num)
    (w : string) : bool * string :=
  if bool_decide (url ∈ down) then (false, w) else (true, url).

(** A disk that takes every file. *)
Definition siteWrite (type : string) (off lim : num) (out : Output string)
    (w : string) : bool * string := (true, w).

Fixpoint siteAnchors (pages : list (string * list string)) (w : string)
    : option (list string) :=
  match pages with
  | [] => Some []
  | (u, hrefs) :: rest => if bool_decide (w = u) then Some hrefs
                          else siteAnchors rest w
  end.

Definition siteItem (w : string) : option string * string := (Some w, w).

(** A front page with four anchors, three of them to articles, one of the
    articles twice. *)
Definition newsPages : list (string * list string) :=
  [("https://n.com",
    ["https://n.com/news/1"; "https://n.com/about"; "https://n.com/news/2";
     "https://n.com/news/1"; "https://n.com/2024/05/17/x"])].

End Typed.

(** ** The prompt of the site crawler *)

Module Prompt.
Import Js.

Section Program.
Context {World : Type}.
Variable dateNow : World → Z * World.
Variable scrapePageData : string → World → option Crawler.PageData * World.

(** [promptForInput()], given the two answers. *)
Definition promptForInput (url timeLimit : string) : string * num :=
  (url, Typed.parseIntRadix10 timeLimit).

(** The program: [main()] on what [promptForInput] resolves to. *)
Definition program (fuel : nat) (urlAnswer timeAnswer : string) (w : World)
    : Crawler.Run :=
  let '(url, timeLimit) := promptForInput urlAnswer timeAnswer in
  Crawler.main dateNow scrapePageData fuel url timeLimit w.

End Program.

End Prompt.

(** ** The extractors of the typed scraper *)

Module Extractors.
Import Js.

(** An element of the loaded page, as the extractors read it:
    [getAttribute(name)] is [None] for [null]. *)
Record Element := mkElement {
  getAttribute : string → option text;
  textContent : text;
  src : text
}.

(** The document: [querySelectorAll(selector)] in document order, and the
    properties the extractors read. *)
Record Document := mkDocument {
  querySelectorAll : string → list Element;
  title : text;
  lang : text;        (* document.documentElement.lang *)
  href : text;        (* window.location.href *)
  hostname : text     (* window.location.hostname *)
}.

Definition querySelector (doc : Document) (selector : string)
    : option Element :=
  head (querySelectorAll doc selector).

(** [a || b] on values that are a string, [null] or [undefined]: [a] when
    it is a string that is not empty, else [b]. *)
Definition orElse (a b : option text) : option text :=
  match a with
  | Some (_ :: _) => a
  | _ => b
  end.

(** [a || b] where [b] is a string. *)
Definition orText (a : option text) (b : text) : text :=
  match a with
  | Some (c :: r) => c :: r
  | _ => b
  end.

(** The [for (const selector of selectors)] loops: the first selector that
    matches an element decides. *)
Fixpoint firstElement (doc : Document) (selectors : list string)
    : option Element :=
  match selectors with
  | [] => None
  | selector :: rest =>
      match querySelector doc selector with
      | Some element => Some element
      | None => firstElement doc rest
      end
  end.

Definition dquote : string := String "034" EmptyString.

(** [getMeta(name)] *)
Definition metaSelector (name : string) : string :=
  "meta[name=" +:+ dquote +:+ name +:+ dquote +:+ "], meta[property=" +:+ dquote
  +:+ name +:+ dquote +:+ "], meta[property=" +:+ dquote +:+ "og:" +:+ name
  +:+ dquote +:+ "]".

Definition getMeta (doc : Document) (name : string) : option text :=
  match querySelector doc (metaSelector name) with
  | Some element => getAttribute element "content"
  | None => None
  end.

(** *** [extractDate] *)

Definition dateSelectors : list string :=
  ["meta[property=" +:+ dquote +:+ "article:published_time" +:+ dquote +:+ "]";
   "meta[name=" +:+ dquote +:+ "publication-date" +:+ dquote +:+ "]";
   "time"; ".date"; "[datetime]"].

(** [now] is [new Date().toISOString()]. *)
Definition extractDate (doc : Document) (now : text) : text :=
  match firstElement doc dateSelectors with
  | Some element =>
      orText (orElse (getAttribute element "content")
                 (getAttribute element "datetime"))
             (textContent element)
  | None => now
  end.

(** *** [extractWeatherData] *)

Record Weather := mkWeather {
  temperature : option text;
  condition : option text;
  location : option text;
  humidity : option text;
  wind : option text;
  weatherSource : text;
  weatherUrl : text
}.

Definition extractText (doc : Document) (selector : string) : option text :=
  match querySelector doc selector with
  | Some element => Some (Crawler.trim (textContent element))
  | None => None
  end.

Definition extractWeatherData (doc : Document) : Weather :=
  {| temperature := extractText doc ".temperature, .temp, [data-temp]";
     condition :=
       extractText doc ".condition, .weather-condition, [data-condition]";
     location := extractText doc ".location, .city-name, [data-location]";
     humidity := extractText doc ".humidity, .humidity-level, [data-humidity]";
     wind := extractText doc ".wind, .wind-speed, [data-wind]";
     weatherSource := hostname doc;
     weatherUrl := href doc |}.

(** *** [extractProductData] *)

Definition priceSelectors : list string :=
  ["[data-price]"; ".price"; ".product-price";
   "[itemprop=" +:+ dquote +:+ "price" +:+ dquote +:+ "]"; ".sale-price"].

(** [price.replace(/[^0-9.]/g, '')] *)
Definition isPriceUnit (c : N) : bool :=
  ((48 <=? c) && (c <=? 57) || (c =? 46))%N.

Definition cleanPrice (price : text) : text :=
  filter (λ c, isPriceUnit c) price.

Definition getPrice (doc : Document) : option text :=
  match firstElement doc priceSelectors with
  | Some element =>
      let price :=
        orText (orElse (getAttribute element "data-price")
                   (getAttribute element "content"))
               (textContent element) in
      Some (cleanPrice price)
  | None => None
  end.

(** The [src] of the gallery images that have one; when there is none, the
    one-element array of [getMeta('og:image')], which may be [null]. *)
Definition getProductImages (doc : Document) : list (option text) :=
  let images :=
    omap (λ img,
            match orElse (getAttribute img "data-src") (getAttribute img "src") with
            | Some (c :: r) => Some (c :: r)
            | _ => None
            end)
         (querySelectorAll doc ".product-image img, .gallery img, [data-image]") in
  match images with
  | [] => [getMeta doc "og:image"]
  | _ => Some <$> images
  end.

Record Variant := mkVariant {
  variantName : text;
  variantValue : option text;
  variantPrice : option text
}.

Definition getVariants (doc : Document) : list Variant :=
  (λ element,
     {| variantName :=
          orText (getAttribute element "data-variant-name") (textContent element);
        variantValue := getAttribute element "data-variant-value";
        variantPrice := getAttribute element "data-variant-price" |})
  <$> querySelectorAll doc "[data-variant], .variant-option, .product-variant".

Definition itemprop (name : string) : string :=
  "[itemprop=" +:+ dquote +:+ name +:+ dquote +:+ "]".

Record Product := mkProduct {
  productTitle : text;
  productDescription : option text;
  productUrl : text;
  store : text;
  price : option text;
  currency : text;
  productImages : list (option text);
  brand : option text;
  sku : option text;
  availability : text;
  variants : list Variant;
  productCategory : option text;
  rating : option text;
  reviewCount : option text
}.

Definition extractProductData (doc : Document) : Product :=
  {| productTitle := orText (getMeta doc "title") (title doc);
     productDescription :=
       orElse (getMeta doc "description")
          (textContent <$> querySelector doc ".product-description");
     productUrl := href doc;
     store := hostname doc;
     price := getPrice doc;
     currency :=
       orText (querySelector doc (itemprop "priceCurrency")
                 ≫= λ element, getAttribute element "content")
              (Crawler.utf16 "USD");
     productImages := getProductImages doc;
     brand := orElse (getMeta doc "brand")
                 (textContent <$> querySelector doc (itemprop "brand"));
     sku := textContent <$> querySelector doc (itemprop "sku");
     availability :=
       orText (querySelector doc (itemprop "availability")
                 ≫= λ element, getAttribute element "content")
              (Crawler.utf16 "in stock");
     variants := getVariants doc;
     productCategory :=
       orElse (textContent <$> querySelector doc (itemprop "category"))
          (textContent <$> querySelector doc ".breadcrumb");
     rating := textContent <$> querySelector doc (itemprop "ratingValue");
     reviewCount := textContent <$> querySelector doc (itemprop "reviewCount") |}.

(** *** [extractArticleData] *)

Definition getMainImage (doc : Document) : option text :=
  match getMeta doc "og:image" with
  | Some (c :: r) => Some (c :: r)
  | _ => src <$> querySelector doc "article img, .main-content img"
  end.

Definition authorSelectors : list string :=
  ["meta[name=" +:+ dquote +:+ "author" +:+ dquote +:+ "]"; ".author"; ".byline";
   "[rel=" +:+ dquote +:+ "author" +:+ dquote +:+ "]"].

Definition getAuthor (doc : Document) : text :=
  match firstElement doc authorSelectors with
  | Some element =>
      orText (getAttribute element "content")
             (Crawler.trim (textContent element))
  | None => Crawler.utf16 "Unknown Author"
  end.

Record Article := mkArticle {
  articleTitle : text;
  articleDescription : option text;
  articleUrl : text;
  articleSource : text;
  image : option text;
  author : text;
  articleCategory : text;
  language : text;
  country : text;
  published_at : text
}.

(** [extractArticleData(page)]: the object built in the page, then
    [published_at] from [extractDate]. *)
Definition extractArticleData (doc : Document) (now : text) : Article :=
  {| articleTitle := orText (getMeta doc "title") (title doc);
     articleDescription :=
       orElse (getMeta doc "description")
          ((λ p, take 200 (textContent p)) <$> querySelector doc "p");
     articleUrl := href doc;
     articleSource := hostname doc;
     image := getMainImage doc;
     author := getAuthor doc;
     articleCategory := orText (getMeta doc "category") (Crawler.utf16 "general");
     language := orText (Some (lang doc)) (Crawler.utf16 "en");
     country := Crawler.utf16 "us";
     published_at := extractDate doc now |}.

End Extractors.

(** * Properties *)

(** A closed decidable statement, settled by evaluation. *)
Ltac by_evaluation := apply (bool_decide_unpack _); vm_compute; exact I.

(** ** Sets *)

Module JsFacts.
Import Js.

(** An integer below [2^53] in magnitude is a double. *)
Lemma toDouble_exact (z : Z) : (Z.abs z < 2 ^ 53)%Z → toDouble z = Int z.
Proof.
  intros Hz. unfold toDouble. by rewrite (proj2 (Z.ltb_lt _ _)) by done.
Qed.

(** Rounding keeps the sign. *)
Lemma toDouble_nonpos (z : Z) :
  (z ≤ 0)%Z →
  toDouble z = Inf true ∨ ∃ z', toDouble z = Int z' ∧ (z' ≤ 0)%Z.
Proof.
  intros Hz. unfold toDouble.
  destruct (Z.ltb_spec (Z.abs z) (2 ^ 53)) as [Hsmall|Hbig].
  { right. by exists z. }
  assert (z < 0)%Z as Hneg by lia.
  rewrite (proj2 (Z.ltb_lt z 0)) by done.
  cbv zeta. case_match; [by left|]. right. eexists. split; [done|].
  match goal with |- (- Z.shiftl ?q ?e ≤ 0)%Z =>
    assert (0 ≤ Z.shiftl q e)%Z; [apply Z.shiftl_nonneg|lia] end.
  assert (0 ≤ Z.shiftr (Z.abs z) (Z.log2 (Z.abs z) - 52))%Z
    by (apply Z.shiftr_nonneg; lia).
  case_match; lia.
Qed.
Import Js.

Section Uniq.
Context {A : Type} `{EqDecision A}.

Lemma filter_all (P : A → Prop) `{∀ x, Decision (P x)} (l : list A) :
  Forall P l → filter P l = l.
Proof.
  induction 1 as [|x l Hx _ IH]; [done|].
  by rewrite filter_cons_True, IH.
Qed.

Lemma elem_of_keepFirst (xs : list A) (y : A) : y ∈ keepFirst xs ↔ y ∈ xs.
Proof.
  induction xs as [|x rest IH]; [done|]. cbn.
  rewrite !elem_of_cons, list_elem_of_filter, IH.
  destruct (decide (y = x)); naive_solver.
Qed.

Lemma NoDup_keepFirst (xs : list A) : NoDup (keepFirst xs).
Proof.
  induction xs as [|x rest IH]; cbn; [apply NoDup_nil_2|].
  apply NoDup_cons. split; [|by apply NoDup_filter].
  rewrite list_elem_of_filter. naive_solver.
Qed.

Lemma keepFirst_NoDup (xs : list A) : NoDup xs → keepFirst xs = xs.
Proof.
  induction 1 as [|x rest Hx _ IH]; [done|]. cbn. rewrite IH. f_equal.
  apply filter_all. apply Forall_forall. by intros y Hy ->.
Qed.

(** Adding the elements of [xs] to a Set that holds [acc]. *)
Lemma foldl_setAdd (xs acc : list A) :
  foldl setAdd acc xs = acc ++ filter (λ y, y ∉ acc) (keepFirst xs).
Proof.
  revert acc. induction xs as [|x rest IH]; intros acc; cbn [foldl keepFirst].
  { by rewrite app_nil_r. }
  rewrite IH. unfold setAdd. case_bool_decide as Hx.
  - rewrite filter_cons_False by naive_solver. f_equal.
    rewrite list_filter_filter. apply list_filter_iff.
    intros y. naive_solver.
  - rewrite filter_cons_True by done. rewrite <- app_assoc. cbn. do 2 f_equal.
    rewrite list_filter_filter. apply list_filter_iff.
    intros y. rewrite elem_of_app, list_elem_of_singleton. naive_solver.
Qed.

(** [Array.from(new Set(xs))] keeps the first occurrence of each element,
    in order. *)
Lemma uniq_keepFirst (xs : list A) : uniq xs = keepFirst xs.
Proof.
  unfold uniq. rewrite foldl_setAdd. cbn. apply filter_all.
  apply Forall_forall. intros y _. apply not_elem_of_nil.
Qed.

Lemma uniq_idempotent (xs : list A) : uniq (uniq xs) = uniq xs.
Proof.
  rewrite !uniq_keepFirst. apply keepFirst_NoDup, NoDup_keepFirst.
Qed.

End Uniq.

End JsFacts.

(** ** The crawler *)

Module CrawlerFacts.
Import Js Crawler.

(** *** Strings *)

Lemma append_nil_l (t : string) : EmptyString +:+ t = t.
Proof. reflexivity. Qed.

Lemma append_cons (c : ascii) (s t : string) :
  String c s +:+ t = String c (s +:+ t).
Proof. reflexivity. Qed.

Lemma append_nil_r (s : string) : s +:+ EmptyString = s.
Proof. induction s as [|c s IH]; [done|]. by rewrite append_cons, IH. Qed.

Lemma append_assoc (a b c : string) : (a +:+ b) +:+ c = a +:+ (b +:+ c).
Proof. induction a as [|x a IH]; [done|]. by rewrite !append_cons, IH. Qed.

Lemma prefix_app_iff (p s : string) :
  String.prefix p s = true ↔ ∃ t, s = p +:+ t.
Proof.
  revert s. induction p as [|c p IH]; intros s.
  - destruct s; cbn; (split; [intros _; eexists; by rewrite append_nil_l|done]).
  - destruct s as [|d s]; cbn.
    { split; [done|]. intros [t Ht]. by rewrite append_cons in Ht. }
    destruct (Ascii.ascii_dec c d) as [->|Hne].
    + rewrite IH. split; intros [t Ht]; exists t.
      * by rewrite append_cons, Ht.
      * rewrite append_cons in Ht. congruence.
    + split; [done|]. intros [t Ht]. rewrite append_cons in Ht. congruence.
Qed.

Lemma startsWith_refl (s : string) : startsWith s s = true.
Proof. apply prefix_app_iff. exists EmptyString. by rewrite append_nil_r. Qed.

Lemma startsWith_trans (a b c : string) :
  startsWith a b = true → startsWith b c = true → startsWith a c = true.
Proof.
  unfold startsWith. rewrite !prefix_app_iff. intros [t ->] [t' ->].
  exists (t' +:+ t). apply append_assoc.
Qed.

(** *** Traces *)

Lemma atEach_nil P : atEach P [].
Proof. intros pre e post H. by destruct pre. Qed.

Lemma atEach_snoc P tr e :
  atEach P tr → P tr e → atEach P (tr ++ [e]).
Proof.
  intros Htr He pre e' post Heq.
  destruct (decide (post = [])) as [->|Hne].
  - apply app_inj_tail in Heq as [-> ->]. done.
  - destruct (exists_last Hne) as (post' & e'' & ->).
    change (pre ++ e' :: post' ++ [e''])
      with (pre ++ (e' :: post') ++ [e'']) in Heq.
    rewrite app_assoc in Heq. apply app_inj_tail in Heq as [-> _].
    by eapply Htr.
Qed.

Lemma atEach_app P tr tr' :
  atEach P (tr ++ tr') → atEach P tr.
Proof.
  intros H pre e post ->. apply (H pre e (post ++ tr')).
  by rewrite <- app_assoc.
Qed.

Lemma recorded_sublist tr : recorded tr `sublist_of` scraped tr.
Proof.
  induction tr as [|[| | |u [|]] tr IH]; cbn; try done.
  - by apply sublist_skip.
  - by apply sublist_cons.
Qed.

Lemma scraped_app tr tr' : scraped (tr ++ tr') = scraped tr ++ scraped tr'.
Proof. apply omap_app. Qed.

Lemma recorded_app tr tr' : recorded (tr ++ tr') = recorded tr ++ recorded tr'.
Proof. apply omap_app. Qed.

Lemma entered_app tr tr' : entered (tr ++ tr') = entered tr ++ entered tr'.
Proof. apply omap_app. Qed.

(** *** The steps of [crawl] *)

Section Steps.
Context {World : Type}.
Variable dateNow : World → Z * World.
Variable scrapePageData : string → World → option PageData * World.
Variables startTime timeLimit : Z.

Local Abbreviation crawl := (crawl dateNow scrapePageData startTime timeLimit).
Local Abbreviation forLinks := (forLinks dateNow startTime timeLimit).
Local Abbreviation limitReached := (limitReached startTime timeLimit).
Local Abbreviation afterCheck := (afterCheck startTime timeLimit).

Lemma forLinks_cons recur u link rest (s : Store World) :
  forLinks recur u (link :: rest) s =
    let '(now, w) := dateNow (world s) in
    let s1 := afterCheck now w s in
    if limitReached now then Resolved () s1
    else if startsWith link u then
      match recur link s1 with
      | Resolved _ s2 => forLinks recur u rest s2
      | Rejected s2 => Rejected s2
      | Pending s2 => Pending s2
      end
    else forLinks recur u rest s1.
Proof.
  cbn [Crawler.forLinks]. unfold mbind, Async_bind, deadlineCheck.
  destruct (dateNow (world s)) as [now w]. unfold Crawler.afterCheck. cbn.
  destruct (limitReached now); [done|].
  destruct (startsWith link u); done.
Qed.

Lemma crawl_S n u (s : Store World) :
  crawl (S n) u s =
    let s1 := afterHas u s in
    if bool_decide (u ∈ visited s) then Resolved () s1
    else
      let '(now, w) := dateNow (world s1) in
      let s2 := afterCheck now w s1 in
      if limitReached now then Resolved () s2
      else
        let '(r, w') := scrapePageData u (world s2) in
        let s3 := afterVisit u r w' s2 in
        match r with
        | Some d => forLinks (crawl n) u (links d) s3
        | None => Rejected s3
        end.
Proof.
  cbn [Crawler.crawl]. unfold mbind, Async_bind, visitedHas, afterHas.
  destruct (bool_decide (u ∈ visited s)); [done|].
  unfold deadlineCheck. cbn [world log].
  destruct (dateNow (world s)) as [now w]. unfold Crawler.afterCheck.
  destruct (limitReached now); [done|].
  unfold visitedAdd, scrape, push. cbn [world log setWorld].
  destruct (scrapePageData u w) as [[d|] w']; unfold log, setWorld; cbn;
    by rewrite <- ?app_assoc.
Qed.

(** Rule induction over the steps of a crawl.  [G] holds of every URL
    [crawl] is invoked on; [I] is a property of the store that every step
    keeps, and so it holds when [crawl] stops, however it ends. *)
Section Invariant.
Variable G : string → Prop.
Variable I : Store World → Prop.
Hypothesis G_link : ∀ u link, G u → startsWith link u = true → G link.
Hypothesis I_has : ∀ u s, G u → I s → I (afterHas u s).
Hypothesis I_check : ∀ s now w,
  I s → dateNow (world s) = (now, w) → I (afterCheck now w s).
Hypothesis I_visit : ∀ u s tr r w,
  I s → u ∉ visited s →
  trace s = tr ++ [VisitedHas u false; DeadlineCheck false] →
  scrapePageData u (world s) = (r, w) →
  I (afterVisit u r w s).

Lemma forLinks_invariant recur u ls :
  G u →
  (∀ v s, G v → I s → I (stateOf (recur v s))) →
  ∀ s, I s → I (stateOf (forLinks recur u ls s)).
Proof.
  intros Hu Hrec. induction ls as [|link rest IH]; intros s Hs; [done|].
  rewrite forLinks_cons.
  destruct (dateNow (world s)) as [now w] eqn:Hnow. cbn zeta.
  pose proof (I_check s now w Hs Hnow) as H1.
  destruct (limitReached now); [done|].
  destruct (startsWith link u) eqn:Hpre; [|by apply IH].
  specialize (Hrec link _ (G_link _ _ Hu Hpre) H1).
  destruct (recur link (afterCheck now w s)); cbn in Hrec; auto.
Qed.

Lemma crawl_invariant n : ∀ u s, G u → I s → I (stateOf (crawl n u s)).
Proof.
  induction n as [|n IH]; intros u s Hu Hs; [done|].
  rewrite crawl_S. cbn zeta.
  pose proof (I_has u s Hu Hs) as H1.
  destruct (bool_decide (u ∈ visited s)) eqn:Hseen; [done|].
  apply bool_decide_eq_false in Hseen.
  destruct (dateNow (world (afterHas u s))) as [now w] eqn:Hnow.
  pose proof (I_check _ now w H1 Hnow) as H2.
  destruct (limitReached now) eqn:Hlim; [done|].
  destruct (scrapePageData u (world (afterCheck now w (afterHas u s))))
    as [r w'] eqn:Hscr.
  assert (I (afterVisit u r w' (afterCheck now w (afterHas u s)))) as H3.
  { eapply (I_visit u _ (trace s)); eauto.
    unfold Crawler.afterCheck, afterHas. cbn. rewrite Hlim.
    rewrite bool_decide_eq_false_2 by done. by rewrite <- app_assoc. }
  destruct r as [d|]; [|done].
  by apply forLinks_invariant.
Qed.

End Invariant.

(** The store and the trace stay consistent. *)
Lemma consistent_log (s : Store World) (e : Event) (w : World) :
  consistent s →
  match e with VisitedHas _ _ | DeadlineCheck _ => True | _ => False end →
  answered (trace s) e →
  consistent (mkStore (visited s) (allData s) w (trace s ++ [e])).
Proof.
  intros (Hnd & Hsub & Hvis & Hrec & Hg & Ha) He Hans. unfold consistent. cbn.
  rewrite scraped_app, recorded_app.
  assert (∀ u, u ∈ visited s ↔ VisitedAdd u ∈ trace s ++ [e]) as Hvis'.
  { intros u. rewrite Hvis, elem_of_app, list_elem_of_singleton.
    split; [by left|]. intros [?|<-]; done. }
  destruct e; try done; cbn; rewrite !app_nil_r.
  all: split_and!; try done.
  all: try (apply atEach_snoc; [done|]; by intros v ok).
  all: by apply atEach_snoc.
Qed.

Lemma crawl_consistent n u (s : Store World) :
  consistent s → consistent (stateOf (crawl n u s)).
Proof.
  apply (crawl_invariant (λ _, True) consistent); clear; try done.
  - intros u s _ Hs. apply consistent_log; [done..|].
    intros v seen [= <- <-]. destruct Hs as (_ & _ & Hvis & _).
    by rewrite bool_decide_eq_true, Hvis.
  - intros s now w Hs _. by apply consistent_log.
  - intros u s tr r w (Hnd & Hsub & Hvis & Hrec & Hg & Ha) Hu Htr _.
    assert (u ∉ scraped (trace s)) as Hfresh by (intros Hin; by apply Hu, Hsub).
    assert (∀ ok, atEach guarded (trace s ++ [VisitedAdd u; Scrape u ok])) as Hg2.
    { intros ok. change [VisitedAdd u; Scrape u ok]
        with ([VisitedAdd u] ++ [Scrape u ok]).
      rewrite app_assoc. apply atEach_snoc.
      - apply atEach_snoc; [done|]. by intros v ok'.
      - intros v ok' [= <- <-]. exists tr. rewrite Htr. by rewrite <- app_assoc. }
    assert (∀ ok, atEach answered (trace s ++ [VisitedAdd u; Scrape u ok])) as Ha2.
    { intros ok. change [VisitedAdd u; Scrape u ok]
        with ([VisitedAdd u] ++ [Scrape u ok]).
      rewrite app_assoc. apply atEach_snoc; [|by intros v seen].
      apply atEach_snoc; [done|]. by intros v seen. }
    assert (∀ ok v, v ∈ {[u]} ∪ visited s ↔
              VisitedAdd v ∈ trace s ++ [VisitedAdd u; Scrape u ok]) as Hv2.
    { intros ok v. rewrite elem_of_union, elem_of_singleton, Hvis, elem_of_app.
      rewrite !elem_of_cons, elem_of_nil. split.
      - intros [->|?]; [right; by left|by left].
      - intros [?|[[= ->]|[?|[]]]]; [by right|by left|done]. }
    assert (NoDup (scraped (trace s) ++ [u])) as Hnd2.
    { apply NoDup_app. split_and!; [done| |apply NoDup_singleton].
      by intros v Hv ->%list_elem_of_singleton. }
    assert (∀ v, v ∈ scraped (trace s) ++ [u] → v ∈ {[u]} ∪ visited s) as Hsub2.
    { intros v [Hin| ->%list_elem_of_singleton]%elem_of_app; apply elem_of_union;
        [right; by apply Hsub|left; by apply elem_of_singleton]. }
    destruct r as [d|]; unfold consistent; cbn;
      rewrite scraped_app, recorded_app; cbn; rewrite ?app_nil_r.
    + split_and!; try done. rewrite fmap_app. cbn. by rewrite Hrec.
    + split_and!; done.
Qed.

Lemma extends_refl (s : Store World) : extends s s.
Proof. by split_and!. Qed.

Lemma extends_trans (s1 s2 s3 : Store World) :
  extends s1 s2 → extends s2 s3 → extends s1 s3.
Proof. intros (? & ? & ?) (? & ? & ?). split_and!; by etrans. Qed.

Lemma crawl_extends n u (s : Store World) : extends s (stateOf (crawl n u s)).
Proof.
  apply (crawl_invariant (λ _, True) (extends s));
    try done; try apply extends_refl.
  - intros v s' _ Hs'. eapply extends_trans; [done|]. unfold afterHas, log.
    split_and!; cbn; [done..|]. by apply prefix_app_r.
  - intros s' now w Hs' _. eapply extends_trans; [done|].
    unfold Crawler.afterCheck, log, setWorld.
    split_and!; cbn; [done..|]. by apply prefix_app_r.
  - intros v s' tr r w Hs' _ _ _. eapply extends_trans; [done|].
    destruct r; split_and!; cbn; try done; try by apply prefix_app_r.
    all: apply union_subseteq_r.
Qed.

Lemma forLinks_extends n u ls (s : Store World) :
  extends s (stateOf (forLinks (crawl n) u ls s)).
Proof.
  apply (forLinks_invariant (λ _, True) (extends s));
    try done; try apply extends_refl.
  - intros s' now w Hs' _. eapply extends_trans; [done|].
    unfold Crawler.afterCheck, log, setWorld.
    split_and!; cbn; [done..|]. by apply prefix_app_r.
  - intros v s' _ Hs'. eapply extends_trans; [done|]. apply crawl_extends.
Qed.

(** A call of [crawl] that returned began with [visited.has]. *)
Lemma crawl_enters n u (s s' : Store World) :
  crawl n u s = Resolved () s' → u ∈ entered (trace s').
Proof.
  intros Hrun. destruct n as [|n]; [done|].
  pose proof (crawl_extends (S n) u s) as Hext.
  rewrite Hrun in Hext. cbn in Hext.
  rewrite crawl_S in Hrun. cbn zeta in Hrun.
  assert (extends (afterHas u s) s') as (_ & _ & [tr ->]).
  { destruct (bool_decide (u ∈ visited s)); [by injection Hrun as <-|].
    destruct (dateNow _) as [now w].
    pose proof (forLinks_extends n u) as Hloop.
    destruct (limitReached now).
    - injection Hrun as <-. unfold Crawler.afterCheck, log, setWorld.
      split_and!; cbn; [done..|]. by apply prefix_app_r.
    - destruct (scrapePageData _ _) as [[d|] w']; [|done].
      specialize (Hloop (links d) (afterVisit u (Some d) w' (afterCheck now w (afterHas u s)))).
      rewrite Hrun in Hloop. cbn in Hloop. eapply extends_trans; [|done].
      unfold Crawler.afterCheck, log, setWorld.
      split_and!; cbn.
      + apply union_subseteq_r.
      + by apply prefix_app_r.
      + rewrite <- app_assoc. by apply prefix_app_r. }
  unfold afterHas, log. cbn. rewrite !entered_app. cbn.
  apply elem_of_app. left. apply elem_of_app. right. by left.
Qed.

(** When the loop ran to its end and no comparison found the limit reached,
    every link that starts with the URL of the page was followed. *)
Lemma forLinks_enters n u ls (s s' : Store World) :
  forLinks (crawl n) u ls s = Resolved () s' →
  DeadlineCheck true ∉ trace s' →
  ∀ link, link ∈ ls → startsWith link u = true → link ∈ entered (trace s').
Proof.
  revert s. induction ls as [|l rest IH]; intros s Hrun Hlive link Hin Hpre.
  { by apply elem_of_nil in Hin. }
  rewrite forLinks_cons in Hrun.
  destruct (dateNow (world s)) as [now w]. cbn zeta in Hrun.
  pose proof (forLinks_extends n u rest) as Hloop.
  destruct (limitReached now) eqn:Hlim.
  { injection Hrun as <-. exfalso. apply Hlive.
    unfold Crawler.afterCheck, log. cbn. rewrite Hlim.
    apply elem_of_app. right. by left. }
  apply elem_of_cons in Hin as [->|Hin].
  - rewrite Hpre in Hrun.
    destruct (crawl n l _) as [[] s2| |] eqn:Hcall; [|done..].
    apply crawl_enters in Hcall.
    specialize (Hloop s2). rewrite Hrun in Hloop.
    destruct Hloop as (_ & _ & [tr Htr]). cbn in Htr. rewrite Htr, entered_app.
    apply elem_of_app. by left.
  - destruct (startsWith l u).
    + destruct (crawl n l _) as [[] s2| |]; [|done..]. by eapply IH.
    + by eapply IH.
Qed.

(** *** A fetch that fails *)

Lemma noFailure_snoc tr e :
  noFailure tr → (∀ u, e ≠ Scrape u false) → noFailure (tr ++ [e]).
Proof.
  intros Htr He u [Hin|Hin%list_elem_of_singleton]%elem_of_app.
  - by apply (Htr u).
  - by apply (He u).
Qed.

Lemma forLinks_failsLast recur u ls (s : Store World) :
  (∀ v s1, noFailure (trace s1) → failsLast (recur v s1)) →
  noFailure (trace s) → failsLast (forLinks recur u ls s).
Proof.
  intros Hrec. revert s. induction ls as [|l rest IH]; intros s Hs; [done|].
  rewrite forLinks_cons. destruct (dateNow (world s)) as [now w]. cbn zeta.
  assert (noFailure (trace (afterCheck now w s))) as H1.
  { unfold Crawler.afterCheck, log. cbn. by apply noFailure_snoc. }
  destruct (limitReached now); [done|].
  destruct (startsWith l u); [|by apply IH].
  specialize (Hrec l _ H1).
  destruct (recur l (afterCheck now w s)); cbn in Hrec; [by apply IH|done..].
Qed.

Lemma crawl_failsLast n : ∀ u (s : Store World),
  noFailure (trace s) → failsLast (crawl n u s).
Proof.
  induction n as [|n IH]; intros u s Hs; [done|].
  rewrite crawl_S. cbn zeta.
  assert (noFailure (trace (afterHas u s))) as H1.
  { unfold afterHas, log. cbn. by apply noFailure_snoc. }
  destruct (bool_decide (u ∈ visited s)); [done|].
  destruct (dateNow (world (afterHas u s))) as [now w].
  assert (noFailure (trace (afterCheck now w (afterHas u s)))) as H2.
  { unfold Crawler.afterCheck, log. cbn. by apply noFailure_snoc. }
  destruct (limitReached now); [done|].
  destruct (scrapePageData u _) as [[d|] w'].
  - apply forLinks_failsLast; [done|]. cbn.
    change [VisitedAdd u; Scrape u true] with ([VisitedAdd u] ++ [Scrape u true]).
    rewrite app_assoc. by repeat apply noFailure_snoc.
  - cbn. exists (trace (afterCheck now w (afterHas u s)) ++ [VisitedAdd u]), u.
    split; [|by apply noFailure_snoc]. cbn. by rewrite <- !app_assoc.
Qed.

(** *** What follows an expired deadline *)

Lemma expiryThenCheck_snoc tr e :
  expiryThenCheck tr →
  (last tr = Some (DeadlineCheck true) → ∃ expired, e = DeadlineCheck expired) →
  expiryThenCheck (tr ++ [e]).
Proof.
  intros Htr He pre e' post Heq.
  destruct (decide (post = [])) as [->|Hne].
  - change (pre ++ [DeadlineCheck true; e'])
      with (pre ++ [DeadlineCheck true] ++ [e']) in Heq.
    rewrite app_assoc in Heq. apply app_inj_tail in Heq as [-> ->].
    apply He. by rewrite last_snoc.
  - destruct (exists_last Hne) as (post' & e'' & ->).
    change (pre ++ DeadlineCheck true :: e' :: post' ++ [e''])
      with (pre ++ (DeadlineCheck true :: e' :: post') ++ [e'']) in Heq.
    rewrite app_assoc in Heq. apply app_inj_tail in Heq as [-> _].
    by eapply Htr.
Qed.

Lemma forLinks_expiryThenCheck recur u ls (s : Store World) :
  (∀ v s1, expiryThenCheck (trace s1) →
           last (trace s1) ≠ Some (DeadlineCheck true) →
           expiryThenCheck (trace (stateOf (recur v s1)))) →
  expiryThenCheck (trace s) →
  expiryThenCheck (trace (stateOf (forLinks recur u ls s))).
Proof.
  intros Hrec. revert s. induction ls as [|l rest IH]; intros s Hs; [done|].
  rewrite forLinks_cons. destruct (dateNow (world s)) as [now w]. cbn zeta.
  assert (expiryThenCheck (trace (afterCheck now w s))) as H1.
  { unfold Crawler.afterCheck, log. cbn. apply expiryThenCheck_snoc; eauto. }
  destruct (limitReached now) eqn:Hlim; [done|].
  destruct (startsWith l u); [|by apply IH].
  assert (last (trace (afterCheck now w s)) ≠ Some (DeadlineCheck true)) as H2.
  { unfold Crawler.afterCheck, log. cbn. by rewrite last_snoc, Hlim. }
  specialize (Hrec l (afterCheck now w s) H1 H2).
  destruct (recur l (afterCheck now w s)); cbn in Hrec; [by apply IH|done..].
Qed.

Lemma crawl_expiryThenCheck n : ∀ u (s : Store World),
  expiryThenCheck (trace s) →
  last (trace s) ≠ Some (DeadlineCheck true) →
  expiryThenCheck (trace (stateOf (crawl n u s))).
Proof.
  induction n as [|n IH]; intros u s Hs Hlast; [done|].
  rewrite crawl_S. cbn zeta.
  assert (expiryThenCheck (trace (afterHas u s))) as H1.
  { unfold afterHas, log. cbn. by apply expiryThenCheck_snoc. }
  destruct (bool_decide (u ∈ visited s)); [done|].
  destruct (dateNow (world (afterHas u s))) as [now w].
  assert (expiryThenCheck (trace (afterCheck now w (afterHas u s)))) as H2.
  { unfold Crawler.afterCheck, log. cbn. apply expiryThenCheck_snoc; eauto. }
  destruct (limitReached now) eqn:Hlim; [done|].
  assert (∀ ok, expiryThenCheck
            (trace (afterCheck now w (afterHas u s)) ++ [VisitedAdd u; Scrape u ok]))
    as H3.
  { intros ok. change [VisitedAdd u; Scrape u ok]
      with ([VisitedAdd u] ++ [Scrape u ok]).
    rewrite app_assoc. apply expiryThenCheck_snoc.
    - apply expiryThenCheck_snoc; [done|].
      unfold Crawler.afterCheck, log. cbn. by rewrite last_snoc, Hlim.
    - by rewrite last_snoc. }
  destruct (scrapePageData u _) as [[d|] w']; [|apply H3].
  apply forLinks_expiryThenCheck; [apply IH|apply H3].
Qed.

End Steps.

(** *** [crawlSite] *)

Section Site.
Context {World : Type}.
Variable dateNow : World → Z * World.
Variable scrapePageData : string → World → option PageData * World.

Local Abbreviation crawlSite := (crawlSite dateNow scrapePageData).

Lemma crawlSite_state fuel seed timeLimit (w : World) :
  stateOf (crawlSite fuel seed timeLimit w) =
  stateOf (crawl dateNow scrapePageData (dateNow w).1 timeLimit fuel seed
             (mkStore ∅ [] (dateNow w).2 [])).
Proof.
  unfold Crawler.crawlSite. destruct (dateNow w) as [t w1]. cbn.
  by destruct (crawl _ _ _ _ _ _ _).
Qed.

Lemma initial_consistent (w : World) : consistent (mkStore ∅ [] w []).
Proof.
  unfold consistent. cbn. split_and!; try done; try apply atEach_nil.
  - apply NoDup_nil_2.
  - intros u []%elem_of_nil.
  - intros u. rewrite elem_of_nil. by rewrite elem_of_empty.
Qed.

Lemma crawlSite_consistent fuel seed timeLimit (w : World) :
  consistent (stateOf (crawlSite fuel seed timeLimit w)).
Proof.
  rewrite crawlSite_state. apply crawl_consistent, initial_consistent.
Qed.

(** C3: in every crawl, whatever the pages link to, however the clock runs
    and however the crawl ends, no URL is fetched twice and none has two
    records; the visited set holds no duplicate; and every fetch of a URL
    comes right after [visited.has] answered that the URL was not visited,
    which was so, and after [visited.add] marked it. *)
Theorem crawl_fetches_each_url_once fuel seed timeLimit (w : World) :
  let s := stateOf (crawlSite fuel seed timeLimit w) in
  NoDup (scraped (trace s))
  ∧ NoDup (url <$> allData s)
  ∧ NoDup (elements (visited s))
  ∧ (∀ u, u ∈ scraped (trace s) → u ∈ visited s)
  ∧ (∀ pre u ok post, trace s = pre ++ Scrape u ok :: post →
      (u ∉ scraped pre) ∧
      (∃ pre', pre = pre' ++ [VisitedHas u false; DeadlineCheck false; VisitedAdd u]
               ∧ VisitedAdd u ∉ pre')).
Proof.
  intros s.
  destruct (crawlSite_consistent fuel seed timeLimit w)
    as (Hnd & Hsub & Hvis & Hrec & Hg & Ha).
  fold s in Hnd, Hsub, Hvis, Hrec, Hg, Ha.
  split_and!; try done.
  - rewrite Hrec. eapply sublist_NoDup; [exact Hnd|apply recorded_sublist].
  - apply NoDup_elements.
  - intros pre u ok post Heq. split.
    + rewrite Heq, scraped_app in Hnd. cbn in Hnd.
      apply NoDup_app in Hnd as (_ & Hnd & _). intros Hin.
      apply (Hnd u Hin). by left.
    + destruct (Hg pre _ post Heq u ok eq_refl) as [pre' ->].
      exists pre'. split; [done|].
      rewrite Heq in Ha.
      specialize (Ha pre' (VisitedHas u false)
        ([DeadlineCheck false; VisitedAdd u] ++ Scrape u ok :: post)).
      rewrite <- app_assoc in Ha. specialize (Ha eq_refl u false eq_refl).
      intros Hin. by apply Ha in Hin.
Qed.

Lemma crawlSite_resolved fuel seed timeLimit (w : World) data s :
  crawlSite fuel seed timeLimit w = Resolved data s →
  data = allData s ∧
  crawl dateNow scrapePageData (dateNow w).1 timeLimit fuel seed
    (mkStore ∅ [] (dateNow w).2 []) = Resolved () s.
Proof.
  unfold Crawler.crawlSite. destruct (dateNow w) as [t w1]. cbn.
  destruct (crawl _ _ _ _ _ _ _) as [[] s1| |]; [|done..].
  by intros [= <- <-].
Qed.

Lemma crawlSite_entered fuel seed timeLimit (w : World) u :
  u ∈ entered (trace (stateOf (crawlSite fuel seed timeLimit w))) →
  startsWith u seed = true.
Proof.
  rewrite crawlSite_state. revert u.
  apply (crawl_invariant dateNow scrapePageData _ _
           (λ v, startsWith v seed = true)
           (λ s, ∀ v, v ∈ entered (trace s) → startsWith v seed = true)).
  - intros u link Hu Hlink. by eapply startsWith_trans.
  - intros u s Hu Hs v. unfold afterHas, log. cbn. rewrite entered_app. cbn.
    intros [Hin| ->%list_elem_of_singleton]%elem_of_app; [by apply Hs|done].
  - intros s now w' Hs _ v. unfold afterCheck, log. cbn.
    rewrite entered_app. cbn. rewrite app_nil_r. apply Hs.
  - intros u s tr r w' Hs _ _ _ v.
    destruct r; cbn; rewrite entered_app; cbn; rewrite app_nil_r; apply Hs.
  - apply startsWith_refl.
  - by intros v []%elem_of_nil.
Qed.

(** C1, amended: whatever the crawl does, [crawl] is only ever invoked on
    URLs that have the seed as a literal prefix; and when the crawl returns
    its result and no comparison found the limit reached, the first record
    is the seed page and a link of that page is followed exactly when the
    seed is a literal prefix of it. *)
Theorem followed_links_start_with_seed fuel seed timeLimit (w : World) :
  (∀ u, u ∈ entered (trace (stateOf (crawlSite fuel seed timeLimit w))) →
     startsWith u seed = true)
  ∧ (∀ data s,
       crawlSite fuel seed timeLimit w = Resolved data s →
       DeadlineCheck true ∉ trace s →
       ∃ d rest, data = mkPageRecord seed d :: rest ∧
         ∀ link, link ∈ links d →
           (link ∈ entered (trace s) ↔ startsWith link seed = true)).
Proof.
  split; [intros u; apply crawlSite_entered|].
  intros data s Hrun Hlive.
  pose proof (crawlSite_entered fuel seed timeLimit w) as Honly.
  rewrite Hrun in Honly. cbn in Honly.
  apply crawlSite_resolved in Hrun as [-> Hrun].
  destruct fuel as [|n]; [done|].
  rewrite crawl_S in Hrun. cbn zeta in Hrun.
  rewrite bool_decide_eq_false_2 in Hrun by apply not_elem_of_empty.
  destruct (dateNow (world (afterHas _ _))) as [now w1].
  destruct (limitReached _ _ now) eqn:Hlim.
  { injection Hrun as <-. exfalso. apply Hlive.
    unfold afterCheck, log. cbn. rewrite Hlim. set_solver. }
  destruct (scrapePageData _ _) as [[d|] w2]; [|done].
  pose proof (forLinks_extends dateNow scrapePageData (dateNow w).1 timeLimit
                n seed (links d)) as Hext.
  specialize (Hext (afterVisit seed (Some d) w2
    (afterCheck (dateNow w).1 timeLimit now w1
       (afterHas seed (mkStore ∅ [] (dateNow w).2 []))))).
  rewrite Hrun in Hext.
  destruct Hext as (_ & [rest Hdata] & _). cbn in Hdata.
  exists d, rest. split; [done|].
  intros link Hin. split; [apply Honly|].
  by eapply forLinks_enters.
Qed.

(** In every crawl a fetch that fails makes [crawlSite] reject at once: the
    failed fetch is the last step of the crawl, and no result is returned. *)
Lemma failed_fetch_is_final fuel seed timeLimit (w : World) u :
  let o := crawlSite fuel seed timeLimit w in
  Scrape u false ∈ trace (stateOf o) →
  ∃ s pre, o = Rejected s ∧ trace s = pre ++ [Scrape u false].
Proof.
  intros o Hin.
  pose proof (crawl_failsLast dateNow scrapePageData (dateNow w).1 timeLimit
                fuel seed (mkStore ∅ [] (dateNow w).2 [])) as Hlast.
  specialize (Hlast ltac:(by intros v []%elem_of_nil)).
  unfold o in *. unfold Crawler.crawlSite in *.
  destruct (dateNow w) as [t w1]. cbn in *.
  destruct (crawl _ _ _ _ _ _ _) as [[] s| s |s]; cbn in *.
  - by apply Hlast in Hin.
  - destruct Hlast as (pre & v & Htr & Hpre). exists s, pre. split; [done|].
    rewrite Htr in Hin. apply elem_of_app in Hin as [Hin|Hin].
    + by apply Hpre in Hin.
    + apply list_elem_of_singleton in Hin. by rewrite Htr, Hin.
  - by apply Hlast in Hin.
Qed.


(** C6: a crawl whose deadline has passed when [crawl] is entered, as it
    always has with a time limit of zero unless the clock went backwards,
    returns the empty result without any fetch.  A crawl whose deadline
    passes while the seed is being fetched returns the record of the seed
    alone: the seed is the only URL fetched and [crawl] is not invoked
    again. *)
Theorem expired_deadline_stops_at_seed fuel seed timeLimit (w : World) :
  let startTime := (dateNow w).1 in
  let now := (dateNow (dateNow w).2).1 in
  let w2 := (dateNow (dateNow w).2).2 in
  let o := crawlSite (S fuel) seed timeLimit w in
  ((timeLimit ≤ 0 ∧ startTime ≤ now)%Z
   ∨ limitReached startTime timeLimit now = true →
   ∃ s, o = Resolved [] s
        ∧ trace s = [VisitedHas seed false; DeadlineCheck true])
  ∧ (limitReached startTime timeLimit now = false →
     ∀ d w3,
       scrapePageData seed w2 = (Some d, w3) →
       limitReached startTime timeLimit (dateNow w3).1 = true →
       ∃ s, o = Resolved [mkPageRecord seed d] s
            ∧ scraped (trace s) = [seed]
            ∧ entered (trace s) = [seed]).
Proof.
  intros startTime now w2 o. unfold o, Crawler.crawlSite.
  subst startTime now w2.
  destruct (dateNow w) as [startTime w1]. cbn [fst snd].
  rewrite crawl_S. cbn zeta.
  rewrite bool_decide_eq_false_2 by apply not_elem_of_empty.
  cbn [world afterHas log].
  destruct (dateNow w1) as [now w2]. cbn [fst snd]. unfold afterCheck. split.
  - intros Hexp.
    assert (limitReached startTime timeLimit now = true) as ->.
    { destruct Hexp as [[Hlimit Hclock]|Hexp]; [|done].
      unfold limitReached. apply bool_decide_eq_true. lia. }
    eexists. split; done.
  - intros Hlive d w3 Hfetch Hexp. rewrite Hlive.
    cbn [world log setWorld]. rewrite Hfetch. cbn [links].
    destruct (links d) as [|link rest].
    + eexists. split; done.
    + rewrite forLinks_cons. cbn [world afterVisit].
      destruct (dateNow w3) as [now' w4]. cbn [fst] in Hexp. cbn zeta.
      unfold afterCheck. rewrite Hexp. eexists. split; done.
Qed.

End Site.

(** *** The order of the result *)

(** A pre-order holds each node once, and none that was seen before. *)
Lemma preorder_NoDup children stack seen out :
  preorder children stack seen out →
  NoDup out ∧ ∀ u, u ∈ out → u ∉ seen.
Proof.
  induction 1 as [seen|u stack seen out Hu _ IH|u stack seen out Hu _ [IH1 IH2]];
    [split; [constructor|by intros ? ?%elem_of_nil]|done|].
  split.
  - constructor; [|done]. intros Hin. apply (IH2 u Hin). set_solver.
  - intros v [->|Hv]%elem_of_cons; [done|].
    intros Hseen. apply (IH2 v Hv). set_solver.
Qed.

Lemma preorder_functional children stack seen out1 out2 :
  preorder children stack seen out1 →
  preorder children stack seen out2 →
  out1 = out2.
Proof.
  intros H1. revert out2.
  induction H1 as [seen|u stack seen out Hu _ IH|u stack seen out Hu _ IH];
    intros out2 H2; inversion H2; subst; try done.
  - by apply IH.
  - f_equal. by apply IH.
Qed.

Lemma size_list_to_set_le (l : list string) :
  (size (list_to_set l : gset string) ≤ length l)%nat.
Proof.
  induction l as [|x l IH]; cbn; [by rewrite size_empty|].
  rewrite size_union_alt, size_singleton.
  assert ((list_to_set l : gset string) ∖ {[x]} ⊆ list_to_set l) as Hle
    by apply subseteq_difference_l, reflexivity.
  apply subseteq_size in Hle. lia.
Qed.

Section Order.
Context {World : Type}.
Variable dateNow : World → Z * World.
Variable scrapePageData : string → World → option PageData * World.
Variables startTime timeLimit : Z.

(** The pages never change: a URL always loads the same page, or always
    fails. *)
Variable web : string → option PageData.
Hypothesis deterministic : ∀ u w, (scrapePageData u w).1 = web u.

Local Abbreviation crawl := (crawl dateNow scrapePageData startTime timeLimit).
Local Abbreviation forLinks := (forLinks dateNow startTime timeLimit).

Lemma crawl_preorder n : ∀ u (s s' : Store World),
  crawl n u s = Resolved () s' →
  DeadlineCheck true ∉ trace s' →
  ∀ stack out,
    preorder (followed web) stack (visited s') out →
    ∃ new, url <$> allData s' = (url <$> allData s) ++ new
           ∧ preorder (followed web) (u :: stack) (visited s) (new ++ out).
Proof.
  induction n as [|n IH]; intros u s s' Hrun Hlive stack out Hrest; [done|].
  assert (∀ ls (s1 : Store World),
    forLinks (crawl n) u ls s1 = Resolved () s' →
    ∀ stack out,
      preorder (followed web) stack (visited s') out →
      ∃ new, url <$> allData s' = (url <$> allData s1) ++ new
             ∧ preorder (followed web)
                 (filter (λ link, startsWith link u) ls ++ stack)
                 (visited s1) (new ++ out)) as Hloop.
  { clear Hrun stack out Hrest s.
    induction ls as [|l rest IHls]; intros s1 Hrun stack out Hrest.
    { injection Hrun as <-. exists []. by rewrite app_nil_r. }
    rewrite forLinks_cons in Hrun.
    destruct (dateNow (world s1)) as [now w]. cbn zeta in Hrun.
    destruct (limitReached startTime timeLimit now) eqn:Hlim.
    { injection Hrun as <-. exfalso. apply Hlive.
      unfold afterCheck, log. cbn. rewrite Hlim.
      apply elem_of_app. right. by left. }
    destruct (startsWith l u) eqn:Hpre.
    - rewrite filter_cons_True by by rewrite Hpre.
      destruct (crawl n l _) as [[] s2| |] eqn:Hcall; [|done..].
      destruct (IHls s2 Hrun stack out Hrest) as (new2 & Hdata2 & Hpre2).
      assert (DeadlineCheck true ∉ trace s2) as Hlive2.
      { pose proof (forLinks_extends dateNow scrapePageData startTime timeLimit
                      n u rest s2) as (_ & _ & [tr Htr]).
        rewrite Hrun in Htr. cbn in Htr. intros Hin. apply Hlive.
        rewrite Htr. apply elem_of_app. by left. }
      destruct (IH l _ s2 Hcall Hlive2 _ _ Hpre2) as (new1 & Hdata1 & Hpre1).
      exists (new1 ++ new2). cbn in Hdata1, Hpre1.
      rewrite Hdata2, Hdata1. rewrite <- !app_assoc. done.
    - rewrite filter_cons_False by (cbn; rewrite Hpre; intros []).
      destruct (IHls _ Hrun stack out Hrest) as (new & Hdata & Hpre').
      by exists new. }
  rewrite crawl_S in Hrun. cbn zeta in Hrun.
  destruct (bool_decide (u ∈ visited s)) eqn:Hseen.
  { injection Hrun as <-. exists []. split; [by rewrite app_nil_r|].
    apply bool_decide_eq_true in Hseen. by apply preorder_skip. }
  apply bool_decide_eq_false in Hseen.
  destruct (dateNow (world (afterHas u s))) as [now w].
  destruct (limitReached startTime timeLimit now) eqn:Hlim.
  { injection Hrun as <-. exfalso. apply Hlive.
    unfold afterCheck, log. cbn. rewrite Hlim.
    apply elem_of_app. right. by left. }
  pose proof (deterministic u (world (afterCheck startTime timeLimit now w
                                         (afterHas u s)))) as Hweb.
  destruct (scrapePageData u _) as [[d|] w']; [|done].
  cbn in Hweb.
  destruct (Hloop _ _ Hrun stack out Hrest) as (new & Hdata & Hpre).
  cbn in Hdata, Hpre. rewrite fmap_app in Hdata. cbn in Hdata.
  exists (u :: new). split; [by rewrite Hdata, <- app_assoc|].
  cbn. apply preorder_visit; [done|].
  unfold followed. by rewrite <- Hweb.
Qed.

(** The crawl of a finite site comes to an end. *)
Variable site : list string.
Hypothesis site_closed :
  ∀ u, u ∈ site → ∀ link, link ∈ followed web u → link ∈ site.

Lemma crawl_finishes n : ∀ u (s : Store World),
  u ∈ site →
  (size ((list_to_set site : gset string) ∖ visited s) < n)%nat →
  finished (crawl n u s).
Proof.
  induction n as [|n IH]; intros u s Hu Hsize; [lia|].
  rewrite crawl_S. cbn zeta.
  destruct (bool_decide (u ∈ visited s)) eqn:Hseen; [done|].
  apply bool_decide_eq_false in Hseen.
  destruct (dateNow (world (afterHas u s))) as [now w].
  destruct (limitReached startTime timeLimit now); [done|].
  pose proof (deterministic u (world (afterCheck startTime timeLimit now w
                                         (afterHas u s)))) as Hweb.
  destruct (scrapePageData u _) as [[d|] w']; [|done].
  cbn in Hweb.
  set (s3 := afterVisit u (Some d) w' _).
  assert (size ((list_to_set site : gset string) ∖ visited s3) < n)%nat as Hsize3.
  { assert ((list_to_set site : gset string) ∖ visited s3
              ⊂ list_to_set site ∖ visited s) as Hlt.
    { unfold s3. cbn.
      assert (u ∈ (list_to_set site : gset string)) as Hu'
        by by apply elem_of_list_to_set.
      clear -Hu' Hseen. set_solver. }
    apply subset_size in Hlt. lia. }
  assert (∀ l, l ∈ links d → startsWith l u = true → l ∈ site) as Hin.
  { intros l Hl Hpre. apply (site_closed u Hu). unfold followed.
    rewrite <- Hweb. apply list_elem_of_filter. split; [by rewrite Hpre|done]. }
  clearbody s3. clear Hsize Hseen Hweb.
  revert s3 Hsize3 Hin. generalize (links d). clear d.
  induction l as [|link rest IHls]; intros s1 Hsize1 Hin; [done|].
  rewrite forLinks_cons.
  destruct (dateNow (world s1)) as [now1 w1]. cbn zeta.
  destruct (limitReached startTime timeLimit now1); [done|].
  set (s2 := afterCheck startTime timeLimit now1 w1 s1).
  assert (visited s2 = visited s1) as Hv2 by done.
  destruct (startsWith link u) eqn:Hpre.
  - assert (link ∈ site) as Hlink by (apply Hin; [by left|done]).
    assert (finished (crawl n link s2)) as Hfin.
    { apply IH; [done|]. by rewrite Hv2. }
    pose proof (crawl_extends dateNow scrapePageData startTime timeLimit
                  n link s2) as (Hsub & _ & _).
    destruct (crawl n link s2) as [[] s4| |]; [|done..].
    cbn in Hsub. apply IHls.
    + assert ((list_to_set site : gset string) ∖ visited s4
                ⊆ list_to_set site ∖ visited s1) as Hle.
      { rewrite <- Hv2. set_solver. }
      apply subseteq_size in Hle. lia.
    + intros l' Hl'. apply Hin. by right.
  - apply IHls; [by rewrite Hv2|]. intros l' Hl'. apply Hin. by right.
Qed.

(** When every page of the site loads and the clock never reaches the
    limit, the crawl returns, and no comparison has found the limit
    reached. *)
Hypothesis all_load : ∀ u, u ∈ site → is_Some (web u).
Hypothesis never_late :
  ∀ w, limitReached startTime timeLimit (dateNow w).1 = false.

Lemma crawl_completes n : ∀ u (s : Store World),
  u ∈ site →
  (size ((list_to_set site : gset string) ∖ visited s) < n)%nat →
  DeadlineCheck true ∉ trace s →
  ∃ s', crawl n u s = Resolved () s' ∧ DeadlineCheck true ∉ trace s'.
Proof.
  induction n as [|n IH]; intros u s Hu Hsize Hlive; [lia|].
  rewrite crawl_S. cbn zeta.
  assert (DeadlineCheck true ∉ trace (afterHas u s)) as Hlive1.
  { cbn. rewrite elem_of_app, list_elem_of_singleton. naive_solver. }
  destruct (bool_decide (u ∈ visited s)) eqn:Hseen; [by eexists|].
  apply bool_decide_eq_false in Hseen.
  pose proof (never_late (world (afterHas u s))) as Hnow.
  destruct (dateNow (world (afterHas u s))) as [now w]. cbn [fst] in Hnow.
  rewrite Hnow.
  pose proof (deterministic u (world (afterCheck startTime timeLimit now w
                                         (afterHas u s)))) as Hweb.
  destruct (all_load u Hu) as [d Hd]. rewrite Hd in Hweb.
  destruct (scrapePageData u _) as [r w']. cbn in Hweb. subst r.
  set (s3 := afterVisit u (Some d) w' _).
  assert (DeadlineCheck true ∉ trace s3) as Hlive3.
  { unfold s3. cbn. rewrite Hnow.
    rewrite !elem_of_app, !elem_of_cons, elem_of_nil. naive_solver. }
  assert (size ((list_to_set site : gset string) ∖ visited s3) < n)%nat as Hsize3.
  { assert ((list_to_set site : gset string) ∖ visited s3
              ⊂ list_to_set site ∖ visited s) as Hlt.
    { unfold s3. cbn.
      assert (u ∈ (list_to_set site : gset string)) as Hu'
        by by apply elem_of_list_to_set.
      clear -Hu' Hseen. set_solver. }
    apply subset_size in Hlt. lia. }
  assert (∀ l, l ∈ links d → startsWith l u = true → l ∈ site) as Hin.
  { intros l Hl Hpre. apply (site_closed u Hu). unfold followed.
    rewrite Hd. apply list_elem_of_filter. split; [by rewrite Hpre|done]. }
  clearbody s3. clear Hsize Hseen Hd Hlive Hlive1 Hnow.
  revert s3 Hsize3 Hin Hlive3. generalize (links d). clear d.
  induction l as [|link rest IHls]; intros s1 Hsize1 Hin Hlive1; [by eexists|].
  rewrite forLinks_cons.
  pose proof (never_late (world s1)) as Hnow1.
  destruct (dateNow (world s1)) as [now1 w1]. cbn [fst] in Hnow1. cbn zeta.
  rewrite Hnow1.
  set (s2 := afterCheck startTime timeLimit now1 w1 s1).
  assert (visited s2 = visited s1) as Hv2 by done.
  assert (DeadlineCheck true ∉ trace s2) as Hlive2.
  { unfold s2. cbn. rewrite Hnow1.
    rewrite elem_of_app, list_elem_of_singleton. naive_solver. }
  destruct (startsWith link u) eqn:Hpre.
  - assert (link ∈ site) as Hlink by (apply Hin; [by left|done]).
    destruct (IH link s2 Hlink) as (s4 & Hrun & Hlive4);
      [by rewrite Hv2|done|].
    pose proof (crawl_extends dateNow scrapePageData startTime timeLimit
                  n link s2) as (Hsub & _ & _).
    rewrite Hrun in Hsub |- *. cbn in Hsub. apply IHls; [| |done].
    + assert ((list_to_set site : gset string) ∖ visited s4
                ⊆ list_to_set site ∖ visited s1) as Hle.
      { rewrite <- Hv2. set_solver. }
      apply subseteq_size in Hle. lia.
    + intros l' Hl'. apply Hin. by right.
  - apply IHls; [by rewrite Hv2| |done]. intros l' Hl'. apply Hin. by right.
Qed.

End Order.

Section SiteOrder.
Context {World : Type}.
Variable dateNow : World → Z * World.
Variable scrapePageData : string → World → option PageData * World.

(** With pages that never change, whenever the crawl returns its result and
    no comparison found the limit reached, the URLs of the records are, in
    order, the depth-first pre-order of the pages from the seed, where the
    successors of a page are the links that [crawl] follows from it. *)
Lemma crawlSite_preorder fuel seed timeLimit (w : World)
    (web : string → option PageData) data s :
  (∀ u w', (scrapePageData u w').1 = web u) →
  crawlSite dateNow scrapePageData fuel seed timeLimit w = Resolved data s →
  DeadlineCheck true ∉ trace s →
  preorder (followed web) [seed] ∅ (url <$> data).
Proof.
  intros Hdet Hrun Hlive.
  apply crawlSite_resolved in Hrun as [-> Hrun].
  destruct (crawl_preorder dateNow scrapePageData _ _ web Hdet fuel seed _ s
              Hrun Hlive [] []) as (new & Hdata & Hpre).
  { apply preorder_done. }
  cbn in Hdata, Hpre. rewrite app_nil_r in Hpre. by rewrite Hdata.
Qed.

(** X15: the order of the result.  On a finite site whose pages never change
    and all load, with a clock that never reaches the limit, the crawl
    returns, and the URLs of its records are, in order, the depth-first
    pre-order of the pages from the seed, where the successors of a page
    are the links that [crawl] follows from it, those that start with the
    URL of the page itself: the record of a page comes before those of the
    pages below it, and all of these come before the record of the next
    link of the page above.  No other order is a pre-order of that graph. *)
Theorem crawl_returns_the_pages_in_preorder fuel seed timeLimit (w : World)
    (web : string → option PageData) (site : list string) :
  (∀ u w', (scrapePageData u w').1 = web u) →
  seed ∈ site →
  (∀ u, u ∈ site → ∀ link, link ∈ followed web u → link ∈ site) →
  (∀ u, u ∈ site → is_Some (web u)) →
  (∀ w', limitReached (dateNow w).1 timeLimit (dateNow w').1 = false) →
  (length site < fuel)%nat →
  ∃ data s,
    crawlSite dateNow scrapePageData fuel seed timeLimit w = Resolved data s
    ∧ preorder (followed web) [seed] ∅ (url <$> data)
    ∧ (∀ order, preorder (followed web) [seed] ∅ order → order = url <$> data)
    ∧ head (url <$> data) = Some seed
    ∧ NoDup (url <$> data)
    ∧ DeadlineCheck true ∉ trace s.
Proof.
  intros Hdet Hseed Hclosed Hload Hclock Hfuel.
  destruct (crawl_completes dateNow scrapePageData (dateNow w).1 timeLimit
              web Hdet site Hclosed Hload Hclock fuel seed
              (mkStore ∅ [] (dateNow w).2 []) Hseed) as (s & Hrun & Hlive).
  { pose proof (size_list_to_set_le site) as Hle.
    assert ((list_to_set site : gset string) ∖ ∅ ⊆ list_to_set site) as Hsub
      by apply subseteq_difference_l, reflexivity.
    apply subseteq_size in Hsub. cbn. lia. }
  { cbn. apply not_elem_of_nil. }
  assert (crawlSite dateNow scrapePageData fuel seed timeLimit w
          = Resolved (allData s) s) as Hsite.
  { unfold crawlSite. destruct (dateNow w) as [t w1]. cbn in Hrun.
    by rewrite Hrun. }
  pose proof (crawlSite_preorder fuel seed timeLimit w web _ _ Hdet Hsite Hlive)
    as Hpre.
  exists (allData s), s. split_and!; [done|done| | |
    |done].
  - intros order Horder. exact (preorder_functional _ _ _ _ _ Horder Hpre).
  - inversion Hpre as [| |u stack seen out Hnew Hrest Hstack Hseen Hout];
      subst; [set_solver|done].
  - apply (preorder_NoDup _ _ _ _ Hpre).
Qed.

End SiteOrder.

(** *** The deadline *)

Section Deadline.
Context {World : Type}.
Variable dateNow : World → Z * World.
Variable scrapePageData : string → World → option PageData * World.

(** The clock does not run backwards between two readings. *)
Hypothesis clock_monotone : ∀ w, ((dateNow w).1 ≤ (dateNow (dateNow w).2).1)%Z.

Lemma crawl_afterExpiry startTime timeLimit n u (s : Store World) :
  let expired s :=
    DeadlineCheck true ∈ trace s →
    limitReached startTime timeLimit (dateNow (world s)).1 = true in
  expired s ∧ atEach afterExpiry (trace s) →
  let s' := stateOf (crawl dateNow scrapePageData startTime timeLimit n u s) in
  expired s' ∧ atEach afterExpiry (trace s').
Proof.
  intros expired.
  apply (crawl_invariant dateNow scrapePageData startTime timeLimit
           (λ _, True) (λ s, expired s ∧ atEach afterExpiry (trace s)));
    clear n u s; try done.
  - intros u s _ [Hexp Hall]. unfold afterHas, log, expired. cbn. split.
    + intros [Hin|Hin%list_elem_of_singleton]%elem_of_app; [by apply Hexp|done].
    + by apply atEach_snoc.
  - intros s now w [Hexp Hall] Hnow.
    unfold Crawler.afterCheck, log, setWorld, expired. cbn.
    assert (DeadlineCheck true ∈ trace s ++
              [DeadlineCheck (limitReached startTime timeLimit now)] →
            limitReached startTime timeLimit now = true) as Hnew.
    { intros [Hin|Hin%list_elem_of_singleton]%elem_of_app; [|congruence].
      specialize (Hexp Hin). by rewrite Hnow in Hexp. }
    split.
    + intros Hin. specialize (Hnew Hin). pose proof (clock_monotone (world s)) as Hm.
      rewrite Hnow in Hm. cbn in Hm. unfold limitReached in *.
      apply bool_decide_eq_true in Hnew. apply bool_decide_eq_true. lia.
    + apply atEach_snoc; [done|]. intros Hin.
      rewrite Hnew; [done|]. apply elem_of_app. by left.
  - intros u s tr r w [Hexp Hall] _ Htr _.
    assert (DeadlineCheck true ∉ trace s) as Hlive.
    { rewrite Htr. intros [Hin|Hin]%elem_of_app.
      - rewrite Htr in Hall.
        apply (Hall (tr ++ [VisitedHas u false]) (DeadlineCheck false) []).
        + by rewrite <- app_assoc.
        + apply elem_of_app. by left.
      - by apply elem_of_cons in Hin as [|[|[]%elem_of_nil]%elem_of_cons]. }
    assert (∀ ok, DeadlineCheck true ∉ trace s ++ [VisitedAdd u; Scrape u ok])
      as Hlive'.
    { intros ok [Hin|Hin]%elem_of_app; [done|].
      by apply elem_of_cons in Hin as [|[|[]%elem_of_nil]%elem_of_cons]. }
    assert (∀ ok, atEach afterExpiry (trace s ++ [VisitedAdd u; Scrape u ok]))
      as Hall'.
    { intros ok. change [VisitedAdd u; Scrape u ok]
        with ([VisitedAdd u] ++ [Scrape u ok]).
      rewrite app_assoc. apply atEach_snoc; [apply atEach_snoc; [done|]|].
      - by intros Hin.
      - intros [Hin|Hin%list_elem_of_singleton]%elem_of_app; done. }
    destruct r as [d|]; unfold expired; cbn; (split; [|done]);
      intros Hin; by apply Hlive' in Hin.
Qed.

(** C8: the deadline is only looked at between fetches.  Every fetch comes
    right after a comparison that found the limit not reached, with only
    [visited.add] in between; a fetch that resolved has its record whatever
    the clock says afterwards; the step after a comparison that found the
    limit reached is never a fetch nor a call of [crawl] but the comparison
    of an enclosing loop, if any; and, with a clock that does not run
    backwards, every step after the first such comparison is a comparison
    that finds the limit reached. *)
Theorem deadline_is_cooperative fuel seed timeLimit (w : World) :
  let s := stateOf (crawlSite dateNow scrapePageData fuel seed timeLimit w) in
  (∀ pre u ok post, trace s = pre ++ Scrape u ok :: post →
     ∃ pre', pre = pre' ++ [DeadlineCheck false; VisitedAdd u])
  ∧ url <$> allData s = recorded (trace s)
  ∧ (∀ pre e post, trace s = pre ++ DeadlineCheck true :: e :: post →
     ∃ expired, e = DeadlineCheck expired)
  ∧ (∀ pre post, trace s = pre ++ DeadlineCheck true :: post →
     ∀ e, e ∈ post → e = DeadlineCheck true).
Proof.
  intros s.
  destruct (crawlSite_consistent dateNow scrapePageData fuel seed timeLimit w)
    as (_ & _ & _ & Hrec & Hg & _).
  fold s in Hrec, Hg.
  assert (expiryThenCheck (trace s)) as Hnext.
  { unfold s. rewrite crawlSite_state.
    apply crawl_expiryThenCheck; [|done]. intros pre e post Heq. by destruct pre. }
  split_and!; [|done|done|].
  - intros pre u ok post Heq.
    destruct (Hg pre _ post Heq u ok eq_refl) as [pre' ->].
    exists (pre' ++ [VisitedHas u false]). by rewrite <- app_assoc.
  - assert (atEach afterExpiry (trace s)) as Hall.
    { unfold s. rewrite crawlSite_state.
      apply crawl_afterExpiry. split; [by intros []%elem_of_nil|apply atEach_nil]. }
    intros pre post. revert pre.
    induction post as [|e post IH]; intros pre Heq e' Hin.
    { by apply elem_of_nil in Hin. }
    assert (e = DeadlineCheck true) as ->.
    { destruct (Hnext pre e post Heq) as [expired ->].
      specialize (Hall (pre ++ [DeadlineCheck true]) (DeadlineCheck expired) post).
      rewrite <- app_assoc in Hall. specialize (Hall Heq).
      unfold afterExpiry in Hall. destruct expired; [done|].
      destruct Hall. apply elem_of_app. right. by left. }
    apply elem_of_cons in Hin as [->|Hin]; [done|].
    apply (IH (pre ++ [DeadlineCheck true])); [|done].
    by rewrite <- app_assoc.
Qed.

End Deadline.

(** *** The filter pass *)

Lemma trimEnd_snoc (t : text) (c : N) :
  trimEnd (t ++ [c]) = if isWhiteSpace c then trimEnd t else t ++ [c].
Proof.
  unfold trimEnd. rewrite reverse_app. change (reverse [c]) with [c].
  cbn [app trimStart]. destruct (isWhiteSpace c); [done|].
  by rewrite reverse_cons, reverse_involutive.
Qed.

Lemma isWord_snoc (cur : text) (c : N) :
  Forall (λ c, isWhiteSpace c = false) cur → isWhiteSpace c = false →
  isWord (cur ++ [c]).
Proof.
  intros Hcur Hc. split; [by destruct cur|].
  apply Forall_app. split; [done|]. by apply Forall_singleton.
Qed.

Lemma trimEnd_word (pre cur : text) :
  isWord cur → trimEnd (pre ++ cur) = pre ++ cur.
Proof.
  intros [Hne Hcur]. destruct (exists_last Hne) as (cur' & c & ->).
  apply Forall_app in Hcur as [_ Hc]. rewrite Forall_singleton in Hc.
  by rewrite app_assoc, trimEnd_snoc, Hc.
Qed.

Lemma splitWords_nonempty (t cur : text) : cur ≠ [] → splitWords t cur ≠ [].
Proof.
  revert cur. induction t as [|c r IH]; intros cur Hne; cbn.
  - by destruct cur.
  - destruct (isWhiteSpace c); [by destruct cur|].
    apply IH. by destruct cur.
Qed.

Lemma joinWords_cons (w : text) (ws : list text) :
  ws ≠ [] → joinWords (w :: ws) = w ++ SPACE :: joinWords ws.
Proof. by destruct ws. Qed.

Lemma trimEnd_replaceRuns (t : text) :
  (∀ pre cur, isWord cur →
     trimEnd (pre ++ cur ++ replaceRuns false t)
     = pre ++ joinWords (splitWords t cur))
  ∧ (∀ pre cur, isWord cur →
       trimEnd (pre ++ cur ++ SPACE :: replaceRuns true t)
       = pre ++ joinWords (cur :: splitWords t [])).
Proof.
  induction t as [|c r [IH1 IH2]]; split; intros pre cur Hw.
  - cbn. rewrite app_nil_r. destruct cur as [|x cur]; [by destruct Hw|].
    cbn. rewrite app_nil_r. by apply (trimEnd_word pre (x :: cur)).
  - cbn. rewrite app_nil_r. rewrite !app_assoc, trimEnd_snoc. cbn.
    by apply trimEnd_word.
  - cbn [replaceRuns splitWords]. destruct (isWhiteSpace c) eqn:Hc.
    + destruct cur as [|x cur]; [by destruct Hw|]. by apply IH2.
    + change (c :: replaceRuns false r) with ([c] ++ replaceRuns false r).
      rewrite (app_assoc cur). apply IH1. apply isWord_snoc; [apply Hw|done].
  - cbn [replaceRuns splitWords]. destruct (isWhiteSpace c) eqn:Hc.
    + by apply IH2.
    + cbn [app].
      rewrite joinWords_cons by by apply splitWords_nonempty.
      specialize (IH1 (pre ++ cur ++ [SPACE]) [c]).
      rewrite <- !app_assoc in IH1. cbn in IH1. apply IH1.
      by apply (isWord_snoc []).
Qed.

Lemma trimStart_replaceRuns (t : text) (inRun : bool) :
  trimStart (replaceRuns inRun t) = replaceRuns false (trimStart t).
Proof.
  revert inRun. induction t as [|c r IH]; intros inRun; [done|].
  cbn. destruct (isWhiteSpace c) eqn:Hc.
  - destruct inRun; [apply IH|]. cbn. apply IH.
  - cbn. by rewrite Hc.
Qed.

Lemma words_trimStart (t : text) : words (trimStart t) = words t.
Proof.
  unfold words. induction t as [|c r IH]; [done|]. cbn.
  destruct (isWhiteSpace c) eqn:Hc; [done|]. cbn. by rewrite Hc.
Qed.

Lemma trimStart_head (t r : text) (c : N) :
  trimStart t = c :: r → isWhiteSpace c = false.
Proof.
  induction t as [|x t IH]; [done|]. cbn.
  destruct (isWhiteSpace x) eqn:Hx; [done|]. by intros [= <- _].
Qed.

(** What [replace(/\s+/g, ' ').trim()] computes: the words of the text,
    joined by single spaces. *)
Lemma trim_replaceRuns (t : text) :
  trim (replaceRuns false t) = joinWords (words t).
Proof.
  unfold trim. rewrite trimStart_replaceRuns, <- words_trimStart.
  destruct (trimStart t) as [|c r] eqn:Hstart; [done|].
  apply trimStart_head in Hstart. cbn [replaceRuns]. rewrite Hstart.
  destruct (trimEnd_replaceRuns r) as [Hrun _].
  specialize (Hrun [] [c] (isWord_snoc [] c (Forall_nil_2 _) Hstart)).
  cbn [app] in Hrun. rewrite Hrun. unfold words. cbn [splitWords].
  by rewrite Hstart.
Qed.

Lemma splitWords_isWord (t cur : text) :
  Forall (λ c, isWhiteSpace c = false) cur →
  Forall isWord (splitWords t cur).
Proof.
  revert cur. induction t as [|c r IH]; intros cur Hcur; cbn.
  - destruct cur as [|x cur]; [done|]. by apply Forall_singleton.
  - destruct (isWhiteSpace c) eqn:Hc.
    + destruct cur as [|x cur]; [by apply IH|].
      apply Forall_cons. split; [done|]. by apply IH.
    + apply IH, Forall_app. split; [done|]. by apply Forall_singleton.
Qed.

Lemma splitWords_app_word (w t cur : text) :
  Forall (λ c, isWhiteSpace c = false) w →
  splitWords (w ++ t) cur = splitWords t (cur ++ w).
Proof.
  revert cur. induction w as [|c w IH]; intros cur Hw; cbn.
  { by rewrite app_nil_r. }
  apply Forall_cons in Hw as [Hc Hw]. rewrite Hc, IH by done.
  by rewrite <- app_assoc.
Qed.

Lemma splitWords_separated (ws : list text) (cur : text) :
  Forall isWord ws → isWord cur →
  splitWords (concat ((λ w, SPACE :: w) <$> ws)) cur = cur :: ws.
Proof.
  revert cur. induction ws as [|w ws IH]; intros cur Hws Hcur; cbn.
  - by destruct cur; [destruct Hcur|].
  - apply Forall_cons in Hws as [Hw Hws].
    destruct cur as [|x cur]; [by destruct Hcur|].
    rewrite splitWords_app_word by apply Hw. cbn. f_equal. by apply IH.
Qed.

Lemma words_joinWords (ws : list text) :
  Forall isWord ws → words (joinWords ws) = ws.
Proof.
  intros Hws. destruct ws as [|w ws]; [done|].
  apply Forall_cons in Hws as [Hw Hws]. unfold words. cbn.
  rewrite splitWords_app_word by apply Hw. cbn.
  by apply splitWords_separated.
Qed.

(** C7: [filterData] applied to its own output gives that output again.
    Its links and images are those of the page without duplicates, in the
    order of their first occurrence.  Its text is the words of the page's
    text joined by single spaces: every run of whitespace is one space and
    there is none at either end. *)
Theorem filterData_is_idempotent (d : PageData) :
  filterData (filterData d) = filterData d
  ∧ links (filterData d) = keepFirst (links d)
  ∧ images (filterData d) = keepFirst (images d)
  ∧ NoDup (links (filterData d))
  ∧ NoDup (images (filterData d))
  ∧ (∀ u, (u ∈ links (filterData d) ↔ u ∈ links d)
          ∧ (u ∈ images (filterData d) ↔ u ∈ images d))
  ∧ textContent (filterData d) = joinWords (words (textContent d))
  ∧ Forall isWord (words (textContent d))
  ∧ htmlContent (filterData d) = htmlContent d.
Proof.
  assert (Forall isWord (words (textContent d))) as Hwords
    by by apply splitWords_isWord.
  unfold filterData. cbn [links images textContent htmlContent].
  rewrite !trim_replaceRuns, !JsFacts.uniq_idempotent, !JsFacts.uniq_keepFirst.
  split_and!; try done.
  - by rewrite words_joinWords.
  - apply JsFacts.NoDup_keepFirst.
  - apply JsFacts.NoDup_keepFirst.
  - intros u. split; apply JsFacts.elem_of_keepFirst.
Qed.

(** The pass on a text with spaces, a tab, a line feed, a no-break space
    and a line separator around and between the words [ab] and [cd]. *)
Example filterData_text :
  textContent (filterData
    (mkPageData [] [] [32; 32; 97; 98; 32; 9; 10; 160; 99; 100; 8232]%N []))
  = utf16 "ab cd".
Proof. reflexivity. Qed.

(** *** The command line program *)

Lemma length_append (a b : string) :
  String.length (a +:+ b) = (String.length a + String.length b)%nat.
Proof. induction a as [|c a IH]; [done|]. rewrite append_cons. cbn. by rewrite IH. Qed.

Section MainFacts.
Context {World : Type}.
Variable dateNow : World → Z * World.
Variable scrapePageData : string → World → option PageData * World.

(** C9: when the crawl returns an empty result, [main] has written the
    result file when [filterData(data[0])] throws on the missing first
    element; the error is caught and the filtered file is not written. *)
Theorem empty_result_breaks_the_filter_step fuel seed t (w : World) s :
  seed ≠ EmptyString →
  (0 < t)%Z →
  scrapperFunc dateNow scrapePageData fuel seed t w = Resolved [] s →
  let run := main dateNow scrapePageData fuel seed (Int t) w in
  run = mkRun [(fileNameOf seed, ResultJson [])] CaughtTypeError
  ∧ ("filtered_" +:+ fileNameOf seed ∉ (written run).*1)
  ∧ (∀ name data, (name, FilteredJson data) ∉ written run).
Proof.
  intros Hseed Ht Hrun run.
  assert (run = mkRun [(fileNameOf seed, ResultJson [])] CaughtTypeError) as ->.
  { unfold run, main. rewrite bool_decide_eq_false_2 by done.
    rewrite bool_decide_eq_false_2 by lia. by rewrite Hrun. }
  split_and!; [done|..]; cbn.
  - intros Hin%list_elem_of_singleton.
    apply (f_equal String.length) in Hin. rewrite length_append in Hin.
    cbn in Hin. lia.
  - by intros name data [=]%list_elem_of_singleton.
Qed.

End MainFacts.

(** *** The three small sites *)

(** C1, as stated, fails.  On the page [https://x.com/a/b] of [scopeWeb] the
    link [https://x.com/a/c] has the seed as a prefix and is not followed,
    with thirty seconds of budget left.  And on the seed page of [treeWeb],
    where a page takes 600 ms to load and the budget is one second, the
    second link has the seed as a prefix and is not followed, the deadline
    having passed. *)
Lemma seed_prefix_link_not_followed :
  ¬ followsSeedPrefix clockNow (staticScrape scopeWeb 10) 10
      "https://x.com/a" 30 0%Z
  ∧ ¬ followsSeedPrefix clockNow (staticScrape treeWeb 600) 10
        "https://x.com/a" 1 0%Z.
Proof.
  split; intros H.
  - specialize (H (mkPageRecord "https://x.com/a/b" (linksOnly ["https://x.com/a/c"]))
                  "https://x.com/a/c").
    cbn zeta in H.
    assert (entered (trace (stateOf (crawlSite clockNow (staticScrape scopeWeb 10)
              10 "https://x.com/a" 30 0%Z))) = ["https://x.com/a"; "https://x.com/a/b"])
      as Hentered by (vm_compute; reflexivity).
    assert (allData (stateOf (crawlSite clockNow (staticScrape scopeWeb 10)
              10 "https://x.com/a" 30 0%Z)) =
            [mkPageRecord "https://x.com/a"
               (linksOnly ["https://x.com/a/b"; "https://x.com/other"; "https://y.com/a"]);
             mkPageRecord "https://x.com/a/b" (linksOnly ["https://x.com/a/c"])])
      as Hdata by (vm_compute; reflexivity).
    rewrite Hentered, Hdata in H.
    assert ("https://x.com/a/c" ∈ ["https://x.com/a"; "https://x.com/a/b"]) as Hin.
    { apply H; [by_evaluation|by_evaluation|reflexivity]. }
    revert Hin. by_evaluation.
  - specialize (H (mkPageRecord "https://x.com/a"
                     (linksOnly ["https://x.com/a/b"; "https://x.com/a/c"]))
                  "https://x.com/a/c").
    cbn zeta in H.
    assert (entered (trace (stateOf (crawlSite clockNow (staticScrape treeWeb 600)
              10 "https://x.com/a" 1 0%Z))) = ["https://x.com/a"; "https://x.com/a/b"])
      as Hentered by (vm_compute; reflexivity).
    assert (allData (stateOf (crawlSite clockNow (staticScrape treeWeb 600)
              10 "https://x.com/a" 1 0%Z)) =
            [mkPageRecord "https://x.com/a"
               (linksOnly ["https://x.com/a/b"; "https://x.com/a/c"]);
             mkPageRecord "https://x.com/a/b" (linksOnly ["https://x.com/a/b/d"])])
      as Hdata by (vm_compute; reflexivity).
    rewrite Hentered, Hdata in H.
    assert ("https://x.com/a/c" ∈ ["https://x.com/a"; "https://x.com/a/b"]) as Hin.
    { apply H; [by_evaluation|by_evaluation|reflexivity]. }
    revert Hin. by_evaluation.
Qed.

(** C2 does not hold of the code.  On [brokenWeb], where the first link of
    the seed cannot be loaded, the crawl rejects at that fetch: the second
    link of the seed is never reached, no result is returned, and [main]
    catches the error and writes no file. *)
Theorem broken_link_aborts_the_crawl :
  let o := crawlSite clockNow (staticScrape brokenWeb 10) 10
             "https://x.com/a" 30 0%Z in
  scraped (trace (stateOf o)) = ["https://x.com/a"; "https://x.com/a/b"]
  ∧ last (trace (stateOf o)) = Some (Scrape "https://x.com/a/b" false)
  ∧ ("https://x.com/a/c" ∉ entered (trace (stateOf o)))
  ∧ o = Rejected (stateOf o)
  ∧ main clockNow (staticScrape brokenWeb 10) 10 "https://x.com/a"
      (Int 30) 0%Z = mkRun [] CaughtScrapeError.
Proof.
  cbn zeta.
  assert (match crawlSite clockNow (staticScrape brokenWeb 10) 10
                  "https://x.com/a" 30 0%Z with
          | Rejected s =>
              scraped (trace s) = ["https://x.com/a"; "https://x.com/a/b"]
              ∧ last (trace s) = Some (Scrape "https://x.com/a/b" false)
              ∧ Is_true (bool_decide ("https://x.com/a/c" ∉ entered (trace s)))
          | _ => False
          end) as H by (vm_compute; split_and!; [reflexivity..|exact I]).
  destruct (crawlSite _ _ _ _ _ _) as [| s |]; [destruct H| |destruct H].
  destruct H as (Hscraped & Hlast & Hskipped%bool_decide_unpack). cbn.
  split_and!; [done..|vm_compute; reflexivity].
Qed.

Lemma followed_links_start_with_seed_witness :
  let s := stateOf (crawlSite clockNow (staticScrape scopeWeb 10) 10
                      "https://x.com/a" 30 0%Z) in
  (DeadlineCheck true ∉ trace s)
  ∧ ("https://x.com/a/b" ∈ entered (trace s))
  ∧ ("https://x.com/other" ∉ entered (trace s))
  ∧ ("https://y.com/a" ∉ entered (trace s)).
Proof.
  intros s.
  destruct (followed_links_start_with_seed clockNow (staticScrape scopeWeb 10)
              10 "https://x.com/a" 30 0%Z) as [Honly Hseed].
  assert (DeadlineCheck true ∉ trace s) as Hlive.
  { by_evaluation. }
  destruct (crawlSite clockNow (staticScrape scopeWeb 10) 10 "https://x.com/a" 30 0%Z)
    as [data s'| |] eqn:Hrun; [|vm_compute in Hrun; done..].
  destruct (Hseed data s' eq_refl Hlive) as (d & rest & Hdata & Hiff).
  assert (links d =
            ["https://x.com/a/b"; "https://x.com/other"; "https://y.com/a"]) as Hd.
  { assert (head data = Some (mkPageRecord "https://x.com/a"
              (linksOnly ["https://x.com/a/b"; "https://x.com/other"; "https://y.com/a"])))
      as Hhead by (vm_compute in Hrun; by injection Hrun as <- _).
    rewrite Hdata in Hhead. by injection Hhead as ->. }
  rewrite Hd in Hiff. split_and!; [done|..].
  - apply Hiff; [by_evaluation|reflexivity].
  - intros Hin. apply Honly in Hin. done.
  - intros Hin. apply Honly in Hin. done.
Defined.

Lemma deadline_is_cooperative_witness :
  (∀ w, ((clockNow w).1 ≤ (clockNow (clockNow w).2).1)%Z)
  ∧ let s := stateOf (crawlSite clockNow (staticScrape treeWeb 600) 10
                        "https://x.com/a" 1 0%Z) in
    scraped (trace s) = ["https://x.com/a"; "https://x.com/a/b"]
    ∧ ∀ pre post, trace s = pre ++ DeadlineCheck true :: post →
        ∀ e, e ∈ post → e = DeadlineCheck true.
Proof.
  split; [intros w; cbn; lia|]. intros s. split; [vm_compute; reflexivity|].
  apply (deadline_is_cooperative clockNow (staticScrape treeWeb 600)).
  intros w. cbn. lia.
Defined.

Lemma crawl_returns_the_pages_in_preorder_witness :
  ∃ data s,
    crawlSite (unlimited clockNow) (staticScrape treeWeb 10) 5
      "https://x.com/a" 30 0%Z = Resolved data s
    ∧ url <$> data
      = ["https://x.com/a"; "https://x.com/a/b"; "https://x.com/a/b/d";
         "https://x.com/a/c"]
    ∧ preorder (followed treeWeb) ["https://x.com/a"] ∅ (url <$> data).
Proof.
  destruct (crawl_returns_the_pages_in_preorder (unlimited clockNow)
              (staticScrape treeWeb 10) 5 "https://x.com/a" 30 0%Z treeWeb
              ["https://x.com/a"; "https://x.com/a/b"; "https://x.com/a/c";
               "https://x.com/a/b/d"])
    as (data & s & Hrun & Hpre & _).
  - intros u w'. reflexivity.
  - by_evaluation.
  - intros u Hu. apply Forall_forall. revert u Hu. apply Forall_forall.
    by_evaluation.
  - apply Forall_forall. by_evaluation.
  - intros w'. reflexivity.
  - cbn. lia.
  - exists data, s. split_and!; [done| |done].
    assert (match crawlSite (unlimited clockNow) (staticScrape treeWeb 10) 5
                    "https://x.com/a" 30 0%Z with
            | Resolved data s =>
                url <$> data = ["https://x.com/a"; "https://x.com/a/b";
                                "https://x.com/a/b/d"; "https://x.com/a/c"]
            | _ => False
            end) as H by (vm_compute; reflexivity).
    by rewrite Hrun in H.
Defined.

(** C4 does not hold of the code.  On [siblingWeb], where A links to B and
    C, and B to D, every page below the seed A, the walk C4 describes,
    which follows the links that have the seed as a prefix, visits A, B, D,
    C, and no other order is a pre-order of that graph.  The crawl, with a
    limit of 30 seconds that is not reached and every page loading, returns
    the records of A, B and C: D is not below B, the page that links to it,
    and [crawl] is never invoked on it. *)
Theorem result_order_misses_pages_under_the_seed :
  let seed := "https://x.com/a" in
  let run := crawlSite clockNow (staticScrape siblingWeb 10) 5 seed 30 0%Z in
  (∀ order,
     preorder (inScope seed siblingWeb) [seed] ∅ order ↔
     order = ["https://x.com/a"; "https://x.com/a/b"; "https://x.com/a/d";
              "https://x.com/a/c"])
  ∧ ∃ data s,
      run = Resolved data s
      ∧ url <$> data
        = ["https://x.com/a"; "https://x.com/a/b"; "https://x.com/a/c"]
      ∧ (DeadlineCheck true ∉ trace s)
      ∧ noFailure (trace s)
      ∧ ("https://x.com/a/d" ∉ entered (trace s))
      ∧ ¬ preorder (inScope seed siblingWeb) [seed] ∅ (url <$> data).
Proof.
  intros seed run.
  assert (preorder (inScope seed siblingWeb) [seed] ∅
            ["https://x.com/a"; "https://x.com/a/b"; "https://x.com/a/d";
             "https://x.com/a/c"]) as Hwalk.
  { repeat first
      [ apply preorder_done
      | apply preorder_visit;
        [by_evaluation
        |match goal with
         | |- preorder ?c ?stack ?seen ?out =>
             let stack' := eval vm_compute in stack in
             change (preorder c stack' seen out)
         end] ]. }
  split.
  - intros order. split; [|by intros ->].
    intros Horder. exact (preorder_functional _ _ _ _ _ Horder Hwalk).
  - assert (match run with
            | Resolved data s =>
                url <$> data
                = ["https://x.com/a"; "https://x.com/a/b"; "https://x.com/a/c"]
                ∧ Is_true (bool_decide (DeadlineCheck true ∉ trace s))
                ∧ Is_true (forallb (λ e, match e with
                                         | Scrape _ false => false
                                         | _ => true
                                         end) (trace s))
                ∧ Is_true (bool_decide
                    ("https://x.com/a/d" ∉ entered (trace s)))
            | _ => False
            end) as H.
    { vm_compute. split_and!; [reflexivity|exact I..]. }
    destruct run as [data s| |]; [|destruct H..].
    destruct H as (Hdata & Hlive%bool_decide_unpack & Hok%forallb_True
                   & Hd%bool_decide_unpack).
    exists data, s. split_and!; [done..| |done|].
    + intros u Hu. rewrite Forall_forall in Hok. by apply (Hok _ Hu).
    + rewrite Hdata. intros Hpre.
      by pose proof (preorder_functional _ _ _ _ _ Hpre Hwalk).
Qed.

Lemma expired_deadline_stops_at_seed_witness :
  (∃ s, crawlSite clockNow (staticScrape treeWeb 10) 1 "https://x.com/a" 0 0%Z
          = Resolved [] s
        ∧ trace s = [VisitedHas "https://x.com/a" false; DeadlineCheck true])
  ∧ (∃ s, crawlSite clockNow (staticScrape treeWeb 1500) 1 "https://x.com/a" 1 0%Z
            = Resolved [mkPageRecord "https://x.com/a"
                          (linksOnly ["https://x.com/a/b"; "https://x.com/a/c"])] s
          ∧ scraped (trace s) = ["https://x.com/a"]
          ∧ entered (trace s) = ["https://x.com/a"]).
Proof.
  split.
  - pose proof (expired_deadline_stops_at_seed clockNow (staticScrape treeWeb 10)
                  0 "https://x.com/a" 0 0%Z) as [Hentry _].
    apply Hentry. left. cbn. lia.
  - pose proof (expired_deadline_stops_at_seed clockNow (staticScrape treeWeb 1500)
                  0 "https://x.com/a" 1 0%Z) as [_ Hfetch].
    apply (Hfetch eq_refl _ 1500%Z); vm_compute; reflexivity.
Defined.

Lemma empty_result_breaks_the_filter_step_witness :
  main (steppingNow 5000) (staticScrape treeWeb 10) 5 "https://x.com/a" (Int 1) 0%Z
  = mkRun [("x.com_a.json", ResultJson [])] CaughtTypeError.
Proof.
  assert (match scrapperFunc (steppingNow 5000) (staticScrape treeWeb 10) 5
                  "https://x.com/a" 1 0%Z with
          | Resolved data _ => data = []
          | _ => False
          end) as Hempty by (vm_compute; reflexivity).
  destruct (scrapperFunc _ _ _ _ _ _) as [data s| |] eqn:Hrun; [|done..].
  subst data.
  by destruct (empty_result_breaks_the_filter_step (steppingNow 5000)
                 (staticScrape treeWeb 10) 5 "https://x.com/a" 1 0%Z s
                 ltac:(done) ltac:(lia) Hrun) as [-> _].
Defined.

(** *** Where the crawl goes *)

Lemma elem_of_scraped tr u : u ∈ scraped tr ↔ ∃ ok, Scrape u ok ∈ tr.
Proof.
  unfold scraped. rewrite list_elem_of_omap. split.
  - intros ([| | |v ok] & Hin & [= <-]). by exists ok.
  - intros [ok Hin]. by exists (Scrape u ok).
Qed.

Lemma elem_of_recorded tr u : u ∈ recorded tr ↔ Scrape u true ∈ tr.
Proof.
  unfold recorded. rewrite list_elem_of_omap. split.
  - by intros ([| | |v [|]] & Hin & [= <-]).
  - intros Hin. by exists (Scrape u true).
Qed.

Lemma elem_of_entered tr u : u ∈ entered tr ↔ ∃ seen, VisitedHas u seen ∈ tr.
Proof.
  unfold entered. rewrite list_elem_of_omap. split.
  - intros ([v seen| | |] & Hin & [= <-]). by exists seen.
  - intros [seen Hin]. by exists (VisitedHas u seen).
Qed.

(** A URL whose fetch was started is one [crawl] was invoked on. *)
Lemma scraped_entered {World} (s : Store World) u :
  consistent s → u ∈ scraped (trace s) → u ∈ entered (trace s).
Proof.
  intros (_ & _ & _ & _ & Hg & _) [ok Hin]%elem_of_scraped.
  apply list_elem_of_split in Hin as (pre & post & Heq).
  destruct (Hg pre _ post Heq u ok eq_refl) as [pre' ->].
  rewrite Heq. apply elem_of_entered. exists false.
  rewrite <- !app_assoc. apply elem_of_app. right. by left.
Qed.

Section Reach.
Context {World : Type}.
Variable dateNow : World → Z * World.
Variable scrapePageData : string → World → option PageData * World.
Variables startTime timeLimit : Z.
Variable seed : string.

Local Abbreviation crawl := (crawl dateNow scrapePageData startTime timeLimit).
Local Abbreviation forLinks := (forLinks dateNow startTime timeLimit).
Local Abbreviation afterCheck := (afterCheck startTime timeLimit).
Local Abbreviation known s := (∀ v, v ∈ entered (trace s) → discovered seed s v).

Lemma discovered_extends (s s' : Store World) v :
  extends s s' → discovered seed s v → discovered seed s' v.
Proof.
  intros (_ & [new Hdata] & _) [->|(r & Hr & Hv & Hpre)]; [by left|right].
  exists r. split; [|done]. rewrite Hdata. apply elem_of_app. by left.
Qed.

Lemma crawl_discovered n : ∀ u (s : Store World),
  known s → discovered seed s u → known (stateOf (crawl n u s)).
Proof.
  induction n as [|n IH]; intros u s Hs Hu; [done|].
  rewrite crawl_S. cbn zeta.
  assert (known (afterHas u s)) as H1.
  { intros v. unfold afterHas, log. cbn. rewrite entered_app. cbn.
    intros [Hin| ->%list_elem_of_singleton]%elem_of_app; [by apply Hs|done]. }
  destruct (bool_decide (u ∈ visited s)); [done|].
  destruct (dateNow (world (afterHas u s))) as [now w].
  assert (∀ (s1 : Store World) now w, known s1 → known (afterCheck now w s1))
    as Hcheck.
  { intros s1 now1 w1 Hs1 v. unfold Crawler.afterCheck, log. cbn.
    rewrite entered_app. cbn. rewrite app_nil_r. apply Hs1. }
  pose proof (Hcheck _ now w H1) as H2.
  destruct (limitReached startTime timeLimit now); [done|].
  destruct (scrapePageData u _) as [[d|] w'].
  - set (s3 := afterVisit u (Some d) w' _).
    assert (known s3) as H3.
    { intros v. unfold s3. cbn. rewrite entered_app. cbn. rewrite app_nil_r.
      intros Hv. destruct (H2 v Hv) as [->|(r & Hr & Hl & Hpre)]; [by left|right].
      exists r. split; [|done]. cbn. apply elem_of_app. by left. }
    assert (∀ l, l ∈ links d → startsWith l u = true → discovered seed s3 l)
      as Hlinks.
    { intros l Hl Hpre. right. exists (mkPageRecord u d). split; [|done].
      unfold s3. cbn. apply elem_of_app. right. by left. }
    clearbody s3. clear H1 H2 Hs Hu. revert s3 H3 Hlinks.
    generalize (links d). clear d.
    induction l as [|link rest IHls]; intros s1 Hs1 Hlinks; [done|].
    rewrite forLinks_cons. destruct (dateNow (world s1)) as [now1 w1]. cbn zeta.
    pose proof (Hcheck s1 now1 w1 Hs1) as H2.
    assert (extends s1 (afterCheck now1 w1 s1)) as Hext.
    { unfold Crawler.afterCheck, log, setWorld.
      split_and!; cbn; [done..|]. by apply prefix_app_r. }
    destruct (limitReached startTime timeLimit now1); [done|].
    destruct (startsWith link u) eqn:Hpre.
    + assert (discovered seed (afterCheck now1 w1 s1) link) as Hlink.
      { eapply discovered_extends; [done|]. apply Hlinks; [by left|done]. }
      pose proof (IH link _ H2 Hlink) as H4.
      pose proof (crawl_extends dateNow scrapePageData startTime timeLimit
                    n link (afterCheck now1 w1 s1)) as Hext4.
      destruct (crawl n link (afterCheck now1 w1 s1)) as [[] s4| |]; [|done..].
      cbn in H4, Hext4. apply IHls; [done|].
      intros l Hl Hl'. eapply discovered_extends.
      * eapply extends_trans; done.
      * apply Hlinks; [by right|done].
    + apply IHls; [done|]. intros l Hl Hl'.
      eapply discovered_extends; [done|]. apply Hlinks; [by right|done].
  - intros v. cbn. rewrite entered_app. cbn. rewrite app_nil_r. apply H2.
Qed.

End Reach.

Section ReachSite.
Context {World : Type}.
Variable dateNow : World → Z * World.
Variable scrapePageData : string → World → option PageData * World.

(** X1: every URL [crawl] is invoked on, and so every URL fetched or
    recorded, is the seed or a link found on a page already recorded whose
    own URL is a literal prefix of it. *)
Theorem fetched_urls_are_links_below_a_recorded_page fuel seed timeLimit (w : World) :
  let s := stateOf (crawlSite dateNow scrapePageData fuel seed timeLimit w) in
  (∀ v, v ∈ entered (trace s) → discovered seed s v)
  ∧ (∀ v, v ∈ scraped (trace s) → discovered seed s v)
  ∧ (∀ r, r ∈ allData s → discovered seed s (url r)).
Proof.
  intros s.
  assert (∀ v, v ∈ entered (trace s) → discovered seed s v) as Hknown.
  { unfold s. rewrite crawlSite_state. apply crawl_discovered; [|by left].
    by intros v []%elem_of_nil. }
  pose proof (crawlSite_consistent dateNow scrapePageData fuel seed timeLimit w)
    as Hcons.
  fold s in Hcons.
  assert (∀ v, v ∈ scraped (trace s) → discovered seed s v) as Hscraped.
  { intros v Hv. by apply Hknown, scraped_entered. }
  split_and!; [done..|].
  intros r Hr. apply Hscraped.
  destruct Hcons as (_ & _ & _ & Hrec & _).
  apply elem_of_scraped. exists true. apply elem_of_recorded.
  rewrite <- Hrec. by apply list_elem_of_fmap_2.
Qed.

End ReachSite.

(** *** The time limit as a budget *)

Section Budget.
Context {World : Type}.
Variable dateNow : World → Z * World.
Variable scrapePageData : string → World → option PageData * World.

(** Time passes: [clockFloor w] is a time that every later reading of the
    clock has reached, and loading a page takes [cost] milliseconds or
    more. *)
Variable clockFloor : World → Z.
Variable cost : Z.
Hypothesis cost_positive : (0 < cost)%Z.
Hypothesis now_floor : ∀ w,
  (clockFloor w ≤ (dateNow w).1 ∧ (dateNow w).1 ≤ clockFloor (dateNow w).2)%Z.
Hypothesis scrape_floor : ∀ u w,
  (clockFloor w + cost ≤ clockFloor (scrapePageData u w).2)%Z.

Variables startTime timeLimit : Z.

Local Abbreviation crawl := (crawl dateNow scrapePageData startTime timeLimit).
Local Abbreviation forLinks := (forLinks dateNow startTime timeLimit).
Local Abbreviation afterCheck := (afterCheck startTime timeLimit).
Local Abbreviation withinBudget := (withinBudget clockFloor cost startTime timeLimit).
Local Abbreviation fetches s := (Z.of_nat (length (scraped (trace s)))).

Lemma withinBudget_has u (s : Store World) :
  withinBudget s → withinBudget (afterHas u s).
Proof.
  intros (Hfloor & Hlast & Hnext). unfold Crawler.withinBudget, afterHas, log.
  cbn. rewrite scraped_app. cbn. rewrite app_nil_r, last_snoc.
  split_and!; done.
Qed.

Lemma withinBudget_check (s : Store World) now w :
  withinBudget s → dateNow (world s) = (now, w) →
  withinBudget (afterCheck now w s)
  ∧ (limitReached startTime timeLimit now = false →
     (cost * fetches s < 1000 * timeLimit)%Z).
Proof.
  intros (Hfloor & Hlast & Hnext) Hnow.
  pose proof (now_floor (world s)) as Hclock. rewrite Hnow in Hclock.
  cbn in Hclock.
  assert (limitReached startTime timeLimit now = false →
          (cost * fetches s < 1000 * timeLimit)%Z) as Hroom.
  { unfold limitReached. intros Hlim%bool_decide_eq_false. lia. }
  split; [|done].
  unfold Crawler.withinBudget, Crawler.afterCheck, log, setWorld. cbn.
  rewrite scraped_app. cbn. rewrite app_nil_r, last_snoc.
  split_and!; [lia|done|]. intros [= Hlim]. by apply Hroom.
Qed.

Lemma withinBudget_visit u (s : Store World) r w :
  withinBudget s → last (trace s) = Some (DeadlineCheck false) →
  scrapePageData u (world s) = (r, w) →
  withinBudget (afterVisit u r w s)
  ∧ fetches (afterVisit u r w s) = (fetches s + 1)%Z.
Proof.
  intros (Hfloor & Hlast & Hnext) Hcheck Hscr.
  pose proof (scrape_floor u (world s)) as Hcost. rewrite Hscr in Hcost.
  cbn in Hcost. specialize (Hnext Hcheck).
  destruct r as [d|]; unfold Crawler.withinBudget; cbn;
    rewrite scraped_app; cbn; rewrite length_app; cbn;
    change (trace s ++ [VisitedAdd u; Scrape u ?ok])
      with (trace s ++ [VisitedAdd u] ++ [Scrape u ok]);
    rewrite app_assoc, last_snoc;
    (split_and!; [lia|right; lia|done|lia]).
Qed.

Lemma crawl_withinBudget n u (s : Store World) :
  withinBudget s → withinBudget (stateOf (crawl n u s)).
Proof.
  apply (crawl_invariant dateNow scrapePageData startTime timeLimit
           (λ _, True) withinBudget); clear n u s; try done.
  - intros u s _ Hs. by apply withinBudget_has.
  - intros s now w Hs Hnow. by apply withinBudget_check.
  - intros u s tr r w Hs _ Htr Hscr. apply withinBudget_visit; [done| |done].
    rewrite Htr.
    change [VisitedHas u false; DeadlineCheck false]
      with ([VisitedHas u false] ++ [DeadlineCheck false]).
    by rewrite app_assoc, last_snoc.
Qed.

Lemma fetches_extends (s s' : Store World) :
  extends s s' → (fetches s ≤ fetches s')%Z.
Proof.
  intros (_ & _ & [tr ->]). rewrite scraped_app, length_app. lia.
Qed.

(** With a budget of recursion that the time limit pays for, [crawl] comes
    to an end, whatever the pages link to. *)
Lemma crawl_finishes_in_time n : ∀ u (s : Store World),
  withinBudget s →
  (0 < n)%nat →
  (1000 * timeLimit - cost * fetches s < cost * Z.of_nat n)%Z →
  finished (crawl n u s).
Proof.
  induction n as [|n IH]; intros u s Hs Hn Hfuel; [lia|].
  rewrite crawl_S. cbn zeta.
  pose proof (withinBudget_has u s Hs) as H1.
  destruct (bool_decide (u ∈ visited s)); [done|].
  destruct (dateNow (world (afterHas u s))) as [now w] eqn:Hnow.
  destruct (withinBudget_check _ now w H1 Hnow) as [H2 Hroom].
  destruct (limitReached startTime timeLimit now) eqn:Hlim; [done|].
  destruct (scrapePageData u _) as [[d|] w'] eqn:Hscr; [|done].
  destruct (withinBudget_visit u _ (Some d) w' H2) as [H3 Hcount]; [|done|].
  { unfold Crawler.afterCheck, log. cbn. by rewrite last_snoc, Hlim. }
  set (s3 := afterVisit u (Some d) w' _) in *.
  assert (fetches s + 1 ≤ fetches s3)%Z as Hgrown.
  { rewrite Hcount. unfold Crawler.afterCheck, afterHas, log. cbn.
    rewrite !scraped_app. cbn. rewrite !app_nil_r. lia. }
  clearbody s3. clear Hcount Hscr H1 H2 Hroom Hnow Hlim.
  revert s3 H3 Hgrown. generalize (links d). clear d.
  induction l as [|link rest IHls]; intros s1 Hs1 Hgrown; [done|].
  rewrite forLinks_cons.
  destruct (dateNow (world s1)) as [now1 w1] eqn:Hnow1. cbn zeta.
  destruct (withinBudget_check _ now1 w1 Hs1 Hnow1) as [H2 Hroom].
  destruct (limitReached startTime timeLimit now1) eqn:Hlim; [done|].
  specialize (Hroom eq_refl).
  set (s2 := afterCheck now1 w1 s1) in *.
  assert (fetches s2 = fetches s1) as Hsame.
  { unfold s2, Crawler.afterCheck, log. cbn. rewrite scraped_app. cbn.
    by rewrite app_nil_r. }
  destruct (startsWith link u).
  - assert (finished (crawl n link s2)) as Hfin.
    { assert (cost * (fetches s + 1) ≤ cost * fetches s1)%Z as Hpaid
        by (apply Z.mul_le_mono_nonneg_l; lia).
      rewrite Nat2Z.inj_succ in Hfuel.
      assert (0 < cost * Z.of_nat n)%Z as Hn' by lia.
      apply IH; [done| |rewrite Hsame; lia].
      destruct n; [lia|lia]. }
    pose proof (crawl_withinBudget n link s2 H2) as H4.
    pose proof (fetches_extends _ _ (crawl_extends dateNow scrapePageData
                  startTime timeLimit n link s2)) as Hle.
    destruct (crawl n link s2) as [[] s4| |]; [|done..].
    cbn [stateOf] in H4, Hle. apply IHls; [done|lia].
  - apply IHls; [done|lia].
Qed.

End Budget.

Section BudgetSite.
Context {World : Type}.
Variable dateNow : World → Z * World.
Variable scrapePageData : string → World → option PageData * World.

(** X2: the time limit bounds the work.  When the clock does not run
    backwards and loading a page takes [cost] milliseconds or more, the last
    fetch of a crawl begins before the limit: the crawl fetches at most
    [1000 * timeLimit / cost] pages and one more; and it comes to an end
    whatever the site is, finite or not, within a depth of recursion that
    the limit pays for. *)
Theorem time_limit_bounds_the_fetches (clockFloor : World → Z) (cost : Z)
    fuel seed timeLimit (w : World) :
  (0 < cost)%Z →
  (∀ w, (clockFloor w ≤ (dateNow w).1
         ∧ (dateNow w).1 ≤ clockFloor (dateNow w).2)%Z) →
  (∀ u w, (clockFloor w + cost ≤ clockFloor (scrapePageData u w).2)%Z) →
  let o := crawlSite dateNow scrapePageData fuel seed timeLimit w in
  let fetches := Z.of_nat (length (scraped (trace (stateOf o)))) in
  (timeLimit ≤ 0 → fetches = 0)%Z
  ∧ (cost * (fetches - 1) < 1000 * Z.max timeLimit 0)%Z
  ∧ ((0 < fuel)%nat → (1000 * timeLimit < cost * Z.of_nat fuel)%Z → finished o).
Proof.
  intros Hcost Hnow Hscr o fetches.
  assert (withinBudget clockFloor cost (dateNow w).1 timeLimit
            (mkStore ∅ [] (dateNow w).2 [])) as Hinit.
  { unfold withinBudget. cbn. split_and!; [|by left|done].
    destruct (Hnow w). lia. }
  pose proof (crawl_withinBudget dateNow scrapePageData clockFloor cost
                Hnow Hscr (dateNow w).1 timeLimit fuel seed _ Hinit)
    as (_ & Hlast & _).
  rewrite <- crawlSite_state in Hlast. fold o in Hlast. fold fetches in Hlast.
  assert (scraped (trace (stateOf o)) = [] → fetches = 0%Z) as Hnone.
  { unfold fetches. by intros ->. }
  split_and!.
  - destruct Hlast as [Hempty|Hlast]; [auto|]. intros Hlimit.
    assert (0 ≤ fetches)%Z by (unfold fetches; lia). nia.
  - destruct Hlast as [Hempty|Hlast]; [rewrite (Hnone Hempty); lia|]. lia.
  - intros Hfuel Hpaid.
    pose proof (crawl_finishes_in_time dateNow scrapePageData clockFloor cost
                  Hcost Hnow Hscr (dateNow w).1 timeLimit fuel seed _ Hinit
                  Hfuel) as Hfin.
    cbn in Hfin. specialize (Hfin ltac:(lia)).
    unfold o, crawlSite. destruct (dateNow w) as [t w1]. cbn in *.
    by destruct (crawl _ _ _ _ _ _ _).
Qed.

End BudgetSite.

(** *** How a crawl ends *)

Lemma recorded_noFailure tr : noFailure tr → recorded tr = scraped tr.
Proof.
  induction tr as [|e tr IH]; intros Hok; [done|].
  assert (noFailure tr) as Htr.
  { intros u Hin. apply (Hok u). by right. }
  specialize (IH Htr). unfold recorded, scraped in *.
  destruct e as [| | |u [|]]; cbn; rewrite ?IH; try done.
  destruct (Hok u). by left.
Qed.

Section Ending.
Context {World : Type}.
Variable dateNow : World → Z * World.
Variable scrapePageData : string → World → option PageData * World.

Local Abbreviation crawlSite := (crawlSite dateNow scrapePageData).

(** How a crawl that returned its result began. *)
Lemma crawlSite_head fuel seed timeLimit (w : World) data s :
  crawlSite fuel seed timeLimit w = Resolved data s →
  (data = [] ∧ trace s = [VisitedHas seed false; DeadlineCheck true]
   ∧ limitReached (dateNow w).1 timeLimit (dateNow (dateNow w).2).1 = true)
  ∨ (∃ d rest, data = mkPageRecord seed d :: rest
       ∧ (scrapePageData seed (dateNow (dateNow w).2).2).1 = Some d
       ∧ limitReached (dateNow w).1 timeLimit (dateNow (dateNow w).2).1 = false).
Proof.
  intros Hrun. apply crawlSite_resolved in Hrun as [-> Hrun].
  destruct fuel as [|n]; [done|].
  rewrite crawl_S in Hrun. cbn zeta in Hrun.
  rewrite bool_decide_eq_false_2 in Hrun by apply not_elem_of_empty.
  cbn [world afterHas log] in Hrun.
  destruct (dateNow (dateNow w).2) as [now w1]. cbn [fst snd].
  destruct (limitReached _ _ now) eqn:Hlim.
  { injection Hrun as <-. left. unfold afterCheck. cbn. by rewrite Hlim. }
  cbn [world afterCheck log setWorld] in Hrun.
  destruct (scrapePageData seed w1) as [[d|] w2]; [|done].
  pose proof (forLinks_extends dateNow scrapePageData (dateNow w).1 timeLimit
                n seed (links d)) as Hext.
  match type of Hrun with
  | Crawler.forLinks _ _ _ _ _ _ ?s0 = _ => specialize (Hext s0)
  end.
  rewrite Hrun in Hext.
  destruct Hext as (_ & [rest Hdata] & _). cbn in Hdata.
  right. by exists d, rest.
Qed.

(** X3: the result of a crawl is empty exactly when the deadline had passed
    at the first comparison, before any fetch; otherwise its first record is
    that of the seed, with the page the seed loaded. *)
Theorem result_begins_with_the_seed fuel seed timeLimit (w : World) data s :
  crawlSite fuel seed timeLimit w = Resolved data s →
  (data = [] ↔
     limitReached (dateNow w).1 timeLimit (dateNow (dateNow w).2).1 = true)
  ∧ (data = [] → trace s = [VisitedHas seed false; DeadlineCheck true])
  ∧ (data ≠ [] →
     ∃ d rest, data = mkPageRecord seed d :: rest
       ∧ (scrapePageData seed (dateNow (dateNow w).2).2).1 = Some d).
Proof.
  intros [(-> & Htr & Hlim)|(d & rest & -> & Hd & Hlim)]%crawlSite_head.
  - by split_and!.
  - split_and!; [split; [done|congruence]|done|]. intros _. by exists d, rest.
Qed.

(** X4: [crawlSite] rejects exactly when a fetch fails.  The failed fetch is
    then the last step; every fetch before it resolved and has its record in
    [allData], which the caller never gets.  And when [crawlSite] returns,
    no fetch failed and its result holds one record for each fetch, in the
    order of the fetches, whatever the pages and the clock did. *)
Theorem crawl_rejects_exactly_when_a_fetch_fails fuel seed timeLimit (w : World) :
  let o := crawlSite fuel seed timeLimit w in
  ((∃ s, o = Rejected s) ↔ ∃ u, Scrape u false ∈ trace (stateOf o))
  ∧ (∀ s, o = Rejected s →
       ∃ pre u, trace s = pre ++ [Scrape u false]
                ∧ noFailure pre
                ∧ url <$> allData s = scraped pre)
  ∧ (∀ data s, o = Resolved data s →
       noFailure (trace s) ∧ url <$> data = scraped (trace s)).
Proof.
  intros o.
  pose proof (crawl_failsLast dateNow scrapePageData (dateNow w).1 timeLimit
                fuel seed (mkStore ∅ [] (dateNow w).2 [])) as Hlast.
  specialize (Hlast ltac:(by intros v []%elem_of_nil)).
  pose proof (crawlSite_consistent dateNow scrapePageData fuel seed timeLimit w)
    as (_ & _ & _ & Hrec & _).
  fold o in Hrec. unfold o in *. unfold Crawler.crawlSite in *.
  destruct (dateNow w) as [t w1]. cbn [fst snd] in *.
  destruct (crawl _ _ _ _ _ _ _) as [[] s| s |s]; cbn in *.
  - split_and!; [|done|].
    + split; [by intros [? ?]|]. intros [u Hin]. by apply Hlast in Hin.
    + intros ? ? [= <- <-]. split; [done|].
      rewrite Hrec. by apply recorded_noFailure.
  - destruct Hlast as (pre & u & Htr & Hpre). split_and!; [| |done].
    + split; [|by eexists]. intros _. exists u. rewrite Htr.
      apply elem_of_app. right. by left.
    + intros ? [= <-]. exists pre, u. split_and!; [done..|].
      rewrite Hrec, Htr, recorded_app. cbn. rewrite app_nil_r.
      by apply recorded_noFailure.
  - split_and!; [|done..].
    split; [by intros [? ?]|]. intros [u Hin]. by apply Hlast in Hin.
Qed.

End Ending.

(** *** The file name *)

Lemma get_append (a b : string) (n : nat) :
  String.get n (a +:+ b) =
    if decide (n < String.length a)%nat then String.get n a
    else String.get (n - String.length a) b.
Proof.
  revert n. induction a as [|x a IH]; intros n.
  - rewrite append_nil_l. cbn. by rewrite Nat.sub_0_r.
  - rewrite append_cons. destruct n as [|n]; cbn; [done|]. rewrite IH.
    repeat case_decide; try done; lia.
Qed.

Lemma get_replaceChar (c d : ascii) (s : string) (n : nat) :
  String.get n (replaceChar c d s) =
    (λ a, if Ascii.eqb a c then d else a) <$> String.get n s.
Proof.
  revert n. induction s as [|a s IH]; intros n; [done|].
  destruct n as [|n]; cbn; [done|]. apply IH.
Qed.

(** X5: the name [main] derives from the URL holds no [/]: the file is
    written in the working directory, whatever the URL; and the name of the
    filtered file is another name. *)
Theorem fileNameOf_has_no_slash (u : string) :
  (∀ n, String.get n (fileNameOf u) ≠ Some "/"%char)
  ∧ "filtered_" +:+ fileNameOf u ≠ fileNameOf u
  ∧ ∃ base, fileNameOf u = base +:+ ".json".
Proof.
  split_and!.
  - intros n. unfold fileNameOf. rewrite get_append. case_decide.
    + rewrite get_replaceChar. destruct (String.get n (stripScheme u)) as [a|]; [|done].
      cbn. destruct (Ascii.eqb_spec a "/"); [done|]. congruence.
    + remember (n - _)%nat as k. clear.
      do 5 (destruct k as [|k]; [done|]). by destruct k.
  - intros Heq. apply (f_equal String.length) in Heq.
    rewrite length_append in Heq. cbn in Heq. lia.
  - by eexists.
Qed.

Section MainEnding.
Context {World : Type}.
Variable dateNow : World → Z * World.
Variable scrapePageData : string → World → option PageData * World.



End MainEnding.

(** *** The shape of a filtered text *)

(** In words joined by single spaces a whitespace code unit is a joining
    space: the unit before it and the unit after it are not whitespace. *)
Lemma joined_space (w : text) (rest : list text) :
  isWord w → Forall isWord rest →
  ∀ pre c post,
    w ++ concat ((λ w', SPACE :: w') <$> rest) = pre ++ c :: post →
    isWhiteSpace c = true →
    c = SPACE
    ∧ (∃ a pre', pre = pre' ++ [a] ∧ isWhiteSpace a = false)
    ∧ (∃ b post', post = b :: post' ∧ isWhiteSpace b = false).
Proof.
  intros Hw Hrest. revert w Hw.
  induction Hrest as [|w' rest Hw' _ IH]; intros w Hw pre c post Heq Hc.
  { cbn in Heq. rewrite app_nil_r in Heq. destruct Hw as [_ Hw].
    rewrite Heq in Hw. apply Forall_app in Hw as [_ Hw].
    apply Forall_cons in Hw as [Hw _]. congruence. }
  cbn [fmap list_fmap concat] in Heq.
  assert (pre = w ∧ c = SPACE
              ∧ post = w' ++ concat ((λ w', SPACE :: w') <$> rest)
          ∨ ∃ k, pre = w ++ SPACE :: k
                 ∧ w' ++ concat ((λ w', SPACE :: w') <$> rest) = k ++ c :: post)
    as [(-> & -> & ->)|(k & -> & Heq')].
  { apply app_eq_inv in Heq as [(k & Hk & Heq)|(k & Hk & Heq)].
    - destruct k as [|x k].
      + rewrite app_nil_r in Hk. cbn in Heq. injection Heq as -> ->. by left.
      + injection Heq as <- _. destruct Hw as [_ Hw]. rewrite Hk in Hw.
        apply Forall_app in Hw as [_ Hw]. apply Forall_cons in Hw as [Hw _].
        congruence.
    - destruct k as [|x k].
      + rewrite app_nil_r in Hk. cbn in Heq. injection Heq as <- <-. by left.
      + injection Heq as <- Heq. right. by exists k. }
  - split; [done|]. split.
    + destruct Hw as [Hne Hw]. destruct (exists_last Hne) as (pre' & a & ->).
      apply Forall_app in Hw as [_ Ha]. rewrite Forall_singleton in Ha.
      by exists a, pre'.
    + destruct Hw' as [Hne Hw']. destruct w' as [|b w']; [done|].
      apply Forall_cons in Hw' as [Hb _]. by eexists b, _.
  - destruct (IH w' Hw' k c post Heq' Hc) as (-> & (a & pre' & -> & Ha) & Hpost).
    split; [done|]. split; [|done].
    exists a, (w ++ SPACE :: pre'). split; [|done].
    by rewrite <- app_assoc.
Qed.

(** The code units of a text that are not whitespace are those of its
    words, in order. *)
Lemma concat_splitWords (t cur : text) :
  Forall (λ c, isWhiteSpace c = false) cur →
  concat (splitWords t cur) = cur ++ filter (λ c, isWhiteSpace c = false) t.
Proof.
  unfold text in *.
  revert cur. induction t as [|c r IH]; intros cur Hcur; cbn [splitWords].
  - destruct cur; cbn; by rewrite ?app_nil_r.
  - destruct (isWhiteSpace c) eqn:Hc.
    + rewrite filter_cons_False by (cbn; congruence).
      destruct cur as [|x cur]; cbn [concat]; by rewrite IH.
    + rewrite filter_cons_True by done. rewrite IH.
      * by rewrite <- app_assoc.
      * apply Forall_app. split; [done|]. by apply Forall_singleton.
Qed.

Lemma filter_joinWords (ws : list text) :
  Forall isWord ws →
  filter (λ c, isWhiteSpace c = false) (joinWords ws) = concat ws.
Proof.
  unfold text in *.
  intros Hws. destruct Hws as [|w ws Hw Hws]; [done|]. cbn [joinWords concat].
  rewrite filter_app. f_equal.
  { apply JsFacts.filter_all, Hw. }
  induction Hws as [|w' ws Hw' _ IH]; [done|]. cbn [fmap list_fmap concat app].
  rewrite filter_cons_False by (cbn; done).
  rewrite filter_app, IH. f_equal. apply JsFacts.filter_all, Hw'.
Qed.

(** X7: the text [filterData] returns holds the code units of the page's
    text that are not whitespace, in order, and between them only joining
    spaces: each whitespace unit is one U+0020 with a unit that is not
    whitespace on either side.  So the text neither begins nor ends with
    whitespace, and is not longer than the page's. *)
Theorem filtered_text_has_only_joining_spaces (d : PageData) :
  let t := textContent (filterData d) in
  filter (λ c, isWhiteSpace c = false) t
    = filter (λ c, isWhiteSpace c = false) (textContent d)
  ∧ (∀ pre c post, t = pre ++ c :: post → isWhiteSpace c = true →
       c = SPACE
       ∧ (∃ a pre', pre = pre' ++ [a] ∧ isWhiteSpace a = false)
       ∧ (∃ b post', post = b :: post' ∧ isWhiteSpace b = false))
  ∧ (∀ c, head t = Some c ∨ last t = Some c → isWhiteSpace c = false)
  ∧ (t = [] ↔ Forall (λ c, isWhiteSpace c = true) (textContent d)).
Proof.
  intros t.
  assert (t = joinWords (words (textContent d))) as Ht
    by apply trim_replaceRuns.
  assert (Forall isWord (words (textContent d))) as Hwords
    by by apply splitWords_isWord.
  assert (filter (λ c, isWhiteSpace c = false) t
          = filter (λ c, isWhiteSpace c = false) (textContent d)) as Hsame.
  { rewrite Ht, filter_joinWords by done. unfold words.
    by rewrite concat_splitWords. }
  assert (∀ pre c post, t = pre ++ c :: post → isWhiteSpace c = true →
       c = SPACE
       ∧ (∃ a pre', pre = pre' ++ [a] ∧ isWhiteSpace a = false)
       ∧ (∃ b post', post = b :: post' ∧ isWhiteSpace b = false)) as Hspaces.
  { intros pre c post Heq Hc. rewrite Ht in Heq.
    destruct (words (textContent d)) as [|w ws]; [by destruct pre|].
    apply Forall_cons in Hwords as [Hw Hws]. by eapply joined_space. }
  split_and!; [done|done| |].
  - intros c [Hhead|Hlast].
    + destruct t as [|c' post] eqn:Heq; [done|]. injection Hhead as ->.
      destruct (isWhiteSpace c) eqn:Hc; [|done].
      destruct (Hspaces [] c post eq_refl Hc) as (_ & (a & pre' & Hpre & _) & _).
      by destruct pre'.
    + destruct (isWhiteSpace c) eqn:Hc; [|done].
      destruct t as [|c' t'] using rev_ind; [done|]. clear IHt'.
      rewrite last_snoc in Hlast. injection Hlast as ->.
      by destruct (Hspaces t' c [] eq_refl Hc) as (_ & _ & (b & post' & ? & _)).
  - split.
    + intros Hnil. rewrite Hnil in Hsame. cbn in Hsame.
      apply Forall_forall. intros c Hc.
      destruct (isWhiteSpace c) eqn:Hws; [done|].
      assert (c ∈ filter (λ c, isWhiteSpace c = false) (textContent d)) as Hin
        by by apply list_elem_of_filter.
      rewrite <- Hsame in Hin. by apply elem_of_nil in Hin.
    + intros Hall. destruct t as [|c post] eqn:Heq; [done|]. exfalso.
      destruct (isWhiteSpace c) eqn:Hc.
      * destruct (Hspaces [] c post eq_refl Hc) as (_ & (a & pre' & Hpre & _) & _).
        by destruct pre'.
      * assert (c ∈ filter (λ c, isWhiteSpace c = false) (textContent d)) as Hin.
        { rewrite <- Hsame. apply list_elem_of_filter. split; [done|by left]. }
        apply list_elem_of_filter in Hin as [_ Hin].
        rewrite Forall_forall in Hall. specialize (Hall c Hin). congruence.
Qed.

(** *** The small sites again *)

Lemma time_limit_bounds_the_fetches_witness :
  let o := crawlSite clockNow (staticScrape treeWeb 600) 2 "https://x.com/a" 1 0%Z in
  (Z.of_nat (length (scraped (trace (stateOf o)))) ≤ 2)%Z ∧ finished o.
Proof.
  intros o.
  destruct (time_limit_bounds_the_fetches clockNow (staticScrape treeWeb 600)
              id 600 2 "https://x.com/a" 1 0%Z) as (_ & Hbound & Hfin).
  - lia.
  - intros t. cbn. lia.
  - intros u t. cbn. lia.
  - fold o in Hbound, Hfin. split; [lia|]. apply Hfin; lia.
Defined.

Lemma result_begins_with_the_seed_witness :
  match crawlSite clockNow (staticScrape treeWeb 10) 5 "https://x.com/a" 30 0%Z with
  | Resolved data _ =>
      head data = Some (mkPageRecord "https://x.com/a"
                          (linksOnly ["https://x.com/a/b"; "https://x.com/a/c"]))
  | _ => False
  end.
Proof.
  assert (match crawlSite clockNow (staticScrape treeWeb 10) 5
                  "https://x.com/a" 30 0%Z with
          | Resolved data _ => data ≠ []
          | _ => False
          end) as Hsome by (vm_compute; done).
  destruct (crawlSite clockNow (staticScrape treeWeb 10) 5 "https://x.com/a" 30 0%Z)
    as [data s| |] eqn:Hrun; [|done..].
  destruct (result_begins_with_the_seed clockNow (staticScrape treeWeb 10)
              5 "https://x.com/a" 30 0%Z data s Hrun) as (_ & _ & Hhead).
  destruct (Hhead Hsome) as (d & rest & -> & Hd).
  vm_compute in Hd. by injection Hd as <-.
Defined.

End CrawlerFacts.


(** ** The typed scraper *)

Module TypedFacts.
Import Js Typed.

(** *** [slice] *)

Lemma length_slice {A} (xs : list A) (start stop : num) :
  (length (slice xs start stop) ≤ length xs)%nat.
Proof.
  unfold slice. rewrite length_take, length_drop. lia.
Qed.

(** With a start and a length that are not negative, [slice] takes the
    elements at the indices from [start] up to [start + n]. *)
Lemma slice_take_drop {A} (xs : list A) (start n : Z) :
  (0 ≤ start)%Z → (0 ≤ n)%Z →
  slice xs (Int start) (add (Int start) (Int n))
  = take (Z.to_nat n) (drop (Z.to_nat start) xs).
Proof.
  intros Hstart Hn. unfold slice, add, relativeIndex.
  rewrite (proj2 (Z.ltb_ge _ _)) by lia.
  rewrite (proj2 (Z.ltb_ge _ _)) by lia.
  destruct (decide (Z.of_nat (length xs) ≤ start)%Z) as [Hout|Hin].
  - rewrite !drop_ge by lia. by rewrite !take_nil.
  - rewrite (Z.min_l start) by lia.
    destruct (decide (start + n ≤ Z.of_nat (length xs))%Z) as [Hfit|Hover].
    + rewrite Z.min_l by lia. f_equal. lia.
    + rewrite Z.min_r by lia.
      rewrite !take_ge; [done|rewrite length_drop; lia..].
Qed.

Lemma length_omap {A B} (f : A → option B) (l : list A) :
  (length (omap f l) ≤ length l)%nat.
Proof.
  induction l as [|x l IH]; [done|]. cbn. destruct (f x); cbn; lia.
Qed.

(** *** [getRelevantLinks] *)

Lemma getRelevantLinks_NoDup (type : string) (hrefs : list string) :
  NoDup (getRelevantLinks type hrefs).
Proof.
  unfold getRelevantLinks. case_bool_decide; [|apply NoDup_nil_2].
  rewrite JsFacts.uniq_keepFirst. apply JsFacts.NoDup_keepFirst.
Qed.

Lemma elem_of_getRelevantLinks (type : string) (hrefs : list string) h :
  h ∈ getRelevantLinks type hrefs ↔ h ∈ hrefs ∧ relevant type h = true.
Proof.
  unfold getRelevantLinks. case_bool_decide as Htype.
  - rewrite JsFacts.uniq_keepFirst, JsFacts.elem_of_keepFirst.
    rewrite list_elem_of_filter. rewrite Is_true_true. naive_solver.
  - split; [by intros []%elem_of_nil|]. intros [_ Hrel]. exfalso.
    apply Htype. unfold relevant, WEBSITE_TYPES in *.
    repeat case_bool_decide; subst; try done; by_evaluation.
Qed.

(** *** [scrapePage] *)

Section ScrapeFacts.
Context {World Item : Type}.
Variable goto : string → num → World → bool * World.
Variable anchorHrefs : World → option (list string).
Variable extractArticleData : World → option Item * World.
Variable extractProductData : World → option Item * World.
Variable extractWeatherData : World → option Item * World.
Variable writeFileSync : string → num → num → Output Item → World → bool * World.

Local Abbreviation extractFor :=
  (extractFor extractArticleData extractProductData extractWeatherData).
Local Abbreviation scrapeLinks :=
  (scrapeLinks goto extractArticleData extractProductData extractWeatherData).
Local Abbreviation scrapePageTry :=
  (scrapePageTry goto anchorHrefs extractArticleData extractProductData
     extractWeatherData).
Local Abbreviation cliScrapePage :=
  (Cli.scrapePage goto anchorHrefs extractArticleData extractProductData
     extractWeatherData writeFileSync).

(** The loop tries every link in order and keeps the items it scraped. *)
Lemma scrapeLinks_attempts type ls (w : World) :
  (scrapeLinks type ls w).1.2.*1 = ls
  ∧ (scrapeLinks type ls w).1.1 = omap snd (scrapeLinks type ls w).1.2.
Proof.
  revert w. induction ls as [|link rest IH]; intros w; [done|]. cbn.
  destruct (goto link (Int 30000) w) as [[|] w1].
  - destruct (extractFor type w1) as [r w2].
    destruct (IH w2) as [IH1 IH2].
    destruct (scrapeLinks type rest w2) as [[items tried] w3].
    cbn in *. destruct r; cbn; by rewrite IH1, IH2.
  - destruct (IH w1) as [IH1 IH2].
    destruct (scrapeLinks type rest w1) as [[items tried] w3].
    cbn in *. by rewrite IH1, IH2.
Qed.

(** The items the loop returns are the pages [page.goto] loaded and the
    extractor of the type gave an item for, in the order of the links. *)
Lemma scrapeLinks_scrapedPages type ls (w : World) :
  scrapedPages goto (extractFor type) ls w
    (scrapeLinks type ls w).1.1 (scrapeLinks type ls w).2.
Proof.
  revert w. induction ls as [|link rest IH]; intros w; [constructor|]. cbn.
  destruct (goto link (Int 30000) w) as [[|] w1] eqn:Hgoto.
  - destruct (extractFor type w1) as [r w2] eqn:Hitem.
    specialize (IH w2).
    destruct (scrapeLinks type rest w2) as [[items tried] w3].
    cbn in *. destruct r as [item|]; cbn.
    + by eapply scraped_page.
    + by eapply scraped_no_item.
  - specialize (IH w1).
    destruct (scrapeLinks type rest w1) as [[items tried] w3].
    cbn in *. by eapply scraped_not_loaded.
Qed.

(** The items of a list of links are determined by the links and by where
    the browser starts. *)
Lemma scrapedPages_unique (extract : World → option Item * World) ls
    (w : World) items w' items' w'' :
  scrapedPages goto extract ls w items w' →
  scrapedPages goto extract ls w items' w'' →
  items = items' ∧ w' = w''.
Proof.
  intros Hrun. revert items' w''.
  induction Hrun; intros items' w'' Hrun'; inversion Hrun'; subst;
    repeat match goal with
    | H : ?a = _, H' : ?a = _ |- _ => rewrite H in H'; simplify_eq
    end;
    try done;
    match goal with
    | IH : ∀ _ _, _ → _ ∧ _, H : scrapedPages _ _ _ _ _ _ |- _ =>
        by destruct (IH _ _ H) as [-> ->]
    end.
Qed.

(** What every output satisfies, whatever the limit and the offset. *)
Lemma scrapePageTry_output url type timeLimit lim off (w : World) out :
  let ses := scrapePageTry url type timeLimit lim off w in
  result ses = Some out →
  ∃ hrefs,
    (goto url (times timeLimit 1000) w).1 = true
    ∧ anchorHrefs (goto url (times timeLimit 1000) w).2 = Some hrefs
    ∧ total (pagination out) = length (getRelevantLinks type hrefs)
    ∧ (attempts ses).*1
      = slice (getRelevantLinks type hrefs) off (add off lim)
    ∧ data out = omap snd (attempts ses)
    ∧ scrapedPages goto (extractFor type)
        (slice (getRelevantLinks type hrefs) off (add off lim))
        (goto url (times timeLimit 1000) w).2 (data out) (final ses)
    ∧ navigations ses = url :: (attempts ses).*1
    ∧ count (pagination out) = length (data out)
    ∧ limit (pagination out) = lim ∧ offset (pagination out) = off
    ∧ websiteType out = type.
Proof.
  unfold Typed.scrapePageTry.
  destruct (goto url (times timeLimit 1000) w) as [[|] w1]; [|done]. cbn [fst snd].
  destruct (anchorHrefs w1) as [hrefs|]; [|done].
  pose proof (scrapeLinks_attempts type
    (slice (getRelevantLinks type hrefs) off (add off lim)) w1) as [Htried Hitems].
  pose proof (scrapeLinks_scrapedPages type
    (slice (getRelevantLinks type hrefs) off (add off lim)) w1) as Hpages.
  destruct (scrapeLinks type _ w1) as [[items tried] w2]. cbn in *.
  intros [= <-]. exists hrefs. cbn. by split_and!.
Qed.

(** [scrapePage] returns the output its [try] block built exactly when the
    file was written; the pages it went to are the same either way. *)
Lemma scrapePage_output url type timeLimit lim off (w : World) :
  let try := scrapePageTry url type timeLimit lim off w in
  let ses := cliScrapePage url type timeLimit lim off w in
  navigations ses = navigations try
  ∧ attempts ses = attempts try
  ∧ ∀ out, result ses = Some out ↔
      result try = Some out
      ∧ (writeFileSync type off lim out (final try)).1 = true.
Proof.
  intros try ses. unfold ses, Cli.scrapePage. fold try.
  destruct (result try) as [output|] eqn:Htry.
  - destruct (writeFileSync type off lim output (final try)) as [[|] w1] eqn:Hw;
      cbn; split_and!; try done; intros out; split.
    + intros [= <-]. by rewrite Hw.
    + by intros [[= <-] _].
    + done.
    + intros [[= <-] Hsaved]. by rewrite Hw in Hsaved.
  - rewrite Htry. split_and!; [done..|]. intros out. naive_solver.
Qed.

(** The window of an output, whatever the limit and the offset: [count] is
    the length of [data], which holds at most one item for each link of the
    window, and the window is within the relevant links. *)
Lemma scrapePage_window url type timeLimit lim off (w : World) out :
  let ses := cliScrapePage url type timeLimit lim off w in
  result ses = Some out →
  ∃ hrefs,
    (goto url (times timeLimit 1000) w).1 = true
    ∧ anchorHrefs (goto url (times timeLimit 1000) w).2 = Some hrefs
    ∧ total (pagination out) = length (getRelevantLinks type hrefs)
    ∧ (attempts ses).*1
      = slice (getRelevantLinks type hrefs) off (add off lim)
    ∧ data out = omap snd (attempts ses)
    ∧ (∃ w1, scrapedPages goto (extractFor type)
               (slice (getRelevantLinks type hrefs) off (add off lim))
               (goto url (times timeLimit 1000) w).2 (data out) w1
             ∧ writeFileSync type off lim out w1 = (true, final ses))
    ∧ navigations ses = url :: (attempts ses).*1
    ∧ count (pagination out) = length (data out)
    ∧ limit (pagination out) = lim ∧ offset (pagination out) = off
    ∧ websiteType out = type.
Proof.
  intros ses Hout.
  destruct (scrapePage_output url type timeLimit lim off w)
    as (Hnav & Htried & Hres).
  fold ses in Hnav, Htried, Hres. apply Hres in Hout as [Hout Hsaved].
  destruct (scrapePageTry_output url type timeLimit lim off w out Hout)
    as (hrefs & Hloaded & Hhrefs & Htotal & Hlinks & Hdata & Hpages & Hnavs
        & Hcount & Hlim & Hoff & Htype).
  exists hrefs. rewrite Hnav, Htried. split_and!; try done.
  eexists. split; [exact Hpages|].
  unfold ses, Cli.scrapePage. rewrite Hout.
  destruct (writeFileSync _ _ _ _ _) as [saved w1]. cbn in *. by subst.
Qed.

(** C10, amended: when [scrapePage] returns an output and the limit and the
    offset are integers that are not negative, [total] is the number of
    distinct relevant links of the seed page; [data] holds the successfully
    scraped pages of the links at the indices from [offset] up to
    [offset + limit], in the order of the links: the item of each link of
    that window that [page.goto] loaded and the extractor of the type gave
    an item for; and [count] is the length of [data], at most [limit] and
    at most [total]. *)
Theorem pagination_of_output url type timeLimit (lim off : Z) (w : World) out :
  let ses := Cli.scrapePage goto anchorHrefs extractArticleData
               extractProductData extractWeatherData writeFileSync
               url type timeLimit (Int lim) (Int off) w in
  result ses = Some out →
  (0 ≤ lim)%Z → (0 ≤ off)%Z →
  ∃ hrefs window,
    goto url (times timeLimit 1000) w
    = (true, (goto url (times timeLimit 1000) w).2)
    ∧ anchorHrefs (goto url (times timeLimit 1000) w).2 = Some hrefs
    ∧ NoDup (getRelevantLinks type hrefs)
    ∧ (∀ h, h ∈ getRelevantLinks type hrefs
            ↔ h ∈ hrefs ∧ relevant type h = true)
    ∧ total (pagination out) = length (getRelevantLinks type hrefs)
    ∧ window
      = take (Z.to_nat lim) (drop (Z.to_nat off) (getRelevantLinks type hrefs))
    ∧ (∃ w1, scrapedPages goto
               (Typed.extractFor extractArticleData extractProductData
                  extractWeatherData type)
               window (goto url (times timeLimit 1000) w).2 (data out) w1
             ∧ writeFileSync type (Int off) (Int lim) out w1 = (true, final ses))
    ∧ (attempts ses).*1 = window
    ∧ data out = omap snd (attempts ses)
    ∧ navigations ses = url :: window
    ∧ count (pagination out) = length (data out)
    ∧ (Z.of_nat (count (pagination out)) ≤ lim)%Z
    ∧ (count (pagination out) ≤ total (pagination out))%nat.
Proof.
  intros ses Hout Hlim Hoff.
  destruct (scrapePage_window url type timeLimit (Int lim) (Int off) w out Hout)
    as (hrefs & Hloaded & Hhrefs & Htotal & Htried & Hdata & Hpages & Hnav
        & Hcount & _).
  fold ses in Htried, Hdata, Hnav, Hpages.
  rewrite slice_take_drop in Htried, Hpages by done.
  exists hrefs, (take (Z.to_nat lim)
                   (drop (Z.to_nat off) (getRelevantLinks type hrefs))).
  split_and!; try done.
  - by destruct (goto url _ w) as [[|] w1].
  - apply getRelevantLinks_NoDup.
  - apply elem_of_getRelevantLinks.
  - by rewrite Hnav, Htried.
  - rewrite Hcount, Hdata.
    pose proof (length_omap snd (attempts ses)) as Hle.
    assert (length (attempts ses) = length (attempts ses).*1) as Hlen
      by by rewrite length_fmap.
    rewrite Htried, length_take in Hlen. lia.
  - rewrite Hcount, Hdata, Htotal.
    pose proof (length_omap snd (attempts ses)) as Hle.
    assert (length (attempts ses) = length (attempts ses).*1) as Hlen
      by by rewrite length_fmap.
    rewrite Htried, length_take, length_drop in Hlen. lia.
Qed.

(** *** The route *)

(** The server's [scrapePage] goes to the seed page and gives no output. *)
Lemma Api_scrapePage_throws url type timeLimit lim off (w : World) :
  Api.scrapePage (Item:=Item) goto url type timeLimit lim off w
  = mkSession None [url] [] (goto url (times timeLimit 1000) w).2.
Proof. unfold Api.scrapePage. by destruct (goto url _ w). Qed.

(** A request with a [url], a known [websiteType] and a [timeLimit] that is
    truthy passes the checks of the route, whatever number the time limit
    reads as: [scrapePage] is called, the seed page is navigated to, and
    the reply is a 500. *)
Lemma truthy_timeLimit_is_served url type timeLimit lim off (w : World) :
  url ≠ EmptyString → toLowerCase type ∈ WEBSITE_TYPES →
  Api.truthy timeLimit = true →
  Api.postScrape (Item:=Item) goto
    (Api.mkBody (Api.Str url) (Api.Str type) timeLimit lim off) w
  = Api.mkHandled (Api.Json 500 None)
      (Some (mkSession None [url] []
               (goto url (times (Api.parseInt timeLimit) 1000) w).2)).
Proof.
  intros Hurl Htype Htime. unfold Api.postScrape. cbn [Api.req_url
    Api.req_websiteType Api.req_timeLimit Api.truthy negb orb].
  rewrite bool_decide_eq_false_2 by done.
  destruct type as [|c type].
  { exfalso. apply (bool_decide_pack _) in Htype. by vm_compute in Htype. }
  rewrite bool_decide_eq_false_2 by done.
  rewrite Htime. cbn [negb orb].
  rewrite bool_decide_eq_true_2 by done.
  by rewrite Api_scrapePage_throws.
Qed.

(** A request without a [url], a [websiteType] or a [timeLimit], a zero
    [timeLimit] among them, or with an unknown [websiteType], is answered by
    a 400 and [scrapePage] is not called. *)
Lemma missing_or_unknown_is_rejected body (w : World) :
  Api.truthy (Api.req_url body) = false
  ∨ Api.truthy (Api.req_websiteType body) = false
  ∨ Api.truthy (Api.req_timeLimit body) = false
  ∨ (∃ type, Api.req_websiteType body = Api.Str type
             ∧ toLowerCase type ∉ WEBSITE_TYPES) →
  Api.postScrape (Item:=Item) goto body w
  = Api.mkHandled (Api.Json 400 None) None.
Proof.
  unfold Api.postScrape. intros [->|[->|[->|(type & -> & Htype)]]].
  - done.
  - by rewrite orb_true_r.
  - by rewrite orb_true_r.
  - rewrite bool_decide_eq_false_2 by done. by repeat case_match.
Qed.

(** C5 does not hold of the code.  A request whose time limit is the number
    [-5], or the string ["0"], passes the checks of the route, which only
    ask for a time limit that is not falsy: [scrapePage] is called, the seed
    page is navigated to, with the time-out [-5000] or [0], and the reply
    is a 500, not a 400.  The number [0] is refused, as a missing field.
    The command line program refuses all three before it loads a page. *)
Theorem negative_time_limit_is_not_rejected (w : World) :
  let request timeLimit :=
    Api.postScrape (Item:=Item) goto
      (Api.mkBody (Api.Str "https://n.com") (Api.Str "news") timeLimit
         Api.Undefined Api.Undefined) w in
  let typed timeLimit :=
    Cli.main goto anchorHrefs extractArticleData extractProductData
      extractWeatherData writeFileSync
      "news" "https://n.com" timeLimit EmptyString EmptyString w in
  request (Api.Number "-5")
  = Api.mkHandled (Api.Json 500 None)
      (Some (mkSession None ["https://n.com"] []
               (goto "https://n.com" (Int (-5000)) w).2))
  ∧ request (Api.Str "0")
    = Api.mkHandled (Api.Json 500 None)
        (Some (mkSession None ["https://n.com"] []
                 (goto "https://n.com" (Int 0) w).2))
  ∧ request (Api.Number "0") = Api.mkHandled (Api.Json 400 None) None
  ∧ typed "-5" = None
  ∧ typed "0" = None.
Proof.
  cbn zeta. split_and!.
  - rewrite truthy_timeLimit_is_served; [done|done|by_evaluation|done].
  - rewrite truthy_timeLimit_is_served; [done|done|by_evaluation|done].
  - apply missing_or_unknown_is_rejected. by right; right; left.
  - reflexivity.
  - reflexivity.
Qed.

End ScrapeFacts.

(** *** The news site *)

(** C10, as stated, fails for a negative limit: asked for the limit [-1],
    the command line program scrapes two of the three articles, and the
    count is not at most the limit. *)
Lemma negative_limit_exceeds_count_bound :
  match Cli.main (siteGoto []) (siteAnchors newsPages) siteItem siteItem
          siteItem siteWrite
          "news" "https://n.com" "30" "-1" "0" EmptyString with
  | Some ses =>
      match result ses with
      | Some out =>
          pagination out = mkPagination (Int (-1)) (Int 0) 2 3
          ∧ data out = ["https://n.com/news/1"; "https://n.com/news/2"]
          ∧ ¬ paginationBounds out
      | None => False
      end
  | None => False
  end.
Proof.
  vm_compute. split_and!; [reflexivity..|]. intros (_ & Hle & _). discriminate.
Qed.

Lemma pagination_of_output_witness :
  let goto := siteGoto ["https://n.com/news/2"] in
  let ses := Cli.scrapePage goto (siteAnchors newsPages) siteItem siteItem
               siteItem siteWrite
               "https://n.com" "news" (Int 30) (Int 2) (Int 1) EmptyString in
  ∃ out,
    result ses = Some out
    ∧ data out = ["https://n.com/2024/05/17/x"]
    ∧ (∃ w1, scrapedPages goto siteItem
               ["https://n.com/news/2"; "https://n.com/2024/05/17/x"]
               "https://n.com" (data out) w1)
    ∧ navigations ses
      = ["https://n.com"; "https://n.com/news/2"; "https://n.com/2024/05/17/x"]
    ∧ (Z.of_nat (count (pagination out)) ≤ 2)%Z
    ∧ (count (pagination out) ≤ total (pagination out))%nat.
Proof.
  intros goto ses.
  assert (∃ out, result ses = Some out
                 ∧ data out = ["https://n.com/2024/05/17/x"]) as (out & Hout & Hdata).
  { eexists. split; vm_compute; reflexivity. }
  exists out.
  destruct (pagination_of_output goto
              (siteAnchors newsPages) siteItem siteItem siteItem siteWrite
              "https://n.com" "news" (Int 30) 2 1 EmptyString out Hout
              ltac:(lia) ltac:(lia))
    as (hrefs & window & Hgoto & Hhrefs & _ & _ & _ & Hwindow
        & (w1 & Hpages & _) & _ & _ & Hnav & _ & Hlimit & Htotal).
  assert (hrefs = newsPages.*2 !!! 0%nat) as ->
    by (vm_compute in Hhrefs; by injection Hhrefs as <-).
  assert (window = ["https://n.com/news/2"; "https://n.com/2024/05/17/x"]) as ->
    by (rewrite Hwindow; vm_compute; reflexivity).
  split_and!; [done|done|by exists w1|exact Hnav|done|done].
Defined.

(** *** More on [getRelevantLinks] and [scrapePage] *)

Lemma includes_contains (s sub : string) :
  includes s sub = true ↔ contains s sub.
Proof.
  split.
  - induction s as [|c s IH]; cbn [includes]; rewrite orb_true_iff.
    + intros [[t Ht]%CrawlerFacts.prefix_app_iff|]; [|done].
      by exists EmptyString, t.
    + intros [[t Ht]%CrawlerFacts.prefix_app_iff|(a & b & ->)%IH].
      * by exists EmptyString, t.
      * by exists (String c a), b.
  - intros (a & b & ->). induction a as [|c a IH].
    + rewrite CrawlerFacts.append_nil_l.
      assert (String.prefix sub (sub +:+ b) = true) as Hpre
        by (apply CrawlerFacts.prefix_app_iff; by exists b).
      destruct (sub +:+ b); cbn [includes]; by rewrite Hpre.
    + rewrite CrawlerFacts.append_cons. cbn [includes]. rewrite IH.
      apply orb_true_r.
Qed.

Lemma matchHere_spec (re : list (ascii → bool)) (s : string) :
  matchHere re s = true ↔
  ∃ found after, s = found +:+ after
    ∧ Forall2 (λ class c, class c = true) re (String.list_ascii_of_string found).
Proof.
  revert s. induction re as [|p re IH]; intros s.
  - split; [|by destruct s]. intros _. exists EmptyString, s.
    split; [done|]. constructor.
  - destruct s as [|c s]; cbn [matchHere].
    + split; [done|]. intros ([|c found] & after & Heq & Hall); [|done].
      inversion Hall.
    + rewrite andb_true_iff, IH. split.
      * intros (Hp & found & after & -> & Hall).
        exists (String c found), after. split; [done|]. by constructor.
      * intros ([|c' found] & after & Heq & Hall); [inversion Hall|].
        rewrite CrawlerFacts.append_cons in Heq. injection Heq as <- ->.
        cbn in Hall. inversion Hall; subst. split; [done|].
        by exists found, after.
Qed.

Lemma matches_containsMatch (re : list (ascii → bool)) (s : string) :
  matches re s = true ↔ containsMatch re s.
Proof.
  split.
  - induction s as [|c s IH]; cbn [matches]; rewrite orb_true_iff.
    + intros [(found & after & -> & Hall)%matchHere_spec|]; [|done].
      by exists EmptyString, found, after.
    + intros [(found & after & Heq & Hall)%matchHere_spec
             |(a & found & b & -> & Hall)%IH].
      * exists EmptyString, found, after. by rewrite CrawlerFacts.append_nil_l.
      * by exists (String c a), found, b.
  - intros (a & found & b & -> & Hall). induction a as [|c a IH].
    + rewrite CrawlerFacts.append_nil_l.
      assert (matchHere re (found +:+ b) = true) as Hhere
        by (apply matchHere_spec; by exists found, b).
      destruct (found +:+ b); cbn [matches]; by rewrite Hhere.
    + rewrite CrawlerFacts.append_cons. cbn [matches]. rewrite IH.
      apply orb_true_r.
Qed.

(** X8: which links are relevant.  For [news], those in which [/article/],
    [/story/] or [/news/] occurs, or four digits, a slash, two digits, a
    slash and two digits; for [ecommerce], those in which [/product/],
    [/item/], [/p/] or [product-detail] occurs, or [/dp/] and then a capital
    letter or a digit; for [weather], those in which [/weather/],
    [/forecast/] or [current-weather] occurs; for any other type, none. *)
Theorem relevant_links_by_type (type href : string) :
  relevant type href = true ↔
    (type = "news"
     ∧ (contains href "/article/" ∨ contains href "/story/"
        ∨ contains href "/news/" ∨ containsMatch datePath href))
    ∨ (type = "ecommerce"
       ∧ (contains href "/product/" ∨ contains href "/item/"
          ∨ contains href "/p/" ∨ contains href "product-detail"
          ∨ containsMatch dpPath href))
    ∨ (type = "weather"
       ∧ (contains href "/weather/" ∨ contains href "/forecast/"
          ∨ contains href "current-weather")).
Proof.
  unfold relevant. rewrite <- !includes_contains, <- !matches_containsMatch.
  repeat case_bool_decide; subst; rewrite ?orb_true_iff; try naive_solver.
Qed.

Lemma keepFirst_sublist {A} `{EqDecision A} (xs : list A) :
  keepFirst xs `sublist_of` xs.
Proof.
  induction xs as [|x rest IH]; [done|]. cbn. apply sublist_skip.
  etrans; [apply sublist_filter|done].
Qed.

Lemma relevant_known (type h : string) :
  relevant type h = true → type ∈ WEBSITE_TYPES.
Proof.
  unfold relevant, WEBSITE_TYPES.
  repeat case_bool_decide; subst; try done; intros _; by_evaluation.
Qed.

Lemma getRelevantLinks_filter (type : string) (hrefs : list string) :
  getRelevantLinks type hrefs = keepFirst (filter (λ h, relevant type h) hrefs).
Proof.
  unfold getRelevantLinks. case_bool_decide as Htype.
  - apply JsFacts.uniq_keepFirst.
  - replace (filter (λ h, relevant type h) hrefs) with (@nil string); [done|].
    symmetry. induction hrefs as [|h hrefs IH]; [done|].
    rewrite filter_cons_False; [done|]. cbn.
    intros Hrel%Is_true_true. by apply relevant_known in Hrel.
Qed.

(** X9: [getRelevantLinks] returns the relevant links of the page in the
    order of their first occurrence, each once; applied to its own result
    it changes nothing; and for a type that is none of the three it returns
    no link at all, whatever the page holds. *)
Theorem getRelevantLinks_keeps_first_occurrences (type : string)
    (hrefs : list string) :
  getRelevantLinks type hrefs = keepFirst (filter (λ h, relevant type h) hrefs)
  ∧ getRelevantLinks type hrefs `sublist_of` hrefs
  ∧ getRelevantLinks type (getRelevantLinks type hrefs)
    = getRelevantLinks type hrefs
  ∧ (type ∉ WEBSITE_TYPES → getRelevantLinks type hrefs = []).
Proof.
  split_and!.
  - apply getRelevantLinks_filter.
  - rewrite getRelevantLinks_filter.
    etrans; [apply keepFirst_sublist|apply sublist_filter].
  - rewrite (getRelevantLinks_filter type (getRelevantLinks _ _)).
    rewrite JsFacts.filter_all.
    + apply JsFacts.keepFirst_NoDup, getRelevantLinks_NoDup.
    + apply Forall_forall. intros h [_ Hrel]%elem_of_getRelevantLinks.
      by apply Is_true_true.
  - intros Htype. unfold getRelevantLinks. by rewrite bool_decide_eq_false_2.
Qed.

(** [slice] returns a run of consecutive elements, whatever the indices. *)
Lemma slice_segment {A} (xs : list A) (start stop : num) :
  ∃ pre post, xs = pre ++ slice xs start stop ++ post.
Proof.
  unfold slice. eexists (take _ xs), (drop _ (drop _ xs)).
  by rewrite (take_drop _ (drop _ xs)), take_drop.
Qed.

Section ScrapeMore.
Context {World Item : Type}.
Variable goto : string → num → World → bool * World.
Variable anchorHrefs : World → option (list string).
Variable extractArticleData : World → option Item * World.
Variable extractProductData : World → option Item * World.
Variable extractWeatherData : World → option Item * World.
Variable writeFileSync : string → num → num → Output Item → World → bool * World.

Local Abbreviation extractFor :=
  (extractFor extractArticleData extractProductData extractWeatherData).
Local Abbreviation scrapePageTry :=
  (scrapePageTry goto anchorHrefs extractArticleData extractProductData
     extractWeatherData).
Local Abbreviation cliScrapePage :=
  (Cli.scrapePage goto anchorHrefs extractArticleData extractProductData
     extractWeatherData writeFileSync).
Local Abbreviation cliMain :=
  (Cli.main goto anchorHrefs extractArticleData extractProductData
     extractWeatherData writeFileSync).
Local Abbreviation postScrape := (Api.postScrape (Item:=Item) goto).

Lemma scrapePageTry_navigations url type timeLimit lim off (w : World) :
  let ses := scrapePageTry url type timeLimit lim off w in
  navigations ses = url :: (attempts ses).*1
  ∧ (result ses = None → attempts ses = [])
  ∧ (result ses = None ↔
       (goto url (times timeLimit 1000) w).1 = false
       ∨ anchorHrefs (goto url (times timeLimit 1000) w).2 = None)
  ∧ (∀ hrefs,
       (goto url (times timeLimit 1000) w).1 = true →
       anchorHrefs (goto url (times timeLimit 1000) w).2 = Some hrefs →
       (attempts ses).*1
       = slice (getRelevantLinks type hrefs) off (add off lim)).
Proof.
  unfold Typed.scrapePageTry.
  destruct (goto url (times timeLimit 1000) w) as [[|] w1]; cbn [fst snd].
  - destruct (anchorHrefs w1) as [hrefs|].
    + pose proof (scrapeLinks_attempts goto extractArticleData
        extractProductData extractWeatherData type
        (slice (getRelevantLinks type hrefs) off (add off lim)) w1)
        as [Htried _].
      destruct (Typed.scrapeLinks _ _ _ _ type _ w1) as [[items tried] w2]. cbn in *.
      split_and!; [done|done| |by intros ? _ [= <-]].
      split; [done|]. by intros [|].
    + cbn. split_and!; [done|done| |done]. split; [by right|done].
  - cbn. split_and!; [done|done| |done]. split; [by left|done].
Qed.

(** X10: whatever the limit and the offset are, negative or infinite among
    them, an output of [scrapePage] is consistent.  The links tried are a
    run of consecutive relevant links of the seed page, each tried once and
    in order; [data] holds the items of those that [page.goto] loaded and
    the extractor gave an item for, in that order; [count], the length of
    [data], is at most the number of links tried, which is at most [total];
    and the output was written to its file. *)
Theorem output_is_consistent_for_any_page_window url type timeLimit lim off
    (w : World) out :
  let ses := cliScrapePage url type timeLimit lim off w in
  result ses = Some out →
  ∃ hrefs pre window post w1,
    anchorHrefs (goto url (times timeLimit 1000) w).2 = Some hrefs
    ∧ getRelevantLinks type hrefs = pre ++ window ++ post
    ∧ NoDup window
    ∧ navigations ses = url :: window
    ∧ (attempts ses).*1 = window
    ∧ data out = omap snd (attempts ses)
    ∧ scrapedPages goto (extractFor type) window
        (goto url (times timeLimit 1000) w).2 (data out) w1
    ∧ writeFileSync type off lim out w1 = (true, final ses)
    ∧ websiteType out = type
    ∧ pagination out
      = mkPagination lim off (length (data out))
          (length (getRelevantLinks type hrefs))
    ∧ (length (data out) ≤ length window
       ≤ length (getRelevantLinks type hrefs))%nat.
Proof.
  intros ses Hout.
  destruct (scrapePage_window goto anchorHrefs extractArticleData
              extractProductData extractWeatherData writeFileSync
              url type timeLimit lim off w out Hout)
    as (hrefs & _ & Hhrefs & Htotal & Htried & Hdata & (w1 & Hpages & Hsaved)
        & Hnav & Hcount & Hlim & Hoff & Htype).
  fold ses in Htried, Hdata, Hnav, Hsaved.
  destruct (slice_segment (getRelevantLinks type hrefs) off (add off lim))
    as (pre & post & Hseg).
  pose proof (getRelevantLinks_NoDup type hrefs) as Hnd.
  exists hrefs, pre, (slice (getRelevantLinks type hrefs) off (add off lim)),
    post, w1.
  split_and!; try done.
  - rewrite Hseg in Hnd. apply NoDup_app in Hnd as (_ & _ & Hnd).
    by apply NoDup_app in Hnd as (Hnd & _ & _).
  - by rewrite Hnav, Htried.
  - destruct out as [ty [l o c t] d]. cbn in *. congruence.
  - rewrite Hdata, <- Htried, length_fmap. apply length_omap.
  - apply (f_equal length) in Hseg. rewrite !length_app in Hseg. lia.
Qed.

(** X11: [scrapePage] gives no output exactly when the seed page cannot be
    loaded, or its anchors cannot be read, or the output cannot be written
    to its file.  In the first two cases it navigates to no link.
    Otherwise every link of the window is tried, whether it loads or not
    and whether the file is written or not: a link that fails is passed
    over. *)
Theorem no_output_only_when_the_seed_page_fails url type timeLimit lim off
    (w : World) :
  let ses := cliScrapePage url type timeLimit lim off w in
  let try := scrapePageTry url type timeLimit lim off w in
  (result ses = None ↔
     (goto url (times timeLimit 1000) w).1 = false
     ∨ anchorHrefs (goto url (times timeLimit 1000) w).2 = None
     ∨ ∃ out, result try = Some out
              ∧ (writeFileSync type off lim out (final try)).1 = false)
  ∧ ((goto url (times timeLimit 1000) w).1 = false
     ∨ anchorHrefs (goto url (times timeLimit 1000) w).2 = None →
     navigations ses = [url] ∧ attempts ses = [])
  ∧ (∀ hrefs,
       (goto url (times timeLimit 1000) w).1 = true →
       anchorHrefs (goto url (times timeLimit 1000) w).2 = Some hrefs →
       navigations ses
       = url :: slice (getRelevantLinks type hrefs) off (add off lim)).
Proof.
  intros ses try.
  destruct (scrapePageTry_navigations url type timeLimit lim off w)
    as (Hnav & Hnone & Hiff & Hwindow).
  destruct (scrapePage_output goto anchorHrefs extractArticleData
              extractProductData extractWeatherData writeFileSync
              url type timeLimit lim off w) as (Hnavs & Htried & Hres).
  fold try in Hnav, Hnone, Hiff, Hwindow, Hnavs, Htried, Hres.
  fold ses in Hnavs, Htried, Hres.
  split_and!.
  - destruct (result try) as [output|] eqn:Htry.
    + destruct (writeFileSync type off lim output (final try)).1 eqn:Hsaved.
      * assert (result ses = Some output) as -> by by apply Hres.
        split; [done|]. intros [Hfail|[Hfail|(out & [= <-] & Hw)]].
        -- assert (Some output = None) as [=]. apply Hiff. by left.
        -- assert (Some output = None) as [=]. apply Hiff. by right.
        -- by rewrite Hsaved in Hw.
      * split; [|intros _].
        -- intros _. right; right. by exists output.
        -- destruct (result ses) as [out|] eqn:Hses; [|done].
           destruct (proj1 (Hres out) eq_refl) as [[= <-] Hw].
           by rewrite Hsaved in Hw.
    + split; [|intros _].
      * intros _. destruct Hiff as [Hiff _].
        destruct (Hiff eq_refl) as [?|?]; [by left|by right; left].
      * destruct (result ses) as [out|] eqn:Hses; [|done].
        by destruct (proj1 (Hres out) eq_refl) as [[=] _].
  - intros Hfail. apply Hiff in Hfail.
    rewrite Hnavs, Htried, Hnav, (Hnone Hfail). done.
  - intros hrefs Hloaded Hhrefs.
    by rewrite Hnavs, Hnav, (Hwindow hrefs Hloaded Hhrefs).
Qed.

End ScrapeMore.

(** *** The inputs *)

Lemma toLowerChar_idempotent (c : ascii) :
  toLowerChar (toLowerChar c) = toLowerChar c.
Proof. by destruct c as [[] [] [] [] [] [] [] []]. Qed.

Lemma toLowerCase_idempotent (s : string) :
  toLowerCase (toLowerCase s) = toLowerCase s.
Proof.
  induction s as [|c s IH]; [done|]. cbn. by rewrite toLowerChar_idempotent, IH.
Qed.

Lemma toLowerCase_empty (s : string) :
  toLowerCase s = EmptyString ↔ s = EmptyString.
Proof. by destruct s. Qed.

Section Inputs.
Context {World Item : Type}.
Variable goto : string → num → World → bool * World.
Variable anchorHrefs : World → option (list string).
Variable extractArticleData : World → option Item * World.
Variable extractProductData : World → option Item * World.
Variable extractWeatherData : World → option Item * World.
Variable writeFileSync : string → num → num → Output Item → World → bool * World.

Local Abbreviation extractFor :=
  (extractFor extractArticleData extractProductData extractWeatherData).
Local Abbreviation scrapePageTry :=
  (scrapePageTry goto anchorHrefs extractArticleData extractProductData
     extractWeatherData).
Local Abbreviation cliScrapePage :=
  (Cli.scrapePage goto anchorHrefs extractArticleData extractProductData
     extractWeatherData writeFileSync).
Local Abbreviation cliMain :=
  (Cli.main goto anchorHrefs extractArticleData extractProductData
     extractWeatherData writeFileSync).
Local Abbreviation postScrape := (Api.postScrape (Item:=Item) goto).

(** X12: the command line program calls [scrapePage] only with checked
    input: a website type that is one of the three, in lower case; a URL
    that is not empty; a time limit that reads as a number above zero,
    [Infinity] when the digits are too many for a double; a limit that is
    a number and not zero, 100 when the answer is empty, zero or not a
    number; and an offset that is a number, 0 when the answer is not one.
    Any other input is refused and no page is loaded. *)
Theorem cli_scrapes_only_checked_input type url timeLimit lim off (w : World) :
  match cliMain type url timeLimit lim off w with
  | Some ses =>
      ∃ t l o,
        toLowerCase type ∈ WEBSITE_TYPES
        ∧ url ≠ EmptyString
        ∧ parseIntString timeLimit = t
        ∧ (t = Inf false ∨ ∃ z, t = Int z ∧ (0 < z)%Z)
        ∧ l ≠ NaN ∧ l ≠ Int 0
        ∧ (parseIntString lim = NaN ∨ parseIntString lim = Int 0 →
           l = Int 100)
        ∧ (parseIntString lim = l ∨ l = Int 100)
        ∧ o ≠ NaN
        ∧ (parseIntString off = o ∨ parseIntString off = NaN ∧ o = Int 0)
        ∧ ses = cliScrapePage url (toLowerCase type) t l o w
  | None =>
      toLowerCase type ∉ WEBSITE_TYPES
      ∨ url = EmptyString
      ∨ parseIntString timeLimit = NaN
      ∨ parseIntString timeLimit = Inf true
      ∨ ∃ z, parseIntString timeLimit = Int z ∧ (z ≤ 0)%Z
  end.
Proof.
  unfold Cli.main. case_bool_decide as Htype; [|by left].
  case_bool_decide as Hurl; cbn [orb]; [by right; left|].
  destruct (parseIntString timeLimit) as [|t|[|]] eqn:Ht; cbn [isNaN leq orb].
  { by right; right; left. }
  { case_bool_decide as Hpos; [right; right; right; right; by exists t|].
    exists (Int t), (Cli.parseIntOr lim DEFAULT_LIMIT), (Cli.parseIntOr off 0).
    unfold Cli.parseIntOr, DEFAULT_LIMIT.
    split_and!; try done; try (right; exists t; split; [done|lia]);
      destruct (parseIntString lim) as [|l|[|]];
      destruct (parseIntString off) as [|o|[|]];
      try destruct (Z.eqb_spec l 0) as [->|?];
      try destruct (Z.eqb_spec o 0) as [->|?];
      try congruence; auto; try (intros [?|?]; congruence). }
  { by right; right; right; left. }
  { exists (Inf false), (Cli.parseIntOr lim DEFAULT_LIMIT), (Cli.parseIntOr off 0).
    unfold Cli.parseIntOr, DEFAULT_LIMIT.
    split_and!; try done; try (by left);
      destruct (parseIntString lim) as [|l|[|]];
      destruct (parseIntString off) as [|o|[|]];
      try destruct (Z.eqb_spec l 0) as [->|?];
      try destruct (Z.eqb_spec o 0) as [->|?];
      try congruence; auto; try (intros [?|?]; congruence). }
Qed.

(** X13: the website type is matched without regard to case, in the command
    line program and in the route alike: an input and its lower case form
    are handled the same. *)
Theorem website_type_is_case_insensitive type url timeLimit lim off (w : World) :
  cliMain type url timeLimit lim off w
  = cliMain (toLowerCase type) url timeLimit lim off w
  ∧ ∀ u t l o,
      postScrape (Api.mkBody u (Api.Str type) t l o) w
      = postScrape (Api.mkBody u (Api.Str (toLowerCase type)) t l o) w.
Proof.
  split.
  - unfold Cli.main. by rewrite toLowerCase_idempotent.
  - intros u t l o. unfold Api.postScrape.
    cbn [Api.req_url Api.req_websiteType Api.req_timeLimit Api.req_limit
         Api.req_offset Api.truthy].
    rewrite toLowerCase_idempotent.
    assert (bool_decide (toLowerCase type = EmptyString)
            = bool_decide (type = EmptyString)) as ->.
    { apply bool_decide_ext, toLowerCase_empty. }
    done.
Qed.

(** X14: what the route answers.  The reply is a 200 with the output of
    [scrapePage] exactly when [scrapePage] was called and gave one, which
    it never does; a 500 when it was called and gave none; a 400, without
    any call, when [url], [websiteType] or [timeLimit] is missing or falsy
    or the type is a string that is none of the three; and there is no
    reply at all when the type is a truthy value that is not a string, on
    which [toLowerCase] throws outside the [try] block. *)
Theorem route_replies_by_what_scrapePage_gave body (w : World) :
  let h := postScrape body w in
  let missing :=
    Api.truthy (Api.req_url body) = false
    ∨ Api.truthy (Api.req_websiteType body) = false
    ∨ Api.truthy (Api.req_timeLimit body) = false in
  (∀ out, Api.reply h = Api.Json 200 (Some out) ↔
     ∃ ses, Api.session h = Some ses ∧ result ses = Some out)
  ∧ (Api.reply h = Api.Json 500 None ↔
     ∃ ses, Api.session h = Some ses ∧ result ses = None)
  ∧ (Api.reply h = Api.Json 400 None ↔
     missing ∨ ∃ type, Api.req_websiteType body = Api.Str type
                       ∧ toLowerCase type ∉ WEBSITE_TYPES)
  ∧ (Api.reply h = Api.NoReply ↔
     ¬ missing ∧ ∀ type, Api.req_websiteType body ≠ Api.Str type)
  ∧ (Api.session h = None ↔
     Api.reply h = Api.Json 400 None ∨ Api.reply h = Api.NoReply)
  ∧ (∀ out, Api.reply h ≠ Api.Json 200 (Some out)).
Proof.
  intros h missing. unfold h, missing, Api.postScrape. clear h missing.
  destruct (Api.truthy (Api.req_url body)) eqn:Hurl; cbn [negb orb].
  2:{ split_and!; try naive_solver. }
  destruct (Api.truthy (Api.req_websiteType body)) eqn:Htype; cbn [negb orb].
  2:{ split_and!; try naive_solver. }
  destruct (Api.truthy (Api.req_timeLimit body)) eqn:Htime; cbn [negb orb].
  2:{ split_and!; try naive_solver. }
  destruct (Api.req_websiteType body) as [| | | |type] eqn:Hty.
  1-4: split_and!; try naive_solver.
  case_bool_decide as Hknown.
  2:{ split_and!; try naive_solver. }
  destruct (Api.req_url body) as [| | | |url].
  1-4: split_and!; try naive_solver.
  rewrite (Api_scrapePage_throws goto). cbn.
  split_and!; try naive_solver.
Qed.

End Inputs.

(** *** Reading numbers *)

Lemma digitOf_pretty_N_char (d : N) :
  (d < 10)%N → digitOf 10 (pretty_N_char d) = Some d.
Proof.
  intros Hd.
  assert (d ∈ [0; 1; 2; 3; 4; 5; 6; 7; 8; 9]%N) as Hin.
  { rewrite !elem_of_cons. lia. }
  repeat (apply elem_of_cons in Hin as [->|Hin]; [reflexivity|]).
  by apply elem_of_nil in Hin.
Qed.

Lemma pretty_N_go_app (x : N) (s s' : string) :
  pretty_N_go x (s +:+ s') = pretty_N_go x s +:+ s'.
Proof.
  revert s. induction (N.lt_wf_0 x) as [x _ IH]; intros s.
  destruct (decide (x = 0)%N) as [->|Hx]; [done|].
  rewrite (pretty_N_go_step x (s +:+ s')), (pretty_N_go_step x s) by lia.
  rewrite <- IH by (apply N.div_lt; lia). done.
Qed.

(** Reading back the digits that [pretty_N_go] wrote. *)
Lemma digitsOf_pretty_N_go (x : N) (s : string) :
  (0 < x)%N →
  digitsOf 10 (pretty_N_go x s) None = digitsOf 10 s (Some x).
Proof.
  revert s. induction (N.lt_wf_0 x) as [x _ IH]; intros s Hx.
  rewrite pretty_N_go_step by done.
  pose proof (N.div_mod x 10 ltac:(done)) as Hdiv.
  pose proof (N.mod_lt x 10 ltac:(done)) as Hmod.
  destruct (decide (x `div` 10 = 0)%N) as [Hq|Hq].
  - rewrite Hq, pretty_N_go_0. cbn [digitsOf].
    rewrite digitOf_pretty_N_char by done. cbn [default]. do 2 f_equal. lia.
  - rewrite IH; [|apply N.div_lt; lia|lia]. cbn [digitsOf].
    rewrite digitOf_pretty_N_char by done. cbn [default]. do 2 f_equal.
    by rewrite (N.mul_comm _ 10).
Qed.

(** The first digit written for a positive number is not [0]. *)
Lemma pretty_N_go_head (x : N) (s : string) :
  (0 < x)%N →
  ∃ d r, (0 < d < 10)%N ∧ pretty_N_go x s = String (pretty_N_char d) r.
Proof.
  revert s. induction (N.lt_wf_0 x) as [x _ IH]; intros s Hx.
  rewrite pretty_N_go_step by done.
  pose proof (N.div_mod x 10 ltac:(done)) as Hdiv.
  pose proof (N.mod_lt x 10 ltac:(done)) as Hmod.
  destruct (decide (x `div` 10 = 0)%N) as [Hq|Hq].
  - rewrite Hq, pretty_N_go_0. exists (x `mod` 10)%N, s. split; [lia|done].
  - apply IH; [apply N.div_lt; lia|lia].
Qed.

Lemma digitsOf_noLeadingDigit (s : string) (acc : option N) :
  noLeadingDigit s → digitsOf 10 s acc = acc.
Proof. destruct s as [|c s]; [done|]. cbn. by intros ->. Qed.

Lemma pretty_positive_digits (p : positive) (rest : string) :
  ∃ d r, (0 < d < 10)%N
    ∧ pretty p +:+ rest = String (pretty_N_char d) r
    ∧ (noLeadingDigit rest →
       digitsOf 10 (String (pretty_N_char d) r) None = Some (Npos p)).
Proof.
  unfold pretty, pretty_positive, pretty, pretty_N.
  rewrite decide_False by done.
  rewrite <- pretty_N_go_app. rewrite CrawlerFacts.append_nil_l.
  destruct (pretty_N_go_head (Npos p) rest) as (d & r & Hd & Heq); [done|].
  exists d, r. split; [done|]. split; [done|]. intros Hrest.
  rewrite <- Heq, digitsOf_pretty_N_go by done.
  by apply digitsOf_noLeadingDigit.
Qed.

(** A string that begins with one of the digits 1 to 9, after a [-] or not:
    there is no whitespace to skip and no [0x] prefix. *)
Lemma parse_leading_digit (d : N) (r : string) :
  (0 < d < 10)%N →
  let digits := digitsOf 10 (String (pretty_N_char d) r) None in
  parseIntString (String (pretty_N_char d) r)
    = match digits with Some n => toDouble (Z.of_N n) | None => NaN end
  ∧ parseIntString (String "-" (String (pretty_N_char d) r))
    = match digits with Some n => toDouble (- Z.of_N n) | None => NaN end
  ∧ parseIntRadix10 (String (pretty_N_char d) r)
    = match digits with Some n => toDouble (Z.of_N n) | None => NaN end
  ∧ parseIntRadix10 (String "-" (String (pretty_N_char d) r))
    = match digits with Some n => toDouble (- Z.of_N n) | None => NaN end.
Proof.
  intros Hd.
  assert (d ∈ [1; 2; 3; 4; 5; 6; 7; 8; 9]%N) as Hin.
  { rewrite !elem_of_cons. lia. }
  repeat (apply elem_of_cons in Hin as [->|Hin]; [by split_and!|]).
  by apply elem_of_nil in Hin.
Qed.

(** The decimal digits of an integer, followed by anything that does not
    begin with a digit, read with the radix 10 as the double nearest to
    that integer. *)
Lemma parseIntRadix10_decimal (z : Z) (rest : string) :
  noLeadingDigit rest → parseIntRadix10 (decimal z +:+ rest) = toDouble z.
Proof.
  intros Hrest. unfold decimal, pretty, pretty_Z. destruct z as [|p|p].
  - destruct rest as [|c rest]; [done|]. cbn in Hrest.
    unfold parseIntRadix10.
    rewrite CrawlerFacts.append_cons, CrawlerFacts.append_nil_l.
    change (skipSpaces (String "0" (String c rest)))
      with (String "0" (String c rest)).
    cbn -[digitOf]. change (digitOf 10 "0") with (Some 0%N).
    cbn -[digitOf]. by rewrite Hrest.
  - destruct (pretty_positive_digits p rest) as (d & r & Hd & -> & Hdigits).
    destruct (parse_leading_digit d r Hd) as (_ & _ & -> & _).
    by rewrite Hdigits.
  - rewrite CrawlerFacts.append_assoc.
    destruct (pretty_positive_digits p rest) as (d & r & Hd & -> & Hdigits).
    rewrite CrawlerFacts.append_cons, CrawlerFacts.append_nil_l.
    destruct (parse_leading_digit d r Hd) as (_ & _ & _ & ->).
    by rewrite Hdigits.
Qed.

(** [parseInt(s)] reads the decimal digits of an integer as the double
    nearest to it. *)
Lemma parseIntString_decimal (z : Z) : parseIntString (decimal z) = toDouble z.
Proof.
  unfold decimal, pretty, pretty_Z. destruct z as [|p|p]; [done|..].
  - destruct (pretty_positive_digits p EmptyString) as (d & r & Hd & Heq & Hdigits).
    rewrite CrawlerFacts.append_nil_r in Heq. rewrite Heq.
    destruct (parse_leading_digit d r Hd) as (-> & _).
    by rewrite Hdigits.
  - destruct (pretty_positive_digits p EmptyString) as (d & r & Hd & Heq & Hdigits).
    rewrite CrawlerFacts.append_nil_r in Heq. rewrite Heq.
    rewrite CrawlerFacts.append_cons, CrawlerFacts.append_nil_l.
    destruct (parse_leading_digit d r Hd) as (_ & -> & _).
    by rewrite Hdigits.
Qed.


(** *** The news site again *)

Lemma output_is_consistent_for_any_page_window_witness :
  let goto := siteGoto ["https://n.com/news/2"] in
  let ses := Cli.scrapePage goto (siteAnchors newsPages) siteItem siteItem
               siteItem siteWrite
               "https://n.com" "news" (Int 30) (Int 2) (Int (-3)) EmptyString in
  ∃ out,
    result ses = Some out
    ∧ (attempts ses).*1 = ["https://n.com/news/1"; "https://n.com/news/2"]
    ∧ data out = ["https://n.com/news/1"]
    ∧ (∃ w1, scrapedPages goto siteItem
               ["https://n.com/news/1"; "https://n.com/news/2"]
               "https://n.com" (data out) w1)
    ∧ NoDup (attempts ses).*1.
Proof.
  intros goto ses.
  assert (∃ out, result ses = Some out
                 ∧ (attempts ses).*1 = ["https://n.com/news/1"; "https://n.com/news/2"]
                 ∧ data out = ["https://n.com/news/1"])
    as (out & Hout & Htried & Hdata).
  { eexists. split_and!; vm_compute; reflexivity. }
  exists out.
  destruct (output_is_consistent_for_any_page_window goto
              (siteAnchors newsPages) siteItem siteItem siteItem siteWrite
              "https://n.com" "news" (Int 30) (Int 2) (Int (-3)) EmptyString out Hout)
    as (hrefs & pre & window & post & w1 & _ & _ & Hnd & _ & Hwindow & _
        & Hpages & _).
  fold ses in Hwindow. rewrite Htried in Hwindow. subst window.
  split_and!; [done|done|done|by exists w1|by rewrite Htried].
Defined.

(** *** The window at its edges *)

Lemma slice_from_the_end {A} (xs : list A) (k n : Z) :
  (0 < k ≤ Z.of_nat (length xs))%Z → (0 ≤ n < k)%Z →
  slice xs (Int (- k)) (add (Int (- k)) (Int n))
  = take (Z.to_nat n) (drop (length xs - Z.to_nat k) xs).
Proof.
  intros Hk Hn. unfold slice, add, relativeIndex.
  rewrite (proj2 (Z.ltb_lt _ _)) by lia.
  rewrite (proj2 (Z.ltb_lt _ _)) by lia.
  rewrite !Z.max_l by lia. f_equal; [lia|]. f_equal. lia.
Qed.

Lemma slice_back_to_the_start {A} (xs : list A) (k : Z) :
  (0 < k)%Z → slice xs (Int (- k)) (add (Int (- k)) (Int k)) = [].
Proof.
  intros Hk. unfold slice, add, relativeIndex.
  rewrite (proj2 (Z.ltb_lt (- k) 0)) by lia.
  replace (- k + k)%Z with 0%Z by lia. change (0 <? 0)%Z with false.
  cbn iota.
  match goal with |- take ?n _ = [] => replace n with 0%nat; [done|] end.
  lia.
Qed.

Lemma slice_beyond_the_end {A} (xs : list A) (k : Z) (n : num) :
  (Z.of_nat (length xs) ≤ k)%Z → slice xs (Int k) (add (Int k) n) = [].
Proof.
  intros Hk. unfold slice. cbn [relativeIndex].
  rewrite (proj2 (Z.ltb_ge k 0)) by lia. rewrite Z.min_r by lia.
  rewrite drop_ge by lia. apply take_nil.
Qed.

Section Edges.
Context {World Item : Type}.
Variable goto : string → num → World → bool * World.
Variable anchorHrefs : World → option (list string).
Variable extractArticleData : World → option Item * World.
Variable extractProductData : World → option Item * World.
Variable extractWeatherData : World → option Item * World.
Variable writeFileSync : string → num → num → Output Item → World → bool * World.

Local Abbreviation extractFor :=
  (extractFor extractArticleData extractProductData extractWeatherData).
Local Abbreviation scrapePageTry :=
  (scrapePageTry goto anchorHrefs extractArticleData extractProductData
     extractWeatherData).
Local Abbreviation cliScrapePage :=
  (Cli.scrapePage goto anchorHrefs extractArticleData extractProductData
     extractWeatherData writeFileSync).
Local Abbreviation cliMain :=
  (Cli.main goto anchorHrefs extractArticleData extractProductData
     extractWeatherData writeFileSync).
Local Abbreviation postScrape := (Api.postScrape (Item:=Item) goto).

(** X16: the window of [scrapePage] at its edges.  A negative offset counts
    from the end: with the offset [-k] and a limit below [k] the links
    tried are the next [limit] ones from the [k]-th last on; with the limit
    [k] itself the window is empty.  With an offset at or beyond the number
    of links the window is empty too: no link is tried and [data] is empty,
    while [total] still counts the links. *)
Theorem page_window_at_its_edges url type timeLimit lim off (w : World) out :
  let ses := cliScrapePage url type timeLimit lim off w in
  result ses = Some out →
  ∃ hrefs,
    anchorHrefs (goto url (times timeLimit 1000) w).2 = Some hrefs
    ∧ total (pagination out) = length (getRelevantLinks type hrefs)
    ∧ (∀ k n, off = Int (- k) → lim = Int n →
         (0 < k ≤ Z.of_nat (length (getRelevantLinks type hrefs)))%Z →
         (0 ≤ n < k)%Z →
         (attempts ses).*1
         = take (Z.to_nat n)
             (drop (length (getRelevantLinks type hrefs) - Z.to_nat k)
                (getRelevantLinks type hrefs)))
    ∧ (∀ k, off = Int (- k) → lim = Int k → (0 < k)%Z →
         attempts ses = [] ∧ data out = [] ∧ navigations ses = [url])
    ∧ (∀ k, off = Int k →
         (Z.of_nat (length (getRelevantLinks type hrefs)) ≤ k)%Z →
         attempts ses = [] ∧ data out = [] ∧ count (pagination out) = 0%nat
         ∧ navigations ses = [url]).
Proof.
  intros ses Hout.
  destruct (scrapePage_window goto anchorHrefs extractArticleData
              extractProductData extractWeatherData writeFileSync
              url type timeLimit lim off w out Hout)
    as (hrefs & _ & Hhrefs & Htotal & Htried & Hdata & _ & Hnav & Hcount & _).
  fold ses in Htried, Hdata, Hnav.
  assert ((attempts ses).*1 = [] →
          attempts ses = [] ∧ data out = [] ∧ count (pagination out) = 0%nat
          ∧ navigations ses = [url]) as Hempty.
  { intros Hnil. apply fmap_nil_inv in Hnil.
    rewrite Hnav, Hcount, Hdata, Hnil. by split_and!. }
  exists hrefs. split_and!; [done|done|..].
  - intros k n -> -> Hk Hn. rewrite Htried. by apply slice_from_the_end.
  - intros k -> -> Hk.
    destruct Hempty as (? & ? & _ & ?); [|done].
    rewrite Htried. by apply slice_back_to_the_start.
  - intros k -> Hk. apply Hempty. rewrite Htried.
    by apply slice_beyond_the_end.
Qed.

End Edges.

Lemma page_window_at_its_edges_witness :
  let ses lim off :=
    Cli.scrapePage (siteGoto []) (siteAnchors newsPages)
      siteItem siteItem siteItem siteWrite
      "https://n.com" "news" (Int 30) lim off EmptyString in
  (∃ out, result (ses (Int 5) (Int 3)) = Some out
          ∧ data out = [] ∧ total (pagination out) = 3%nat)
  ∧ (attempts (ses (Int 1) (Int (-2)))).*1 = ["https://n.com/news/2"]
  ∧ attempts (ses (Int 2) (Int (-2))) = [].
Proof.
  intros ses.
  split_and!.
  - assert (∃ out, result (ses (Int 5) (Int 3)) = Some out) as [out Hres]
      by (eexists; vm_compute; reflexivity).
    exists out.
    destruct (page_window_at_its_edges (siteGoto []) (siteAnchors newsPages)
                siteItem siteItem siteItem siteWrite "https://n.com" "news"
                (Int 30) (Int 5) (Int 3) EmptyString out Hres)
      as (hrefs & Hhrefs & Htotal & _ & _ & Hbeyond).
    vm_compute in Hhrefs. injection Hhrefs as <-.
    destruct (Hbeyond 3%Z eq_refl) as (_ & Hdata & _);
      [vm_compute; discriminate|].
    split_and!; [done..|]. rewrite Htotal. vm_compute. reflexivity.
  - assert (∃ out, result (ses (Int 1) (Int (-2))) = Some out) as [out Hres]
      by (eexists; vm_compute; reflexivity).
    destruct (page_window_at_its_edges (siteGoto []) (siteAnchors newsPages)
                siteItem siteItem siteItem siteWrite "https://n.com" "news"
                (Int 30) (Int 1) (Int (-2)) EmptyString out Hres)
      as (hrefs & Hhrefs & _ & Hend & _).
    vm_compute in Hhrefs. injection Hhrefs as <-.
    etrans; [apply (Hend 2%Z 1%Z eq_refl eq_refl);
             [vm_compute; split; [reflexivity|discriminate]|lia]|].
    vm_compute. reflexivity.
  - assert (∃ out, result (ses (Int 2) (Int (-2))) = Some out) as [out Hres]
      by (eexists; vm_compute; reflexivity).
    destruct (page_window_at_its_edges (siteGoto []) (siteAnchors newsPages)
                siteItem siteItem siteItem siteWrite "https://n.com" "news"
                (Int 30) (Int 2) (Int (-2)) EmptyString out Hres)
      as (hrefs & _ & _ & _ & Hback & _).
    by destruct (Hback 2%Z eq_refl eq_refl ltac:(lia)).
Defined.

(** *** Pages next to each other *)

Section Pages.
Context {World Item : Type}.
Variable goto : string → num → World → bool * World.
Variable anchorHrefs : World → option (list string).
Variable extractArticleData : World → option Item * World.
Variable extractProductData : World → option Item * World.
Variable extractWeatherData : World → option Item * World.
Variable writeFileSync : string → num → num → Output Item → World → bool * World.

Local Abbreviation extractFor :=
  (extractFor extractArticleData extractProductData extractWeatherData).
Local Abbreviation scrapePageTry :=
  (scrapePageTry goto anchorHrefs extractArticleData extractProductData
     extractWeatherData).
Local Abbreviation cliScrapePage :=
  (Cli.scrapePage goto anchorHrefs extractArticleData extractProductData
     extractWeatherData writeFileSync).
Local Abbreviation cliMain :=
  (Cli.main goto anchorHrefs extractArticleData extractProductData
     extractWeatherData writeFileSync).
Local Abbreviation postScrape := (Api.postScrape (Item:=Item) goto).

(** X17: consecutive pages do not overlap and leave no gap.  When the seed
    page shows the same anchors to two calls of [scrapePage], one for the
    window at [offset] and one for the window right after it, the links the
    two calls try are, together and in order, the links of the one window
    that spans both; and no link is tried by both calls. *)
Theorem consecutive_pages_partition_the_links url type timeLimit
    (off lim lim' : Z) (w w' : World) out out' :
  let ses := cliScrapePage url type timeLimit (Int lim) (Int off) w in
  let ses' :=
    cliScrapePage url type timeLimit (Int lim') (Int (off + lim)) w' in
  (0 ≤ off)%Z → (0 ≤ lim)%Z → (0 ≤ lim')%Z →
  result ses = Some out → result ses' = Some out' →
  anchorHrefs (goto url (times timeLimit 1000) w).2
  = anchorHrefs (goto url (times timeLimit 1000) w').2 →
  ∃ hrefs,
    anchorHrefs (goto url (times timeLimit 1000) w).2 = Some hrefs
    ∧ (attempts ses).*1 ++ (attempts ses').*1
      = take (Z.to_nat (lim + lim'))
          (drop (Z.to_nat off) (getRelevantLinks type hrefs))
    ∧ NoDup ((attempts ses).*1 ++ (attempts ses').*1)
    ∧ (∀ link, link ∈ (attempts ses).*1 → link ∉ (attempts ses').*1).
Proof.
  intros ses ses' Hoff Hlim Hlim' Hout Hout' Hsame.
  destruct (scrapePage_window goto anchorHrefs extractArticleData
              extractProductData extractWeatherData writeFileSync
              url type timeLimit (Int lim) (Int off) w out Hout)
    as (hrefs & _ & Hhrefs & _ & Htried & _).
  destruct (scrapePage_window goto anchorHrefs extractArticleData
              extractProductData extractWeatherData writeFileSync
              url type timeLimit (Int lim') (Int (off + lim)) w' out' Hout')
    as (hrefs' & _ & Hhrefs' & _ & Htried' & _).
  fold ses in Htried. fold ses' in Htried'.
  rewrite <- Hsame, Hhrefs in Hhrefs'. injection Hhrefs' as <-.
  rewrite slice_take_drop in Htried, Htried' by lia.
  assert ((attempts ses).*1 ++ (attempts ses').*1
          = take (Z.to_nat (lim + lim'))
              (drop (Z.to_nat off) (getRelevantLinks type hrefs))) as Hall.
  { rewrite Htried, Htried'.
    replace (Z.to_nat (off + lim)) with (Z.to_nat off + Z.to_nat lim)%nat by lia.
    rewrite <- drop_drop, take_take_drop. f_equal. lia. }
  assert (NoDup ((attempts ses).*1 ++ (attempts ses').*1)) as Hnd.
  { rewrite Hall. eapply sublist_NoDup; [apply getRelevantLinks_NoDup|].
    etrans; [apply sublist_take|apply sublist_drop]. }
  exists hrefs. split_and!; [done..|].
  apply NoDup_app in Hnd as (_ & Hdisjoint & _). exact Hdisjoint.
Qed.

End Pages.

Lemma consecutive_pages_partition_the_links_witness :
  let ses lim off :=
    Cli.scrapePage (siteGoto []) (siteAnchors newsPages)
      siteItem siteItem siteItem siteWrite
      "https://n.com" "news" (Int 30) (Int lim) (Int off) EmptyString in
  (attempts (ses 1 0)%Z).*1 ++ (attempts (ses 2 1)%Z).*1
  = ["https://n.com/news/1"; "https://n.com/news/2";
     "https://n.com/2024/05/17/x"]
  ∧ NoDup ((attempts (ses 1 0)%Z).*1 ++ (attempts (ses 2 1)%Z).*1).
Proof.
  intros ses.
  assert (∃ out, result (ses 1 0)%Z = Some out) as [out Hout]
    by (eexists; vm_compute; reflexivity).
  assert (∃ out, result (ses 2 1)%Z = Some out) as [out' Hout']
    by (eexists; vm_compute; reflexivity).
  destruct (consecutive_pages_partition_the_links (siteGoto [])
              (siteAnchors newsPages) siteItem siteItem siteItem siteWrite
              "https://n.com" "news" (Int 30) 0 1 2 EmptyString EmptyString
              out out' ltac:(lia) ltac:(lia) ltac:(lia) Hout Hout' eq_refl)
    as (hrefs & Hhrefs & Hall & Hnd & _).
  split; [|exact Hnd].
  etrans; [exact Hall|]. vm_compute in Hhrefs. injection Hhrefs as <-.
  vm_compute. reflexivity.
Defined.

End TypedFacts.

(** ** The prompt of the site crawler *)

Module PromptFacts.
Import Js Crawler Typed Prompt.

Section ProgramFacts.
Context {World : Type}.
Variable dateNow : World → Z * World.
Variable scrapePageData : string → World → option PageData * World.

(** X19: the time limit typed at the prompt is read by its leading digits.
    An answer made of the decimal digits of an integer and then anything
    that does not begin with a digit, a unit or a fraction say, runs [main]
    with the double nearest to that integer, which is the integer itself
    when it is below [2^53] in magnitude; so it exits with status 1 when
    the integer is zero or negative. *)
Theorem typed_time_limit_is_read_by_its_leading_digits fuel url (z : Z)
    (rest : string) (w : World) :
  noLeadingDigit rest →
  program dateNow scrapePageData fuel url (decimal z +:+ rest) w
  = main dateNow scrapePageData fuel url (toDouble z) w
  ∧ ((Z.abs z < 2 ^ 53)%Z →
     program dateNow scrapePageData fuel url (decimal z +:+ rest) w
     = main dateNow scrapePageData fuel url (Int z) w)
  ∧ ((z ≤ 0)%Z →
     program dateNow scrapePageData fuel url (decimal z +:+ rest) w
     = mkRun [] Exit1).
Proof.
  intros Hrest.
  assert (program dateNow scrapePageData fuel url (decimal z +:+ rest) w
          = main dateNow scrapePageData fuel url (toDouble z) w) as Hsame.
  { unfold program, promptForInput.
    by rewrite TypedFacts.parseIntRadix10_decimal. }
  split_and!; [done|..].
  - intros Hz. by rewrite Hsame, JsFacts.toDouble_exact.
  - intros Hz. rewrite Hsame. unfold main.
    case_bool_decide; [done|].
    destruct (JsFacts.toDouble_nonpos z Hz) as [->|(z' & -> & Hz')]; [done|].
    by rewrite bool_decide_eq_true_2.
Qed.

End ProgramFacts.

Lemma typed_time_limit_is_read_by_its_leading_digits_witness :
  program clockNow (staticScrape treeWeb 10) 5 "https://x.com/a" "30s" 0%Z
  = main clockNow (staticScrape treeWeb 10) 5 "https://x.com/a" (Int 30) 0%Z
  ∧ program clockNow (staticScrape treeWeb 10) 5 "https://x.com/a" "-5.5" 0%Z
    = mkRun [] Exit1.
Proof.
  split.
  - apply (typed_time_limit_is_read_by_its_leading_digits clockNow
             (staticScrape treeWeb 10) 5 "https://x.com/a" 30 "s" 0%Z);
      [reflexivity|vm_compute; reflexivity].
  - apply (typed_time_limit_is_read_by_its_leading_digits clockNow
             (staticScrape treeWeb 10) 5 "https://x.com/a" (-5) ".5" 0%Z);
      [reflexivity|lia].
Defined.

End PromptFacts.

(** ** The extractors *)

Module ExtractorFacts.
Import Js Extractors.

Lemma orText_nonempty (a : option text) (b : text) : b ≠ [] → orText a b ≠ [].
Proof. by destruct a as [[|c r]|]. Qed.

Lemma firstElement_None (doc : Document) (selectors : list string) :
  firstElement doc selectors = None
  ↔ ∀ selector, selector ∈ selectors → querySelector doc selector = None.
Proof.
  induction selectors as [|sel rest IH]; cbn.
  { split; [by intros _ ? ?%elem_of_nil|done]. }
  destruct (querySelector doc sel) eqn:Hsel.
  - split; [done|]. intros Hall. rewrite Hall in Hsel; [done|by left].
  - rewrite IH. split.
    + intros Hall selector [->|Hin]%elem_of_cons; auto.
    + intros Hall selector Hin. apply Hall. by right.
Qed.

(** *** [trim] *)

Lemma trimStart_suffix (t : text) :
  ∃ pre, t = pre ++ Crawler.trimStart t
         ∧ Forall (λ c, isWhiteSpace c = true) pre.
Proof.
  induction t as [|c r (pre & Heq & Hpre)]; [by exists []|]. cbn.
  destruct (isWhiteSpace c) eqn:Hc.
  - exists (c :: pre). split; [by rewrite Heq at 1|]. by apply Forall_cons.
  - by exists [].
Qed.

Lemma trim_ends (t : text) (c : N) :
  head (Crawler.trim t) = Some c ∨ last (Crawler.trim t) = Some c →
  isWhiteSpace c = false.
Proof.
  unfold Crawler.trim, Crawler.trimEnd.
  set (s := Crawler.trimStart t).
  rewrite head_reverse, last_reverse. intros [Hlast|Hhead].
  - destruct (trimStart_suffix (reverse s)) as (pre & Heq & _).
    assert (last (reverse s) = Some c) as Hc.
    { rewrite Heq, last_app, Hlast. done. }
    rewrite last_reverse in Hc. unfold s in Hc.
    destruct (Crawler.trimStart t) as [|c' r] eqn:Hs; [done|].
    injection Hc as ->. by eapply CrawlerFacts.trimStart_head.
  - destruct (Crawler.trimStart (reverse s)) as [|c' r] eqn:Hs; [done|].
    injection Hhead as ->. by eapply CrawlerFacts.trimStart_head.
Qed.

(** X20: a product.  Its price, when there is one, holds only the digits and
    dots of the text it was read from, and there is none exactly when no
    price selector matches; its images are never an empty array: the
    sources of the gallery images that have one, or else the single value of
    the [og:image] meta tag, be it [null]; its currency and availability are
    never empty; and it has one variant for each variant element. *)
Theorem product_price_and_images (doc : Document) :
  let p := extractProductData doc in
  (∀ t, price p = Some t →
     Forall (λ c, (48 ≤ c ≤ 57)%N ∨ c = 46%N) t)
  ∧ (price p = None ↔
     ∀ selector, selector ∈ priceSelectors → querySelector doc selector = None)
  ∧ productImages p ≠ []
  ∧ (productImages p = [getMeta doc "og:image"]
     ∨ Forall (λ x, ∃ c r, x = Some (c :: r)) (productImages p))
  ∧ currency p ≠ []
  ∧ availability p ≠ []
  ∧ length (variants p)
    = length (querySelectorAll doc
                "[data-variant], .variant-option, .product-variant").
Proof.
  intros p. unfold p, extractProductData. cbn [price productImages currency
    availability variants]. split_and!.
  - unfold getPrice. intros t.
    destruct (firstElement doc priceSelectors); [|done]. intros [= <-].
    unfold cleanPrice. apply Forall_forall.
    intros c [Hc _]%list_elem_of_filter. apply Is_true_true in Hc.
    unfold isPriceUnit in Hc.
    rewrite orb_true_iff, andb_true_iff, !N.leb_le, N.eqb_eq in Hc. lia.
  - unfold getPrice. rewrite <- firstElement_None.
    by destruct (firstElement doc priceSelectors).
  - unfold getProductImages. by destruct (omap _ _).
  - unfold getProductImages.
    destruct (omap _ _) as [|x xs] eqn:Himages; [by left|right].
    rewrite <- Himages. apply Forall_fmap, Forall_forall.
    intros x' (img & _ & Hsrc)%list_elem_of_omap. cbn.
    destruct (orElse _ _) as [[|c r]|]; try done.
    injection Hsrc as <-. by exists c, r.
  - by apply orText_nonempty.
  - by apply orText_nonempty.
  - unfold getVariants. by rewrite length_fmap.
Qed.

(** X21: the weather.  Each of the five fields is [null] exactly when its
    selector matches no element, and is otherwise the text of the first
    element that matches without whitespace at either end. *)
Theorem weather_fields_are_trimmed (doc : Document) :
  let w := extractWeatherData doc in
  Forall (λ field : string * option text,
            (field.2 = None ↔ querySelector doc field.1 = None)
            ∧ ∀ t, field.2 = Some t →
                (∃ element, querySelector doc field.1 = Some element
                            ∧ t = Crawler.trim (textContent element))
                ∧ ∀ c, head t = Some c ∨ last t = Some c →
                       isWhiteSpace c = false)
    [(".temperature, .temp, [data-temp]", temperature w);
     (".condition, .weather-condition, [data-condition]", condition w);
     (".location, .city-name, [data-location]", location w);
     (".humidity, .humidity-level, [data-humidity]", humidity w);
     (".wind, .wind-speed, [data-wind]", wind w)].
Proof.
  intros w.
  assert (∀ selector,
    (extractText doc selector = None ↔ querySelector doc selector = None)
    ∧ ∀ t, extractText doc selector = Some t →
        (∃ element, querySelector doc selector = Some element
                    ∧ t = Crawler.trim (textContent element))
        ∧ ∀ c, head t = Some c ∨ last t = Some c → isWhiteSpace c = false)
    as Hfield.
  { intros selector. unfold extractText.
    destruct (querySelector doc selector) as [element|]; [|done].
    split; [done|]. intros t [= <-]. split; [by exists element|].
    apply trim_ends. }
  repeat (apply Forall_cons; split; [apply Hfield|]). apply Forall_nil_2.
Qed.

(** X22: an article.  Its description is the meta description when that is
    not empty, and otherwise at most the first 200 code units of the first
    paragraph; its category, language and country are never empty; its
    author is [Unknown Author] when no author selector matches; and its date
    is the current time when no date selector matches. *)
Theorem article_description_and_defaults (doc : Document) (now : text) :
  let a := extractArticleData doc now in
  (∀ t, articleDescription a = Some t →
     getMeta doc "description" = Some t ∧ t ≠ []
     ∨ (∃ p, querySelector doc "p" = Some p ∧ t = take 200 (textContent p))
       ∧ (length t ≤ 200)%nat)
  ∧ articleCategory a ≠ []
  ∧ language a ≠ []
  ∧ country a = Crawler.utf16 "us"
  ∧ ((∀ selector, selector ∈ authorSelectors →
        querySelector doc selector = None) →
     author a = Crawler.utf16 "Unknown Author")
  ∧ ((∀ selector, selector ∈ dateSelectors →
        querySelector doc selector = None) →
     published_at a = now).
Proof.
  intros a. unfold a, extractArticleData. cbn [articleDescription
    articleCategory language country author published_at]. split_and!.
  - intros t. unfold orElse.
    destruct (getMeta doc "description") as [[|c r]|] eqn:Hmeta.
    + destruct (querySelector doc "p") as [p|]; [|done]. cbn.
      intros [= <-]. right. split; [by exists p|]. rewrite length_take. lia.
    + intros [= <-]. by left.
    + destruct (querySelector doc "p") as [p|]; [|done]. cbn.
      intros [= <-]. right. split; [by exists p|]. rewrite length_take. lia.
  - by apply orText_nonempty.
  - by apply orText_nonempty.
  - done.
  - intros Hnone%firstElement_None. unfold getAuthor. by rewrite Hnone.
  - intros Hnone%firstElement_None. unfold extractDate. by rewrite Hnone.
Qed.

End ExtractorFacts.
